(** * Sushiswap incremental sync and AdEx staking events

    Shallow embedding of
    - [rotkehlchen/chain/ethereum/adex/typing.py] (the four staking event
      records and their database tuples), and
    - [rotkehlchen/chain/ethereum/modules/sushiswap/sushiswap.py] (the
      paginated subgraph queries and the two incremental syncs
      [_get_events_balances] and [_get_trades]).

    Python dicts are [gmap]s, Python ints are [Z], [FVal] decimals are
    rationals [Q].  Methods that mutate the database or talk to the
    subgraph live in a state-and-exception monad whose state survives a
    raised exception, as a Python object does. *)

From Stdlib Require Import ZArith QArith List Ascii String Sorting.Sorted Sorting.Permutation.
From stdpp Require Import base gmap strings list fin_maps sorting.
From stdpp Require pretty.

Local Open Scope string_scope.
Local Open Scope Z_scope.
Local Open Scope list_scope.

(** ** AdEx staking events ([adex/typing.py]) *)

Module Adex.

(** A column of a database row: Python [str], [int] or [None]. *)
Inductive DBValue : Type :=
| DBStr (s : string)
| DBInt (n : Z)
| DBNone.

Definition is_None (v : DBValue) : bool :=
  match v with DBNone => true | _ => false end.

Inductive EventType : Type :=
| BOND
| UNBOND
| UNBOND_REQUEST
| CHANNEL_WITHDRAW.

(** [EventType.__str__] *)
Definition EventType_str (e : EventType) : string :=
  match e with
  | BOND => "deposit"
  | UNBOND => "withdraw"
  | UNBOND_REQUEST => "withdraw request"
  | CHANNEL_WITHDRAW => "claim"
  end.

Definition FVal : Type := Q.

Record Balance : Type := mkBalance {
  amount : FVal;
  usd_value : FVal;
}.

Record Bond : Type := mkBond {
  bond_tx_hash : string;
  bond_address : string;
  bond_identity_address : string;
  bond_timestamp : Z;
  bond_bond_id : string;
  bond_pool_id : string;
  bond_value : Balance;
  bond_nonce : Z;
  bond_slashed_at : Z;
}.

Record Unbond : Type := mkUnbond {
  unbond_tx_hash : string;
  unbond_address : string;
  unbond_identity_address : string;
  unbond_timestamp : Z;
  unbond_bond_id : string;
  unbond_value : Balance;
  unbond_pool_id : string;
}.

Record UnbondRequest : Type := mkUnbondRequest {
  ureq_tx_hash : string;
  ureq_address : string;
  ureq_identity_address : string;
  ureq_timestamp : Z;
  ureq_bond_id : string;
  ureq_unlock_at : Z;
  ureq_value : Balance;
  ureq_pool_id : string;
}.

Record ChannelWithdraw : Type := mkChannelWithdraw {
  cw_tx_hash : string;
  cw_address : string;
  cw_identity_address : string;
  cw_timestamp : Z;
  cw_value : Balance;
  cw_channel_id : string;
  cw_pool_id : string;
}.

Section ToDbTuple.

(** [str] of an [FVal]; the decimal printer is not part of these files. *)
Variable str_FVal : FVal -> string.

(** [Bond.to_db_tuple] *)
Definition Bond_to_db_tuple (self : Bond) : list DBValue :=
  [ DBStr (bond_tx_hash self);
    DBStr (bond_address self);
    DBStr (bond_identity_address self);
    DBInt (bond_timestamp self);
    DBStr (EventType_str BOND);
    DBStr (bond_pool_id self);
    DBStr (str_FVal (amount (bond_value self)));
    DBStr (str_FVal (usd_value (bond_value self)));
    DBStr (bond_bond_id self);
    DBInt (bond_nonce self);
    DBInt (bond_slashed_at self);
    DBNone;  (* unlock_at *)
    DBNone   (* channel_id *) ].

(** [Unbond.to_db_tuple] *)
Definition Unbond_to_db_tuple (self : Unbond) : list DBValue :=
  [ DBStr (unbond_tx_hash self);
    DBStr (unbond_address self);
    DBStr (unbond_identity_address self);
    DBInt (unbond_timestamp self);
    DBStr (EventType_str UNBOND);
    DBStr (unbond_pool_id self);
    DBStr (str_FVal (amount (unbond_value self)));
    DBStr (str_FVal (usd_value (unbond_value self)));
    DBStr (unbond_bond_id self);
    DBNone;  (* nonce *)
    DBNone;  (* slashed_at *)
    DBNone;  (* unlock_at *)
    DBNone   (* channel_id *) ].

(** [UnbondRequest.to_db_tuple] *)
Definition UnbondRequest_to_db_tuple (self : UnbondRequest) : list DBValue :=
  [ DBStr (ureq_tx_hash self);
    DBStr (ureq_address self);
    DBStr (ureq_identity_address self);
    DBInt (ureq_timestamp self);
    DBStr (EventType_str UNBOND_REQUEST);
    DBStr (ureq_pool_id self);
    DBStr (str_FVal (amount (ureq_value self)));
    DBStr (str_FVal (usd_value (ureq_value self)));
    DBStr (ureq_bond_id self);
    DBNone;  (* nonce *)
    DBNone;  (* slashed_at *)
    DBInt (ureq_unlock_at self);
    DBNone   (* channel_id *) ].

(** [ChannelWithdraw.to_db_tuple] *)
Definition ChannelWithdraw_to_db_tuple (self : ChannelWithdraw) : list DBValue :=
  [ DBStr (cw_tx_hash self);
    DBStr (cw_address self);
    DBStr (cw_identity_address self);
    DBInt (cw_timestamp self);
    DBStr (EventType_str CHANNEL_WITHDRAW);
    DBStr (cw_pool_id self);
    DBStr (str_FVal (amount (cw_value self)));
    DBStr (str_FVal (usd_value (cw_value self)));
    DBNone;  (* bond_id *)
    DBNone;  (* nonce *)
    DBNone;  (* slashed_at *)
    DBNone;  (* unlocked_at *)
    DBStr (cw_channel_id self) ].

(** The five optional columns [bond_id, nonce, slashed_at, unlock_at,
    channel_id] of a row, as "is it [None]" flags. *)
Definition optional_columns_None (row : list DBValue) : list bool :=
  is_None <$> drop 8 row.

End ToDbTuple.

End Adex.

(** ** Sushiswap module ([modules/sushiswap/sushiswap.py]) *)

Module Sushiswap.

Abbreviation Timestamp := Z.
Abbreviation ChecksumEthAddress := string.
Abbreviation FVal := Q.

Definition SUSHISWAP_EVENTS_PREFIX : string := "sushiswap_events".
Definition SUSHISWAP_TRADES_PREFIX : string := "sushiswap_trades".

(** The f-string [f'{PREFIX}_{address}']. *)
Definition entry_name (prefix : string) (address : ChecksumEthAddress) : string :=
  prefix +:+ "_" +:+ address.

(** [FVal > 0] *)
Definition FVal_gt_zero (x : FVal) : bool := (0 <? Qnum x)%Z.

(** [FVal == FVal] compares values, not representations. *)
Definition FVal_eqb (x y : FVal) : bool := Qeq_bool x y.

Definition ZERO : FVal := 0%Q.

(** *** Exceptions *)

Inductive Exception : Type :=
| RemoteError (msg : string)
| ValueError (msg : string)
| ArithmeticError.

Definition Result (A : Type) : Type := Exception + A.

Definition res_bind {A B} (r : Result A) (f : A -> Result B) : Result B :=
  match r with
  | inl e => inl e
  | inr a => f a
  end.

Fixpoint res_fold {A B} (f : B -> A -> Result B) (l : list A) (b : B) : Result B :=
  match l with
  | [] => inr b
  | x :: l' => res_bind (f b x) (res_fold f l')
  end.

(** *** Domain records *)

Record EthereumToken : Type := mkToken {
  ethereum_address : ChecksumEthAddress;
  symbol : string;
  name : string;
  decimals : Z;
}.

Record Balance : Type := mkBalance {
  amount : FVal;
  usd_value : FVal;
}.

Record LiquidityPoolAsset : Type := mkLiquidityPoolAsset {
  asset : EthereumToken;
  total_amount : FVal;
  asset_user_balance : Balance;
}.

Record LiquidityPool : Type := mkLiquidityPool {
  pool_address : ChecksumEthAddress;
  assets : list LiquidityPoolAsset;
  total_supply : FVal;
  user_balance : Balance;
}.

Inductive Location : Type := SUSHISWAP.

(** [AMMSwap], with the fields its constructor call in
    [_get_trades_graph_for_address] names. *)
Record AMMSwap : Type := mkAMMSwap {
  tx_hash : string;
  log_index : Z;
  address : ChecksumEthAddress;
  from_address : ChecksumEthAddress;
  to_address : ChecksumEthAddress;
  timestamp : Timestamp;
  location : Location;
  token0 : EthereumToken;
  token1 : EthereumToken;
  amount0_in : FVal;
  amount1_in : FVal;
  amount0_out : FVal;
  amount1_out : FVal;
}.

Inductive TradeType : Type := BUY | SELL.

(** Modelled from the spec: [AMMTrade] is declared in
    [rotkehlchen/chain/ethereum/trades.py], which is not among the source
    files.  The spec's Trade has a direction, a base/quote pair and
    aggregate in/out amounts; the source reads its [swaps]. *)
Record AMMTrade : Type := mkAMMTrade {
  trade_type : TradeType;
  base_asset : EthereumToken;
  quote_asset : EthereumToken;
  amount_in : FVal;
  amount_out : FVal;
  swaps : list AMMSwap;
}.

(** Modelled from the spec: the members of the AMM [EventType] enum
    ([ammswap/typing.py]) are not among the source files; the spec has
    deposit-type (mint) and withdraw-type (burn) events. *)
Inductive EventType : Type := MINT | BURN.

Definition EventType_members : list EventType := [MINT; BURN].

(** Modelled from the spec: [LiquidityPoolEvent] is declared in
    [ammswap/typing.py]; the spec's events carry a transaction hash, an
    address, a timestamp, a pool and a value (amount and USD value at
    event time); the source reads [timestamp] and [log_index]. *)
Record LiquidityPoolEvent : Type := mkEvent {
  ev_tx_hash : string;
  ev_log_index : Z;
  ev_address : ChecksumEthAddress;
  ev_timestamp : Timestamp;
  ev_type : EventType;
  ev_pool_address : ChecksumEthAddress;
  ev_amount : FVal;
  ev_usd_value : FVal;
}.

(** Modelled from the spec: [ProfitLossResult], the per-pool result of
    the balance reconciler. *)
Record ProfitLossResult : Type := mkProfitLoss {
  pl_pool_address : ChecksumEthAddress;
  pl_profit_loss : Balance;
}.

Abbreviation AddressEvents := (gmap string (list LiquidityPoolEvent)).
Abbreviation AddressToLPBalances := (gmap string (list LiquidityPool)).
Abbreviation AddressEventsBalances := (gmap string (list ProfitLossResult)).
Abbreviation AddressTrades := (gmap string (list AMMTrade)).
Abbreviation AssetToPrice := (gmap string FVal).

(** *** The database handler *)

Record DBHandler : Type := mkDB {
  used_query_ranges : gmap string (Timestamp * Timestamp);
  sushiswap_events : list LiquidityPoolEvent;
  amm_swaps : list AMMSwap;
}.

Definition event_same_key (e1 e2 : LiquidityPoolEvent) : bool :=
  String.eqb (ev_tx_hash e1) (ev_tx_hash e2)
  && (ev_log_index e1 =? ev_log_index e2)
  && String.eqb (ev_pool_address e1) (ev_pool_address e2).

Definition token_eqb (t1 t2 : EthereumToken) : bool :=
  String.eqb (ethereum_address t1) (ethereum_address t2).

Definition swap_same_key (s1 s2 : AMMSwap) : bool :=
  String.eqb (tx_hash s1) (tx_hash s2)
  && (log_index s1 =? log_index s2)
  && token_eqb (token0 s1) (token0 s2)
  && token_eqb (token1 s1) (token1 s2).

(** Modelled from the spec: [DBHandler.get_used_query_range], the range
    store's [get_range(key) -> (start,end)?]. *)
Definition db_get_used_query_range (db : DBHandler) (name : string)
  : option (Timestamp * Timestamp) :=
  used_query_ranges db !! name.

(** Modelled from the spec: [DBHandler.update_used_query_range], the
    range store's [set_range(key, start, end)], which overwrites. *)
Definition db_update_used_query_range (name : string) (start_ts end_ts : Timestamp)
    (db : DBHandler) : DBHandler :=
  mkDB (<[name := (start_ts, end_ts)]> (used_query_ranges db))
       (sushiswap_events db) (amm_swaps db).

(** Modelled from the spec: [DBHandler.add_sushiswap_events], the event
    store's append-only [add(list)], idempotent under the uniqueness
    key. *)
Definition db_add_sushiswap_events (events : list LiquidityPoolEvent)
    (db : DBHandler) : DBHandler :=
  mkDB (used_query_ranges db)
       (foldl (fun stored e =>
                 if existsb (event_same_key e) stored then stored
                 else stored ++ [e])
              (sushiswap_events db) events)
       (amm_swaps db).

(** Modelled from the spec: [DBHandler.add_amm_swaps], same contract for
    swaps. *)
Definition db_add_amm_swaps (new_swaps : list AMMSwap) (db : DBHandler) : DBHandler :=
  mkDB (used_query_ranges db)
       (sushiswap_events db)
       (foldl (fun stored s =>
                 if existsb (swap_same_key s) stored then stored
                 else stored ++ [s])
              (amm_swaps db) new_swaps).

(** Modelled from the spec: [DBHandler.get_sushiswap_events], the event
    store's [get(address, from_ts, to_ts)]: the stored events of the
    address inside the inclusive window, in stored order. *)
Definition db_get_sushiswap_events (db : DBHandler)
    (from_ts to_ts : Timestamp) (addr : ChecksumEthAddress) : list LiquidityPoolEvent :=
  List.filter (fun e => String.eqb (ev_address e) addr
                        && (from_ts <=? ev_timestamp e)
                        && (ev_timestamp e <=? to_ts))
              (sushiswap_events db).

(** *** Calls that leave the process *)

Inductive GraphRequest : Type :=
| LiquidityPositionsQuery (limit offset : Z) (addresses : list string) (balance : string)
| SwapsQuery (limit offset : Z) (addr : string) (start_ts end_ts : Timestamp)
| TokenDayDatasQuery (limit offset : Z) (token_ids : list string) (datetime : Z).

Inductive Call : Type :=
| GraphQuery (request : GraphRequest)
| EventsGraphCall (addr : ChecksumEthAddress) (start_ts end_ts : Timestamp)
                  (event_type : EventType)
| TradesGraphCall (addresses : list ChecksumEthAddress) (start_ts end_ts : Timestamp)
| GetBalancesCall (addresses : list ChecksumEthAddress).

(** *** State and exception monad

    The state is everything a method can change that outlives it: the
    database, the requests sent so far and the messages handed to the
    message aggregator.  A raised exception keeps the state reached. *)

Record World : Type := mkWorld {
  database : DBHandler;
  calls : list Call;
  msg_errors : list string;
}.

Definition M (A : Type) : Type := World -> Result A * World.

Definition ret {A} (a : A) : M A := fun w => (inr a, w).

Definition raise {A} (e : Exception) : M A := fun w => (inl e, w).

Definition bind {A B} (m : M A) (f : A -> M B) : M B :=
  fun w => match m w with
           | (inl e, w') => (inl e, w')
           | (inr a, w') => f a w'
           end.

Notation "x <- m ;; k" := (bind m (fun x => k))
  (at level 100, m at next level, right associativity).
Notation "m ;;; k" := (bind m (fun _ => k))
  (at level 100, right associativity).

(** [try: m  except Exception as e: h e] *)
Definition try_except {A} (m : M A) (h : Exception -> M A) : M A :=
  fun w => match m w with
           | (inl e, w') => h e w'
           | r => r
           end.

Definition lift {A} (r : Result A) : M A := fun w => (r, w).

(** A [for] loop threading its accumulator. *)
Fixpoint for_each {A B} (f : B -> A -> M B) (l : list A) (b : B) : M B :=
  match l with
  | [] => ret b
  | x :: l' => b' <- f b x ;; for_each f l' b'
  end.

Definition get_used_query_range (name : string) : M (option (Timestamp * Timestamp)) :=
  fun w => (inr (db_get_used_query_range (database w) name), w).

Definition modify_db (f : DBHandler -> DBHandler) : M unit :=
  fun w => (inr tt, mkWorld (f (database w)) (calls w) (msg_errors w)).

Definition update_used_query_range (name : string) (start_ts end_ts : Timestamp) : M unit :=
  modify_db (db_update_used_query_range name start_ts end_ts).

Definition add_sushiswap_events (events : list LiquidityPoolEvent) : M unit :=
  modify_db (db_add_sushiswap_events events).

Definition add_amm_swaps (new_swaps : list AMMSwap) : M unit :=
  modify_db (db_add_amm_swaps new_swaps).

Definition get_sushiswap_events (from_ts to_ts : Timestamp) (addr : ChecksumEthAddress)
  : M (list LiquidityPoolEvent) :=
  fun w => (inr (db_get_sushiswap_events (database w) from_ts to_ts addr), w).

Definition record_call (c : Call) : M unit :=
  fun w => (inr tt, mkWorld (database w) (calls w ++ [c]) (msg_errors w)).

(** [self.msg_aggregator.add_error(...)] *)
Definition msg_aggregator_add_error (msg : string) : M unit :=
  fun w => (inr tt, mkWorld (database w) (calls w) (msg_errors w ++ [msg])).

(** A call to something outside the modelled code: the request is sent,
    then the answer comes back or the exception is raised. *)
Definition external {A} (c : Call) (answer : Result A) : M A :=
  record_call c ;;; lift answer.

(** *** Sorting as [list.sort(key=...)] does: stable. *)

Fixpoint insert_by {A} (le : A -> A -> bool) (x : A) (l : list A) : list A :=
  match l with
  | [] => [x]
  | y :: l' => if le x y then x :: y :: l' else y :: insert_by le x l'
  end.

Definition sort_by {A} (le : A -> A -> bool) (l : list A) : list A :=
  foldr (insert_by le) [] l.

(** [(e1.timestamp, e1.log_index) <= (e2.timestamp, e2.log_index)], the
    order of Python tuples. *)
Definition event_key_le (e1 e2 : LiquidityPoolEvent) : bool :=
  (ev_timestamp e1 <? ev_timestamp e2)
  || ((ev_timestamp e1 =? ev_timestamp e2) && (ev_log_index e1 <=? ev_log_index e2)).


Definition nonempty {A} (l : list A) : bool :=
  match l with [] => false | _ :: _ => true end.

(** *** Balance reconciler *)

Definition ZERO_BALANCE : Balance := mkBalance ZERO ZERO.

(** The live balance term of a pool: the user's balance in the snapshot,
    zero when the snapshot has no entry for the pool. *)
Definition snapshot_term (balances : list LiquidityPool) (pool : ChecksumEthAddress)
  : Balance :=
  match List.find (fun lp => String.eqb (pool_address lp) pool) balances with
  | Some lp => user_balance lp
  | None => ZERO_BALANCE
  end.

(** Withdraw-type events count positively, deposit-type negatively. *)
Definition signed (field : LiquidityPoolEvent -> FVal) (e : LiquidityPoolEvent) : FVal :=
  match ev_type e with
  | BURN => field e
  | MINT => Qopp (field e)
  end.

Definition events_net (field : LiquidityPoolEvent -> FVal) (pool : ChecksumEthAddress)
    (events : list LiquidityPoolEvent) : FVal :=
  foldl (fun total e =>
           if String.eqb (ev_pool_address e) pool
           then Qplus total (signed field e) else total)
        ZERO events.

(** Modelled from the spec: [_calculate_events_balances] is a method of
    the [AMMSwapPlatform] base class ([ammswap/ammswap.py]), not among
    the source files.  Per pool, profit_loss.amount = snapshot balance +
    sum of withdraw-type amounts - sum of deposit-type amounts, and
    profit_loss.usd_value the same over the events' USD values at event
    time; an unavailable snapshot contributes zero. *)
Definition _calculate_events_balances (addr : ChecksumEthAddress)
    (events : list LiquidityPoolEvent) (balances : list LiquidityPool)
  : list ProfitLossResult :=
  (fun pool =>
     mkProfitLoss pool
       (mkBalance
          (Qplus (amount (snapshot_term balances pool)) (events_net ev_amount pool events))
          (Qplus (usd_value (snapshot_term balances pool))
                 (events_net ev_usd_value pool events))))
  <$> remove_dups (ev_pool_address <$> events).

(** *** Swap grouper *)

(** Modelled from the spec: the direction of a leg, BUY if
    [amount1In > 0 and amount0Out > 0], SELL if
    [amount0In > 0 and amount1Out > 0], otherwise none.  The docstring of
    [_get_trades_graph_for_address] states the same rule. *)
Definition leg_direction (s : AMMSwap) : option TradeType :=
  if FVal_gt_zero (amount1_in s) && FVal_gt_zero (amount0_out s) then Some BUY
  else if FVal_gt_zero (amount0_in s) && FVal_gt_zero (amount1_out s) then Some SELL
  else None.

Definition TradeType_eqb (d1 d2 : TradeType) : bool :=
  match d1, d2 with
  | BUY, BUY | SELL, SELL => true
  | _, _ => false
  end.

(** A leg with its direction, or nothing for a leg with none (dropped). *)
Definition classify_leg (s : AMMSwap) : option (AMMSwap * TradeType) :=
  match leg_direction s with
  | Some d => Some (s, d)
  | None => None
  end.

(** The trade of one leg: token0 is the base, token1 the quote. *)
Definition leg_trade (s : AMMSwap) (d : TradeType) : AMMTrade :=
  match d with
  | BUY => mkAMMTrade BUY (token0 s) (token1 s) (amount1_in s) (amount0_out s) [s]
  | SELL => mkAMMTrade SELL (token0 s) (token1 s) (amount0_in s) (amount1_out s) [s]
  end.

Definition same_pool_and_direction (s : AMMSwap) (d : TradeType) (t : AMMTrade) : bool :=
  token_eqb (token0 s) (base_asset t) && token_eqb (token1 s) (quote_asset t)
  && TradeType_eqb d (trade_type t).

(** Consecutive legs of the same pool and direction are merged by
    summing their amounts; a change of pool or direction starts a new
    trade. *)
Fixpoint merge_legs (legs : list (AMMSwap * TradeType)) : list AMMTrade :=
  match legs with
  | [] => []
  | (s, d) :: rest =>
      match merge_legs rest with
      | t :: ts =>
          if same_pool_and_direction s d t
          then mkAMMTrade (trade_type t) (base_asset t) (quote_asset t)
                 (Qplus (amount_in (leg_trade s d)) (amount_in t))
                 (Qplus (amount_out (leg_trade s d)) (amount_out t))
                 (s :: swaps t) :: ts
          else leg_trade s d :: t :: ts
      | [] => [leg_trade s d]
      end
  end.

(** Modelled from the spec: [_tx_swaps_to_trades] is a method of the
    [AMMSwapPlatform] base class, not among the source files.  The
    spec's swap grouper orders the legs of a transaction by log index,
    gives each leg a direction and drops the legs that have none, then
    merges consecutive legs of the same pool and direction; no valid
    leg gives no trade. *)
Definition _tx_swaps_to_trades (tx_swaps : list AMMSwap) : list AMMTrade :=
  merge_legs
    (omap classify_leg
       (sort_by (fun s1 s2 => log_index s1 <=? log_index s2) tx_swaps)).

(** *** Incremental syncs *)

Definition AMMSwap_eqb (s1 s2 : AMMSwap) : bool :=
  String.eqb (tx_hash s1) (tx_hash s2)
  && (log_index s1 =? log_index s2)
  && String.eqb (address s1) (address s2)
  && String.eqb (from_address s1) (from_address s2)
  && String.eqb (to_address s1) (to_address s2)
  && (timestamp s1 =? timestamp s2)
  && token_eqb (token0 s1) (token0 s2)
  && token_eqb (token1 s1) (token1 s2)
  && FVal_eqb (amount0_in s1) (amount0_in s2)
  && FVal_eqb (amount1_in s1) (amount1_in s2)
  && FVal_eqb (amount0_out s1) (amount0_out s2)
  && FVal_eqb (amount1_out s1) (amount1_out s2).

(** [set.add]: the elements of a Python set, listed in the order they
    were first added. *)
Definition set_add {A} (eqb : A -> A -> bool) (s : list A) (x : A) : list A :=
  if existsb (eqb x) s then s else s ++ [x].

(** [defaultdict(list)[key].extend(items)] *)
Definition dd_extend {A} (key : string) (items : list A) (d : gmap string (list A))
  : gmap string (list A) :=
  <[key := default [] (d !! key) ++ items]> d.

Definition has_key {A} (d : gmap string A) (key : string) : bool :=
  match d !! key with Some _ => true | None => false end.

Section Sync.

(** Methods of the [AMMSwapPlatform] base class, which is not among the
    source files: what they answer is left open.  They are taken not to
    touch the used query ranges nor the stored events. *)
Variable _get_events_graph :
  ChecksumEthAddress -> Timestamp -> Timestamp -> EventType ->
  Result (list LiquidityPoolEvent).
Variable _get_trades_graph :
  list ChecksumEthAddress -> Timestamp -> Timestamp -> Result AddressTrades.
Variable _fetch_trades_from_db :
  DBHandler -> list ChecksumEthAddress -> Timestamp -> Timestamp -> AddressTrades.
(** [get_balances] prices the pools through modules outside these files;
    the sync only needs whether and with what it is called. *)
Variable get_balances : list ChecksumEthAddress -> Result AddressToLPBalances.

(** Lines 254-262 and 367-375: the body of the first loop of both syncs,
    which sorts the addresses into new and existing ones and lowers
    [min_end_ts]. *)
Definition classify_step (prefix : string)
    (st : list ChecksumEthAddress * list ChecksumEthAddress * Timestamp)
    (addr : ChecksumEthAddress)
  : M (list ChecksumEthAddress * list ChecksumEthAddress * Timestamp) :=
  let '(new_addresses, existing_addresses, min_end_ts) := st in
  events_range <- get_used_query_range (entry_name prefix addr) ;;
  match events_range with
  | None => ret (new_addresses ++ [addr], existing_addresses, min_end_ts)
  | Some r => ret (new_addresses, existing_addresses ++ [addr],
                   Z.min min_end_ts (snd r))
  end.

Definition classify_addresses (prefix : string) (addresses : list ChecksumEthAddress)
    (to_timestamp : Timestamp)
  : M (list ChecksumEthAddress * list ChecksumEthAddress * Timestamp) :=
  for_each (classify_step prefix) addresses ([], [], to_timestamp).

(** The body of [for event_type in EventType], lines 268-276 and
    288-296. *)
Definition fetch_event_type (start_ts to_timestamp : Timestamp)
    (addr : ChecksumEthAddress) (address_events : AddressEvents)
    (event_type : EventType) : M AddressEvents :=
  new_address_events <-
    external (EventsGraphCall addr start_ts to_timestamp event_type)
             (_get_events_graph addr start_ts to_timestamp event_type) ;;
  ret (if nonempty new_address_events
       then dd_extend addr new_address_events address_events
       else address_events).

(** The body of the loops at lines 267-283 ([start_ts = 0]) and 287-303
    ([start_ts = min_end_ts]): both event types are requested, then the
    range of the address is written. *)
Definition fetch_address_events (start_ts to_timestamp : Timestamp)
    (address_events : AddressEvents) (addr : ChecksumEthAddress) : M AddressEvents :=
  address_events' <-
    for_each (fetch_event_type start_ts to_timestamp addr)
             EventType_members address_events ;;
  update_used_query_range (entry_name SUSHISWAP_EVENTS_PREFIX addr)
                          start_ts to_timestamp ;;;
  ret address_events'.

(** Lines 253-303 of [_get_events_balances]. *)
Definition events_fetch_stage (addresses : list ChecksumEthAddress)
    (to_timestamp : Timestamp) : M AddressEvents :=
  st <- classify_addresses SUSHISWAP_EVENTS_PREFIX addresses to_timestamp ;;
  let '(new_addresses, existing_addresses, min_end_ts) := st in
  address_events <-
    (if nonempty new_addresses
     then for_each (fetch_address_events 0 to_timestamp) new_addresses ∅
     else ret ∅) ;;
  if nonempty existing_addresses && (min_end_ts <? to_timestamp)
  then for_each (fetch_address_events min_end_ts to_timestamp)
                existing_addresses address_events
  else ret address_events.

(** Lines 305-310. *)
Definition events_persist_stage (addresses : list ChecksumEthAddress)
    (address_events : AddressEvents) : M unit :=
  let all_events :=
    flat_map (fun addr => default [] (address_events !! addr))
             (List.filter (has_key address_events) addresses) in
  add_sushiswap_events all_events.

(** Lines 312-322. *)
Definition readback_step (from_timestamp to_timestamp : Timestamp)
    (db_address_events : AddressEvents) (addr : ChecksumEthAddress) : M AddressEvents :=
  db_events <- get_sushiswap_events from_timestamp to_timestamp addr ;;
  ret (if nonempty db_events
       then <[addr := sort_by event_key_le db_events]> db_address_events
       else db_address_events).

Definition events_readback_stage (addresses : list ChecksumEthAddress)
    (from_timestamp to_timestamp : Timestamp) : M AddressEvents :=
  for_each (readback_step from_timestamp to_timestamp) addresses ∅.

(** Lines 324-345. *)
Definition events_reconcile_stage (addresses : list ChecksumEthAddress)
    (from_timestamp : Timestamp) (db_address_events : AddressEvents)
  : M AddressEventsBalances :=
  address_balances <-
    (if from_timestamp =? 0
     then external (GetBalancesCall addresses) (get_balances addresses)
     else ret (∅ : AddressToLPBalances)) ;;
  ret (map_imap
         (fun addr events =>
            Some (_calculate_events_balances addr events
                    (default [] (address_balances !! addr))))
         db_address_events).

(** [Sushiswap._get_events_balances] *)
Definition _get_events_balances (addresses : list ChecksumEthAddress)
    (from_timestamp to_timestamp : Timestamp) : M AddressEventsBalances :=
  address_events <- events_fetch_stage addresses to_timestamp ;;
  events_persist_stage addresses address_events ;;;
  db_address_events <- events_readback_stage addresses from_timestamp to_timestamp ;;
  events_reconcile_stage addresses from_timestamp db_address_events.

Definition fetch_trades_from_db (addresses : list ChecksumEthAddress)
    (from_timestamp to_timestamp : Timestamp) : M AddressTrades :=
  fun w => (inr (_fetch_trades_from_db (database w) addresses
                   from_timestamp to_timestamp), w).

(** Lines 388-394 and 406-412: the ranges of a batch are written after
    its request came back. *)
Definition update_trades_range (start_ts to_timestamp : Timestamp)
    (_ : unit) (addr : ChecksumEthAddress) : M unit :=
  update_used_query_range (entry_name SUSHISWAP_TRADES_PREFIX addr)
                          start_ts to_timestamp.

Definition update_trades_ranges (start_ts to_timestamp : Timestamp)
    (batch : list ChecksumEthAddress) : M unit :=
  for_each (update_trades_range start_ts to_timestamp) batch tt.

(** One batch of lines 377-412: request, [dict.update], ranges. *)
Definition fetch_trades_batch (start_ts to_timestamp : Timestamp)
    (batch : list ChecksumEthAddress) (address_amm_trades : AddressTrades)
  : M AddressTrades :=
  batch_trades <-
    external (TradesGraphCall batch start_ts to_timestamp)
             (_get_trades_graph batch start_ts to_timestamp) ;;
  update_trades_ranges start_ts to_timestamp batch ;;;
  ret (batch_trades ∪ address_amm_trades).

(** Lines 366-412 of [_get_trades]. *)
Definition trades_fetch_stage (addresses : list ChecksumEthAddress)
    (to_timestamp : Timestamp) : M AddressTrades :=
  st <- classify_addresses SUSHISWAP_TRADES_PREFIX addresses to_timestamp ;;
  let '(new_addresses, existing_addresses, min_end_ts) := st in
  address_amm_trades <-
    (if nonempty new_addresses
     then fetch_trades_batch 0 to_timestamp new_addresses ∅
     else ret ∅) ;;
  if nonempty existing_addresses && (min_end_ts <? to_timestamp)
  then fetch_trades_batch min_end_ts to_timestamp existing_addresses address_amm_trades
  else ret address_amm_trades.

(** Lines 414-421. *)
Definition trades_persist_stage (addresses : list ChecksumEthAddress)
    (address_amm_trades : AddressTrades) : M unit :=
  let all_swaps :=
    foldl (set_add AMMSwap_eqb) []
          (flat_map (fun addr =>
                       flat_map swaps (default [] (address_amm_trades !! addr)))
                    (List.filter (has_key address_amm_trades) addresses)) in
  add_amm_swaps all_swaps.

(** [Sushiswap._get_trades] *)
Definition _get_trades (addresses : list ChecksumEthAddress)
    (from_timestamp to_timestamp : Timestamp) (only_cache : bool) : M AddressTrades :=
  if only_cache
  then fetch_trades_from_db addresses from_timestamp to_timestamp
  else
    address_amm_trades <- trades_fetch_stage addresses to_timestamp ;;
    trades_persist_stage addresses address_amm_trades ;;;
    fetch_trades_from_db addresses from_timestamp to_timestamp.

(** *** What a sync is expected to do, read off the world before it *)

Definition stored_range (w : World) (prefix : string) (addr : ChecksumEthAddress)
  : option (Timestamp * Timestamp) :=
  used_query_ranges (database w) !! entry_name prefix addr.

Definition is_new (w : World) (prefix : string) (addr : ChecksumEthAddress) : bool :=
  match stored_range w prefix addr with None => true | Some _ => false end.

Definition new_addresses_of (w : World) (prefix : string)
    (addresses : list ChecksumEthAddress) : list ChecksumEthAddress :=
  List.filter (is_new w prefix) addresses.

Definition existing_addresses_of (w : World) (prefix : string)
    (addresses : list ChecksumEthAddress) : list ChecksumEthAddress :=
  List.filter (fun a => negb (is_new w prefix a)) addresses.

(** The stored range ends of the addresses that have a stored range. *)
Definition stored_ends (w : World) (prefix : string)
    (addresses : list ChecksumEthAddress) : list Timestamp :=
  omap (fun a => snd <$> stored_range w prefix a) addresses.

(** [m] is the minimum of the non-empty list [l]. *)
Definition is_minimum (m : Z) (l : list Z) : Prop :=
  m ∈ l /\ Forall (Z.le m) l.

(** The value of [min_end_ts] after the first loop. *)
Definition min_end_ts_of (w : World) (prefix : string)
    (addresses : list ChecksumEthAddress) (to_timestamp : Timestamp) : Timestamp :=
  foldl Z.min to_timestamp (stored_ends w prefix addresses).

(** Whether the shared delta fetch runs. *)
Definition delta_runs (w : World) (prefix : string)
    (addresses : list ChecksumEthAddress) (to_timestamp : Timestamp) : bool :=
  nonempty (existing_addresses_of w prefix addresses)
  && (min_end_ts_of w prefix addresses to_timestamp <? to_timestamp).

(** The event fetches of a sync in the order they are made: each address
    with the start of its window. *)
Definition events_plan (w : World) (addresses : list ChecksumEthAddress)
    (to_timestamp : Timestamp) : list (ChecksumEthAddress * Timestamp) :=
  ((fun a => (a, 0)) <$> new_addresses_of w SUSHISWAP_EVENTS_PREFIX addresses)
  ++ (if delta_runs w SUSHISWAP_EVENTS_PREFIX addresses to_timestamp
      then (fun a => (a, min_end_ts_of w SUSHISWAP_EVENTS_PREFIX addresses to_timestamp))
             <$> existing_addresses_of w SUSHISWAP_EVENTS_PREFIX addresses
      else []).

(** The trade fetches of a sync in order: each batch with the start of
    its window. *)
Definition trades_plan (w : World) (addresses : list ChecksumEthAddress)
    (to_timestamp : Timestamp) : list (list ChecksumEthAddress * Timestamp) :=
  (if nonempty (new_addresses_of w SUSHISWAP_TRADES_PREFIX addresses)
   then [(new_addresses_of w SUSHISWAP_TRADES_PREFIX addresses, 0)] else [])
  ++ (if delta_runs w SUSHISWAP_TRADES_PREFIX addresses to_timestamp
      then [(existing_addresses_of w SUSHISWAP_TRADES_PREFIX addresses,
             min_end_ts_of w SUSHISWAP_TRADES_PREFIX addresses to_timestamp)]
      else []).

Definition is_ok {A} (r : Result A) : bool :=
  match r with inr _ => true | inl _ => false end.

(** The fetch of an address returns: neither event type's request raises. *)
Definition events_fetch_ok (to_timestamp : Timestamp)
    (p : ChecksumEthAddress * Timestamp) : bool :=
  forallb (fun event_type => is_ok (_get_events_graph (fst p) (snd p) to_timestamp event_type))
          EventType_members.

Definition trades_fetch_ok (to_timestamp : Timestamp)
    (p : list ChecksumEthAddress * Timestamp) : bool :=
  is_ok (_get_trades_graph (fst p) (snd p) to_timestamp).

Definition events_plan_calls (to_timestamp : Timestamp)
    (plan : list (ChecksumEthAddress * Timestamp)) : list Call :=
  flat_map (fun p => (fun event_type => EventsGraphCall (fst p) (snd p) to_timestamp event_type)
                       <$> EventType_members) plan.

Definition trades_plan_calls (to_timestamp : Timestamp)
    (plan : list (list ChecksumEthAddress * Timestamp)) : list Call :=
  (fun p => TradesGraphCall (fst p) (snd p) to_timestamp) <$> plan.

(** The longest prefix of fetches that return. *)
Fixpoint take_while {A} (ok : A -> bool) (l : list A) : list A :=
  match l with
  | [] => []
  | x :: l' => if ok x then x :: take_while ok l' else []
  end.

(** The used query ranges after the given fetches have returned: each
    writes [(start, to_timestamp)] under the entry name of its address. *)
Definition write_ranges (prefix : string) (to_timestamp : Timestamp)
    (done : list (ChecksumEthAddress * Timestamp))
    (ranges : gmap string (Timestamp * Timestamp)) : gmap string (Timestamp * Timestamp) :=
  foldl (fun r p => <[entry_name prefix (fst p) := (snd p, to_timestamp)]> r)
        ranges done.

Definition batch_entries (p : list ChecksumEthAddress * Timestamp)
  : list (ChecksumEthAddress * Timestamp) :=
  (fun a => (a, snd p)) <$> fst p.

Definition ranges_after_events (to_timestamp : Timestamp)
    (done : list (ChecksumEthAddress * Timestamp))
    (ranges : gmap string (Timestamp * Timestamp)) : gmap string (Timestamp * Timestamp) :=
  write_ranges SUSHISWAP_EVENTS_PREFIX to_timestamp done ranges.

Definition ranges_after_trades (to_timestamp : Timestamp)
    (done : list (list ChecksumEthAddress * Timestamp))
    (ranges : gmap string (Timestamp * Timestamp)) : gmap string (Timestamp * Timestamp) :=
  write_ranges SUSHISWAP_TRADES_PREFIX to_timestamp (flat_map batch_entries done) ranges.

(** One planned fetch, as the loops of the fetch stage run it. *)
Definition fetch_planned (to : Timestamp) (acc : AddressEvents)
    (p : ChecksumEthAddress * Timestamp) : M AddressEvents :=
  fetch_address_events (snd p) to acc (fst p).

Definition trades_planned (to : Timestamp) (acc : AddressTrades)
    (p : list ChecksumEthAddress * Timestamp) : M AddressTrades :=
  fetch_trades_batch (snd p) to (fst p) acc.

End Sync.

(** The world after a fetch stage: only the used query ranges and the
    list of calls differ. *)
Definition after_fetch (w : World) (ranges : gmap string (Timestamp * Timestamp))
    (logged : list Call) : World :=
  mkWorld (mkDB ranges (sushiswap_events (database w)) (amm_swaps (database w)))
          (calls w ++ logged) (msg_errors w).

(** The entries of a plan, for either kind of sync. *)
Definition plan_entries (w : World) (prefix : string)
    (addresses : list ChecksumEthAddress) (to : Timestamp)
  : list (ChecksumEthAddress * Timestamp) :=
  ((fun a => (a, 0)) <$> new_addresses_of w prefix addresses)
  ++ (if delta_runs w prefix addresses to
      then (fun a => (a, min_end_ts_of w prefix addresses to))
             <$> existing_addresses_of w prefix addresses
      else []).

(** [(e1.timestamp, e1.log_index) <= (e2.timestamp, e2.log_index)] on
    pairs, as a proposition. *)
Definition event_key_le_prop (e1 e2 : LiquidityPoolEvent) : Prop :=
  ev_timestamp e1 < ev_timestamp e2
  \/ (ev_timestamp e1 = ev_timestamp e2 /\ ev_log_index e1 <= ev_log_index e2).

(** The map built by the read-back loop, as a function of the database. *)
Definition readback_of (db : DBHandler) (addresses : list ChecksumEthAddress)
    (from_timestamp to_timestamp : Timestamp) : AddressEvents :=
  foldl (fun acc a =>
           if nonempty (db_get_sushiswap_events db from_timestamp to_timestamp a)
           then <[a := sort_by event_key_le
                         (db_get_sushiswap_events db from_timestamp to_timestamp a)]> acc
           else acc)
        ∅ addresses.

(** The events handed to [add_sushiswap_events]. *)
Definition all_events_of (addresses : list ChecksumEthAddress)
    (address_events : AddressEvents) : list LiquidityPoolEvent :=
  flat_map (fun addr => default [] (address_events !! addr))
           (List.filter (has_key address_events) addresses).

(** The swaps handed to [add_amm_swaps]. *)
Definition all_swaps_of (addresses : list ChecksumEthAddress)
    (address_amm_trades : AddressTrades) : list AMMSwap :=
  foldl (set_add AMMSwap_eqb) []
        (flat_map (fun addr => flat_map swaps (default [] (address_amm_trades !! addr)))
                  (List.filter (has_key address_amm_trades) addresses)).

Definition is_GetBalancesCall (c : Call) : bool :=
  match c with GetBalancesCall _ => true | _ => false end.


(** *** Paginated subgraph queries *)

(** Decoded JSON of the subgraph.  Fields the schema types as integers
    are [Z]; addresses and decimal amounts stay strings until the code
    deserializes them. *)
Record RawToken : Type := mkRawToken {
  tok_id : string;
  tok_symbol : string;
  tok_name : string;
  tok_decimals : Z;
}.

Record RawPair : Type := mkRawPair {
  pair_id : string;
  pair_totalSupply : string;
  pair_reserve0 : string;
  pair_reserve1 : string;
  pair_token0 : RawToken;
  pair_token1 : RawToken;
}.

Record RawLiquidityPosition : Type := mkRawLP {
  lp_user_id : string;
  lp_liquidityTokenBalance : string;
  lp_pair : RawPair;
}.

Record RawSwap : Type := mkRawSwap {
  swap_id : string;
  swap_logIndex : Z;
  swap_timestamp : Z;
  swap_sender : string;
  swap_to : string;
  swap_token0 : RawToken;
  swap_token1 : RawToken;
  swap_amount0In : string;
  swap_amount1In : string;
  swap_amount0Out : string;
  swap_amount1Out : string;
}.

(** An element of [result['swaps']]; only [entry['transaction']['swaps']]
    is read. *)
Record RawSwapEntry : Type := mkRawSwapEntry {
  transaction_swaps : list RawSwap;
}.

Record RawTokenDayData : Type := mkRawTDD {
  tdd_token_id : string;
  tdd_priceUSD : string;
}.

Record ProtocolBalance : Type := mkProtocolBalance {
  address_balances : AddressToLPBalances;
  known_assets : list EthereumToken;
  unknown_assets : list EthereumToken;
}.

(** [str.lower] on ASCII letters. *)
Definition ascii_lower (c : ascii) : ascii :=
  let n := nat_of_ascii c in
  if (65 <=? n)%nat && (n <=? 90)%nat then ascii_of_nat (n + 32) else c.

Fixpoint lower (s : string) : string :=
  match s with
  | EmptyString => EmptyString
  | String c s' => String (ascii_lower c) (lower s')
  end.

(** [s.split('-')[0]] *)
Fixpoint before_dash (s : string) : string :=
  match s with
  | EmptyString => EmptyString
  | String c s' => if Ascii.eqb c "-"%char then EmptyString else String c (before_dash s')
  end.

Section Graph.

(** The page size, a constant of [rotkehlchen.chain.ethereum.graph]. *)
Variable GRAPH_QUERY_LIMIT : Z.

(** [self.graph.query(...)] followed by the subscript of the result, one
    per query template; [inl msg] stands for a raised [RemoteError]. *)
Variable query_liquidityPositions : GraphRequest -> string + list RawLiquidityPosition.
Variable query_swaps : GraphRequest -> string + list RawSwapEntry.
Variable query_tokenDayDatas : GraphRequest -> string + list RawTokenDayData.

(** Helpers of other modules; [None] stands for the exception the code
    catches ([DeserializationError], [ValueError]). *)
Variable deserialize_ethereum_address : string -> option ChecksumEthAddress.
Variable FVal_of_str : string -> option FVal.
Variable get_or_create_ethereum_token :
  string (* symbol *) -> ChecksumEthAddress -> string (* name *) -> Z (* decimals *) ->
  EthereumToken.
Variable has_oracle : EthereumToken -> bool.
(** Midnight of the current UTC day. *)
Variable today_epoch : Z.

Definition graph_query {A} (oracle : GraphRequest -> string + list A)
    (request : GraphRequest) : M (list A) :=
  external (GraphQuery request)
           (match oracle request with
            | inl msg => inl (RemoteError msg)
            | inr result => inr result
            end).

(** The [FVal(...)] constructor outside a [try]. *)
Definition FVal_ctor (s : string) : Result FVal :=
  match FVal_of_str s with
  | Some v => inr v
  | None => inl (ValueError s)
  end.

(** Lines 147-181, the body of [for token in token0, token1]. *)
Definition lp_token (lp_total_supply user_lp_balance : FVal)
    (st : list EthereumToken * list EthereumToken * list LiquidityPoolAsset)
    (tok : RawToken * string)
  : Result (list EthereumToken * list EthereumToken * list LiquidityPoolAsset) :=
  let '(known, unknown, liquidity_pool_assets) := st in
  let '(token, token_total_amount) := tok in
  match deserialize_ethereum_address (tok_id token) with
  | None =>
      inl (RemoteError ("Failed to deserialize token address " +:+ tok_id token
                        +:+ "Bad token address in lp pair came from the graph."))
  | Some deserialized_eth_address =>
      let asset := get_or_create_ethereum_token (tok_symbol token)
                     deserialized_eth_address (tok_name token) (tok_decimals token) in
      let known' := if has_oracle asset then set_add token_eqb known asset else known in
      let unknown' := if has_oracle asset then unknown
                      else set_add token_eqb unknown asset in
      res_bind (FVal_ctor token_total_amount) (fun asset_total_amount =>
        if FVal_eqb lp_total_supply ZERO then inl ArithmeticError
        else
          let user_asset_balance :=
            Qmult (Qdiv user_lp_balance lp_total_supply) asset_total_amount in
          inr (known', unknown',
               liquidity_pool_assets
                 ++ [mkLiquidityPoolAsset asset asset_total_amount
                       (mkBalance user_asset_balance ZERO)]))
  end.

(** Lines 124-189, the body of [for lp in result_data]. *)
Definition process_liquidity_position (acc : ProtocolBalance)
    (lp : RawLiquidityPosition) : Result ProtocolBalance :=
  let pair := lp_pair lp in
  res_bind (FVal_ctor (pair_totalSupply pair)) (fun lp_total_supply =>
  res_bind (FVal_ctor (lp_liquidityTokenBalance lp)) (fun user_lp_balance =>
    match deserialize_ethereum_address (lp_user_id lp),
          deserialize_ethereum_address (pair_id pair) with
    | Some user_address, Some lp_address =>
        res_bind
          (res_fold (lp_token lp_total_supply user_lp_balance)
             [(pair_token0 pair, pair_reserve0 pair);
              (pair_token1 pair, pair_reserve1 pair)]
             (known_assets acc, unknown_assets acc, []))
          (fun st =>
             let '(known, unknown, liquidity_pool_assets) := st in
             let liquidity_pool :=
               mkLiquidityPool lp_address liquidity_pool_assets lp_total_supply
                 (mkBalance user_lp_balance ZERO) in
             inr (mkProtocolBalance
                    (dd_extend user_address [liquidity_pool] (address_balances acc))
                    known unknown))
    | _, _ =>
        inl (RemoteError ("Failed to Deserialize address. Skipping pool "
                          +:+ pair_id pair +:+ "with user address " +:+ lp_user_id lp))
    end)).

(** [except RemoteError as e: add_error(...); raise] *)
Definition report_and_reraise {A} (e : Exception) : M A :=
  match e with
  | RemoteError msg => msg_aggregator_add_error msg ;;; raise e
  | _ => raise e
  end.

(** The [while True] loop of [_get_balances_graph], lines 111-199.
    [None] is only returned when the fuel runs out before the loop
    breaks. *)
Fixpoint _get_balances_graph_loop (fuel : nat) (addresses_lower : list string)
    (offset : Z) (acc : ProtocolBalance) : M (option ProtocolBalance) :=
  match fuel with
  | O => ret None
  | S fuel' =>
      result_data <-
        try_except
          (graph_query query_liquidityPositions
             (LiquidityPositionsQuery GRAPH_QUERY_LIMIT offset addresses_lower "0"))
          report_and_reraise ;;
      acc' <- lift (res_fold process_liquidity_position result_data acc) ;;
      if Z.of_nat (length result_data) <? GRAPH_QUERY_LIMIT
      then ret (Some acc')
      else _get_balances_graph_loop fuel' addresses_lower
             (offset + GRAPH_QUERY_LIMIT) acc'
  end.

(** [Sushiswap._get_balances_graph] *)
Definition _get_balances_graph (fuel : nat) (addresses : list ChecksumEthAddress)
  : M (option ProtocolBalance) :=
  _get_balances_graph_loop fuel (lower <$> addresses) 0
    (mkProtocolBalance ∅ [] []).

(** Lines 478-538: one raw swap becomes an [AMMSwap], or is skipped by
    one of the two [continue]s. *)
Definition swap_of_raw (addr : ChecksumEthAddress) (swap : RawSwap) : option AMMSwap :=
  match deserialize_ethereum_address (tok_id (swap_token0 swap)),
        deserialize_ethereum_address (tok_id (swap_token1 swap)),
        deserialize_ethereum_address (swap_sender swap),
        deserialize_ethereum_address (swap_to swap) with
  | Some token0_deserialized, Some token1_deserialized,
    Some from_address_deserialized, Some to_address_deserialized =>
      let token0 := get_or_create_ethereum_token (tok_symbol (swap_token0 swap))
                      token0_deserialized (tok_name (swap_token0 swap))
                      (tok_decimals (swap_token0 swap)) in
      let token1 := get_or_create_ethereum_token (tok_symbol (swap_token1 swap))
                      token1_deserialized (tok_name (swap_token1 swap))
                      (tok_decimals (swap_token1 swap)) in
      match FVal_of_str (swap_amount0In swap), FVal_of_str (swap_amount1In swap),
            FVal_of_str (swap_amount0Out swap), FVal_of_str (swap_amount1Out swap) with
      | Some amount0_in, Some amount1_in, Some amount0_out, Some amount1_out =>
          Some (mkAMMSwap (before_dash (swap_id swap)) (swap_logIndex swap) addr
                  from_address_deserialized to_address_deserialized
                  (swap_timestamp swap) SUSHISWAP token0 token1
                  amount0_in amount1_in amount0_out amount1_out)
      | _, _, _, _ => None
      end
  | _, _, _, _ => None
  end.

(** Lines 476-546, the body of [for entry in result['swaps']]. *)
Definition process_swap_entry (addr : ChecksumEthAddress) (trades : list AMMTrade)
    (entry : RawSwapEntry) : list AMMTrade :=
  let tx_swaps := omap (swap_of_raw addr) (transaction_swaps entry) in
  if (length tx_swaps =? 0)%nat then trades
  else trades ++ _tx_swaps_to_trades tx_swaps.

(** The [while True] loop of [_get_trades_graph_for_address], lines
    465-556; a [RemoteError] of the query leaves the loop by [break]. *)
Fixpoint _get_trades_graph_for_address_loop (fuel : nat) (addr : ChecksumEthAddress)
    (start_ts end_ts : Timestamp) (offset : Z) (trades : list AMMTrade)
  : M (option (list AMMTrade)) :=
  match fuel with
  | O => ret None
  | S fuel' =>
      result <-
        try_except
          (result_swaps <-
             graph_query query_swaps
               (SwapsQuery GRAPH_QUERY_LIMIT offset (lower addr) start_ts end_ts) ;;
           ret (Some result_swaps))
          (fun e =>
             match e with
             | RemoteError msg => msg_aggregator_add_error msg ;;; ret None
             | _ => raise e
             end) ;;
      match result with
      | None => ret (Some trades)
      | Some result_swaps =>
          let trades' := foldl (process_swap_entry addr) trades result_swaps in
          if Z.of_nat (length result_swaps) <? GRAPH_QUERY_LIMIT
          then ret (Some trades')
          else _get_trades_graph_for_address_loop fuel' addr start_ts end_ts
                 (offset + GRAPH_QUERY_LIMIT) trades'
      end
  end.

(** [Sushiswap._get_trades_graph_for_address] *)
Definition _get_trades_graph_for_address (fuel : nat) (addr : ChecksumEthAddress)
    (start_ts end_ts : Timestamp) : M (option (list AMMTrade)) :=
  _get_trades_graph_for_address_loop fuel addr start_ts end_ts 0 [].

(** Lines 602-612, the body of [for tdd in result_data]. *)
Definition process_token_day_data (asset_price : AssetToPrice) (tdd : RawTokenDayData)
  : Result AssetToPrice :=
  match deserialize_ethereum_address (tdd_token_id tdd) with
  | None =>
      inl (RemoteError ("Error deserializing address " +:+ tdd_token_id tdd
                        +:+ " during sushiswap prices query from graph."))
  | Some token_address =>
      res_bind (FVal_ctor (tdd_priceUSD tdd)) (fun price =>
        inr (<[token_address := price]> asset_price))
  end.

(** The [while True] loop of [_get_unknown_asset_price_graph], lines
    589-622. *)
Fixpoint _get_unknown_asset_price_graph_loop (fuel : nat) (token_ids : list string)
    (offset : Z) (asset_price : AssetToPrice) : M (option AssetToPrice) :=
  match fuel with
  | O => ret None
  | S fuel' =>
      result_data <-
        try_except
          (graph_query query_tokenDayDatas
             (TokenDayDatasQuery GRAPH_QUERY_LIMIT offset token_ids today_epoch))
          report_and_reraise ;;
      asset_price' <- lift (res_fold process_token_day_data result_data asset_price) ;;
      if Z.of_nat (length result_data) <? GRAPH_QUERY_LIMIT
      then ret (Some asset_price')
      else _get_unknown_asset_price_graph_loop fuel' token_ids
             (offset + GRAPH_QUERY_LIMIT) asset_price'
  end.

(** [Sushiswap._get_unknown_asset_price_graph] *)
Definition _get_unknown_asset_price_graph (fuel : nat)
    (unknown_assets : list EthereumToken) : M (option AssetToPrice) :=
  _get_unknown_asset_price_graph_loop fuel
    ((fun a => lower (ethereum_address a)) <$> unknown_assets) 0 ∅.

(** The requests of the three loops at a given offset. *)
Definition balances_request (addresses_lower : list string) (offset : Z) : GraphRequest :=
  LiquidityPositionsQuery GRAPH_QUERY_LIMIT offset addresses_lower "0".
Definition swaps_request (addr : string) (start_ts end_ts : Timestamp) (offset : Z)
  : GraphRequest :=
  SwapsQuery GRAPH_QUERY_LIMIT offset (lower addr) start_ts end_ts.
Definition prices_request (token_ids : list string) (offset : Z) : GraphRequest :=
  TokenDayDatasQuery GRAPH_QUERY_LIMIT offset token_ids today_epoch.

End Graph.

(** *** The remote as a list of records, and the common shape of the loops *)

(** The page a remote holding the records [rs] answers to [limit] and
    [offset]. *)
Definition page_of {A} (rs : list A) (limit offset : Z) : list A :=
  take (Z.to_nat limit) (drop (Z.to_nat offset) rs).

(** The offsets [0, L, 2L, ...] of the first [count] pages. *)
Definition page_offsets (L : Z) (count : nat) : list Z :=
  (fun i => Z.of_nat i * L) <$> seq 0 count.

(** The pages a remote holding [rs] serves until the short one. *)
Definition pages_of {A} (rs : list A) (L : Z) : list (list A) :=
  page_of rs L <$> page_offsets L (S (length rs / Z.to_nat L)).

(** [ceil(n / L)] *)
Definition ceil_div (n L : Z) : Z := (n + L - 1) / L.

Section Paginate.

Context {A Acc : Type}.
Variable request : Z -> GraphRequest.
Variable oracle : GraphRequest -> string + list A.
(** [true]: a [RemoteError] is re-raised; [false]: the loop breaks. *)
Variable strict : bool.
Variable process : Acc -> list A -> Result Acc.
Variable L : Z.

(** The three [while True] loops, with the monad unfolded: request the
    page at [offset]; on a [RemoteError] tell the message aggregator,
    then raise or break; otherwise process the page, stop after a short
    page, go on at [offset + L] after a full one. *)
Fixpoint paginate (fuel : nat) (offset : Z) (acc : Acc) (w : World)
  : Result (option Acc) * World :=
  match fuel with
  | O => (inr None, w)
  | S fuel' =>
      let w1 := mkWorld (database w) (calls w ++ [GraphQuery (request offset)])
                        (msg_errors w) in
      match oracle (request offset) with
      | inl msg =>
          let w2 := mkWorld (database w1) (calls w1) (msg_errors w1 ++ [msg]) in
          if strict then (inl (RemoteError msg), w2) else (inr (Some acc), w2)
      | inr page =>
          match process acc page with
          | inl e => (inl e, w1)
          | inr acc' =>
              if Z.of_nat (length page) <? L then (inr (Some acc'), w1)
              else paginate fuel' (offset + L) acc' w1
          end
      end
  end.

End Paginate.

(** The world after a paginated query: only the calls and the messages
    differ. *)
Definition after_queries (w : World) (requests : list GraphRequest)
    (messages : list string) : World :=
  mkWorld (database w) (calls w ++ (GraphQuery <$> requests))
          (msg_errors w ++ messages).


End Sushiswap.

(** ** Sample data *)

Module Samples.
Import Sushiswap.

Definition empty_world : World := mkWorld (mkDB ∅ [] []) [] [].

Definition event_A : LiquidityPoolEvent :=
  mkEvent "0xaa" 3 "A" 500 MINT "0xpool" (5 # 1) (10 # 1).

Definition event_A_later : LiquidityPoolEvent :=
  mkEvent "0xab" 1 "A" 900 BURN "0xpool" (2 # 1) (6 # 1).

Definition event_A_same_time : LiquidityPoolEvent :=
  mkEvent "0xac" 1 "A" 500 MINT "0xpool" (1 # 1) (2 # 1).

(** The subgraph answers for every address but "B". *)
Definition graph_down_for_B (addr : string) (start_ts end_ts : Z) (event_type : EventType)
  : Result (list LiquidityPoolEvent) :=
  if String.eqb addr "B" then inl (RemoteError "subgraph timeout")
  else match event_type with
       | MINT => inr [event_A]
       | BURN => inr []
       end.

Definition no_events (addr : string) (start_ts end_ts : Z) (event_type : EventType)
  : Result (list LiquidityPoolEvent) := inr [].

Definition no_trades (addresses : list string) (start_ts end_ts : Z)
  : Result AddressTrades := inr ∅.

Definition no_db_trades (db : DBHandler) (addresses : list string)
    (from_ts to_ts : Z) : AddressTrades := ∅.

Definition no_balances (addresses : list string) : Result AddressToLPBalances := inr ∅.

(** "A" was synced up to 1000, for events and for trades. *)
Definition world_A_synced : World :=
  mkWorld (mkDB (<["sushiswap_events_A" := (0, 1000)]>
                   (<["sushiswap_trades_A" := (0, 1000)]> ∅))
                [event_A_later; event_A; event_A_same_time] [])
          [] [].

(** "A" was synced up to 1000 and "B" up to 3000. *)
Definition world_AB_synced : World :=
  mkWorld (mkDB (<["sushiswap_events_A" := (0, 1000)]>
                   (<["sushiswap_events_B" := (0, 3000)]> ∅))
                [] [])
          [] [].

(** Subgraph helpers for the samples: an empty string is no address,
    and only a few decimal strings are understood. *)
Definition sample_deserialize (s : string) : option string :=
  if String.eqb s "" then None else Some s.

Definition sample_FVal_of_str (s : string) : option Q :=
  if String.eqb s "0" then Some (0 # 1)
  else if String.eqb s "1.5" then Some (3 # 2)
  else if String.eqb s "2" then Some (2 # 1)
  else None.

Definition sample_token (symbol : string) (addr : string) (name : string) (decimals : Z)
  : EthereumToken := mkToken addr symbol name decimals.

Definition raw_token0 : RawToken := mkRawToken "0xt0" "T0" "Token0" 18.
Definition raw_token1 : RawToken := mkRawToken "0xt1" "T1" "Token1" 18.

(** A swap of token1 in for token0 out: a BUY. *)
Definition raw_buy (n : Z) : RawSwap :=
  mkRawSwap "0xtx-0" n 100 "0xsender" "0xto" raw_token0 raw_token1 "0" "2" "1.5" "0".

(** A swap with no amount at all: no direction. *)
Definition raw_idle (n : Z) : RawSwap :=
  mkRawSwap "0xtx-1" n 100 "0xsender" "0xto" raw_token0 raw_token1 "0" "0" "0" "0".

(** A swap whose sender is not an address. *)
Definition raw_bad_sender (n : Z) : RawSwap :=
  mkRawSwap "0xtx-2" n 100 "" "0xto" raw_token0 raw_token1 "0" "2" "1.5" "0".

Definition five_entries : list RawSwapEntry :=
  [ mkRawSwapEntry [raw_buy 1];
    mkRawSwapEntry [raw_buy 2; raw_buy 3];
    mkRawSwapEntry [raw_idle 4];
    mkRawSwapEntry [raw_bad_sender 5];
    mkRawSwapEntry [raw_buy 6] ].

(** A remote that holds [five_entries] and serves them by offset and
    limit. *)
Definition swaps_remote (request : GraphRequest) : string + list RawSwapEntry :=
  match request with
  | SwapsQuery limit offset _ _ _ => inr (page_of five_entries limit offset)
  | _ => inr []
  end.

(** A remote that serves the first two of [five_entries] and then fails. *)
Definition swaps_remote_failing (request : GraphRequest) : string + list RawSwapEntry :=
  match request with
  | SwapsQuery limit offset _ _ _ =>
      if offset =? 0 then inr (take 2 five_entries) else inl "subgraph timeout"
  | _ => inr []
  end.


Definition positions_remote_failing (request : GraphRequest)
  : string + list RawLiquidityPosition := inl "subgraph timeout".


End Samples.

(** ** AdEx API dictionaries ([adex/typing.py], the [serialize] methods) *)

Module AdexSerialize.
Import Adex.

(** A value of a serialized dictionary. *)
#[warnings="-register-all"] Inductive PyValue : Type :=
| PStr (s : string)
| PInt (n : Z)
| PNone
| PDict (d : list (string * PyValue))
| PList (l : list PyValue).

(** A [dict] literal, in the order its keys are written. *)
Abbreviation PyDict := (list (string * PyValue)).

(** [d[key]], [None] standing for [KeyError]. *)
Fixpoint dict_get (d : PyDict) (key : string) : option PyValue :=
  match d with
  | [] => None
  | (k, v) :: d' => if String.eqb k key then Some v else dict_get d' key
  end.

Definition dict_keys (d : PyDict) : list string := fst <$> d.

Definition TOM_POOL_ID : string :=
  "0x2ce0c96383fb229d9776f33846e983a956a7d95844fac57b180ed0071d93bb28".

Definition POOL_ID_POOL_NAME : gmap string string := {[ TOM_POOL_ID := "Tom" ]}.

(** [POOL_ID_POOL_NAME.get(pool_id, None)] *)
Definition pool_name_of (pool_id : string) : PyValue :=
  match POOL_ID_POOL_NAME !! pool_id with
  | Some pool_name => PStr pool_name
  | None => PNone
  end.

Record ADXStakingBalance : Type := mkADXStakingBalance {
  sb_pool_id : string;
  sb_pool_name : option string;
  sb_adx_balance : Balance;
  sb_adx_unclaimed_balance : Balance;
  sb_dai_balance : Balance;
  sb_contract_address : string;
}.

Record ADXStakingDetail : Type := mkADXStakingDetail {
  sd_contract_address : string;
  sd_pool_id : string;
  sd_pool_name : option string;
  sd_total_staked_amount : FVal;
  sd_apr : FVal;
  sd_adx_balance : Balance;
  sd_dai_balance : Balance;
  sd_profit_loss : Balance;
}.

(** The members of [Union[Bond, Unbond, UnbondRequest, ChannelWithdraw]]. *)
Inductive StakingEvent : Type :=
| EvBond (b : Bond)
| EvUnbond (u : Unbond)
| EvUnbondRequest (r : UnbondRequest)
| EvChannelWithdraw (c : ChannelWithdraw).

Record ADXStakingHistory : Type := mkADXStakingHistory {
  events : list StakingEvent;
  staking_details : list ADXStakingDetail;
}.

Definition opt_str (o : option string) : PyValue :=
  match o with Some s => PStr s | None => PNone end.

Section Serialize.

(** Printers of other modules: [Balance.serialize], [str] of an [FVal]
    and [FVal.to_percentage(precision=2)]. *)
Variable Balance_serialize : Balance -> PyValue.
Variable str_FVal : FVal -> string.
Variable to_percentage : FVal -> string.

(** [Bond.serialize] *)
Definition Bond_serialize (self : Bond) : PyDict :=
  [ ("tx_hash", PStr (bond_tx_hash self));
    ("identity_address", PStr (bond_identity_address self));
    ("timestamp", PInt (bond_timestamp self));
    ("bond_id", PStr (bond_bond_id self));
    ("pool_id", PStr (bond_pool_id self));
    ("pool_name", pool_name_of (bond_pool_id self));
    ("value", Balance_serialize (bond_value self));
    ("event_type", PStr (EventType_str BOND)) ].

(** [Unbond.serialize] *)
Definition Unbond_serialize (self : Unbond) : PyDict :=
  [ ("tx_hash", PStr (unbond_tx_hash self));
    ("identity_address", PStr (unbond_identity_address self));
    ("timestamp", PInt (unbond_timestamp self));
    ("bond_id", PStr (unbond_bond_id self));
    ("pool_id", PStr (unbond_pool_id self));
    ("pool_name", pool_name_of (unbond_pool_id self));
    ("value", Balance_serialize (unbond_value self));
    ("event_type", PStr (EventType_str UNBOND)) ].

(** [UnbondRequest.serialize] *)
Definition UnbondRequest_serialize (self : UnbondRequest) : PyDict :=
  [ ("tx_hash", PStr (ureq_tx_hash self));
    ("identity_address", PStr (ureq_identity_address self));
    ("timestamp", PInt (ureq_timestamp self));
    ("bond_id", PStr (ureq_bond_id self));
    ("pool_id", PStr (ureq_pool_id self));
    ("pool_name", pool_name_of (ureq_pool_id self));
    ("value", Balance_serialize (ureq_value self));
    ("event_type", PStr (EventType_str UNBOND_REQUEST)) ].

(** [ChannelWithdraw.serialize] *)
Definition ChannelWithdraw_serialize (self : ChannelWithdraw) : PyDict :=
  [ ("tx_hash", PStr (cw_tx_hash self));
    ("identity_address", PStr (cw_identity_address self));
    ("timestamp", PInt (cw_timestamp self));
    ("pool_id", PStr (cw_pool_id self));
    ("pool_name", pool_name_of (cw_pool_id self));
    ("value", Balance_serialize (cw_value self));
    ("event_type", PStr (EventType_str CHANNEL_WITHDRAW)) ].

(** [ADXStakingBalance.serialize] *)
Definition ADXStakingBalance_serialize (self : ADXStakingBalance) : PyDict :=
  [ ("pool_id", PStr (sb_pool_id self));
    ("pool_name", opt_str (sb_pool_name self));
    ("adx_balance", Balance_serialize (sb_adx_balance self));
    ("dai_balance", Balance_serialize (sb_dai_balance self));
    ("contract_address", PStr (sb_contract_address self)) ].

(** [ADXStakingDetail.serialize] *)
Definition ADXStakingDetail_serialize (self : ADXStakingDetail) : PyDict :=
  [ ("contract_address", PStr (sd_contract_address self));
    ("pool_id", PStr (sd_pool_id self));
    ("pool_name", opt_str (sd_pool_name self));
    ("total_staked_amount", PStr (str_FVal (sd_total_staked_amount self)));
    ("apr", PStr (to_percentage (sd_apr self)));
    ("adx_balance", Balance_serialize (sd_adx_balance self));
    ("dai_balance", Balance_serialize (sd_dai_balance self));
    ("profit_loss", Balance_serialize (sd_profit_loss self)) ].

(** [event.serialize()], dispatched on the class of the event. *)
Definition StakingEvent_serialize (event : StakingEvent) : PyDict :=
  match event with
  | EvBond b => Bond_serialize b
  | EvUnbond u => Unbond_serialize u
  | EvUnbondRequest r => UnbondRequest_serialize r
  | EvChannelWithdraw c => ChannelWithdraw_serialize c
  end.

(** [event.to_db_tuple()], dispatched likewise. *)
Definition StakingEvent_to_db_tuple (event : StakingEvent) : list DBValue :=
  match event with
  | EvBond b => Bond_to_db_tuple str_FVal b
  | EvUnbond u => Unbond_to_db_tuple str_FVal u
  | EvUnbondRequest r => UnbondRequest_to_db_tuple str_FVal r
  | EvChannelWithdraw c => ChannelWithdraw_to_db_tuple str_FVal c
  end.

(** [ADXStakingHistory.serialize] *)
Definition ADXStakingHistory_serialize (self : ADXStakingHistory) : PyDict :=
  [ ("events", PList ((fun event => PDict (StakingEvent_serialize event)) <$> events self));
    ("staking_details",
     PList ((fun detail => PDict (ADXStakingDetail_serialize detail))
              <$> staking_details self)) ].

End Serialize.

(** A database column as the value the API shows for it. *)
Definition PyValue_of_DBValue (v : DBValue) : PyValue :=
  match v with
  | DBStr s => PStr s
  | DBInt n => PInt n
  | DBNone => PNone
  end.

(** The pool id of an event, whatever its class. *)
Definition event_pool_id (event : StakingEvent) : string :=
  match event with
  | EvBond b => bond_pool_id b
  | EvUnbond u => unbond_pool_id u
  | EvUnbondRequest r => ureq_pool_id r
  | EvChannelWithdraw c => cw_pool_id c
  end.

(** The staker's address of an event, whatever its class. *)
Definition event_address (event : StakingEvent) : string :=
  match event with
  | EvBond b => bond_address b
  | EvUnbond u => unbond_address u
  | EvUnbondRequest r => ureq_address r
  | EvChannelWithdraw c => cw_address c
  end.

(** A printer of [FVal] that tells any two values apart. *)
Definition print_FVal (x : FVal) : string := pretty.pretty (encode (Qnum x, Qden x)).

Definition sample_bond : Bond :=
  mkBond "0xtx" "0xstaker" "0xidentity" 1600000000 "0xbond" TOM_POOL_ID
         (mkBalance (100 # 1) (25 # 1)) 7 0.

(** [Balance.serialize] on the sample printer. *)
Definition sample_Balance_serialize (b : Balance) : PyValue :=
  PDict [ ("amount", PStr (print_FVal (amount b)));
          ("usd_value", PStr (print_FVal (usd_value b))) ].

Definition sample_withdraw : ChannelWithdraw :=
  mkChannelWithdraw "0xtx2" "0xstaker" "0xidentity" 1600000500
                    (mkBalance (3 # 2) (3 # 1)) "0xchannel" "0xother".

End AdexSerialize.

(** ** Coverage of a list of addresses by the stored ranges *)

Module Coverage.
Import Sushiswap.

(** Every address is covered up to [to]: it has a stored range that
    ends at [to] or later. *)
Definition covered (w : World) (prefix : string) (addresses : list string) (to : Z) : Prop :=
  forall a, a ∈ addresses ->
    exists s e, stored_range w prefix a = Some (s, e) /\ to <= e.

End Coverage.

(** ** The public methods of the Sushiswap module *)

Module SushiswapApi.
Import Sushiswap.

Section Balances.

Variable GRAPH_QUERY_LIMIT : Z.
Variable query_liquidityPositions : GraphRequest -> string + list RawLiquidityPosition.
Variable query_tokenDayDatas : GraphRequest -> string + list RawTokenDayData.
Variable deserialize_ethereum_address : string -> option ChecksumEthAddress.
Variable FVal_of_str : string -> option FVal.
Variable get_or_create_ethereum_token :
  string -> ChecksumEthAddress -> string -> Z -> EthereumToken.
Variable has_oracle : EthereumToken -> bool.
Variable today_epoch : Z.

(** [self.premium], as the truth value the code tests. *)
Variable premium : bool.
(** [get_latest_lp_addresses(self.data_directory)] *)
Variable lp_addresses : list ChecksumEthAddress.
(** [uniswap_lp_token_balances], a helper of the module's [utils]: it
    reads the chain and may add to the two sets of assets it is handed. *)
Variable uniswap_lp_token_balances :
  ChecksumEthAddress -> list ChecksumEthAddress ->
  list EthereumToken -> list EthereumToken ->
  Result (list LiquidityPool * list EthereumToken * list EthereumToken).
(** [_get_known_asset_price] and
    [_update_assets_prices_in_address_balances] of the [AMMSwapPlatform]
    base class; both are handed mutable arguments, so they answer with
    what these hold afterwards. *)
Variable _get_known_asset_price :
  list EthereumToken -> list EthereumToken ->
  Result (AssetToPrice * list EthereumToken * list EthereumToken).
Variable _update_assets_prices_in_address_balances :
  AddressToLPBalances -> AssetToPrice -> AssetToPrice -> Result AddressToLPBalances.

(** The body of [for address in addresses], lines 216-226. *)
Definition chain_step (acc : ProtocolBalance) (addr : ChecksumEthAddress)
  : M ProtocolBalance :=
  r <- lift (uniswap_lp_token_balances addr lp_addresses
               (known_assets acc) (unknown_assets acc)) ;;
  let '(pool_balances, known, unknown) := r in
  ret (mkProtocolBalance
         (if negb (length pool_balances =? 0)%nat
          then <[addr := pool_balances]> (address_balances acc)
          else address_balances acc)
         known unknown).

(** [Sushiswap.get_balances_chain] *)
Definition get_balances_chain (addresses : list ChecksumEthAddress) : M ProtocolBalance :=
  for_each chain_step addresses (mkProtocolBalance ∅ [] []).

(** [Sushiswap.get_balances]; [None] is only returned when one of the
    two page loops runs out of fuel. *)
Definition get_balances (fuel : nat) (addresses : list ChecksumEthAddress)
  : M (option AddressToLPBalances) :=
  balance <-
    (if premium
     then _get_balances_graph GRAPH_QUERY_LIMIT query_liquidityPositions
            deserialize_ethereum_address FVal_of_str get_or_create_ethereum_token
            has_oracle fuel addresses
     else (b <- get_balances_chain addresses ;; ret (Some b))) ;;
  match balance with
  | None => ret None
  | Some protocol_balance =>
      kp <- lift (_get_known_asset_price (known_assets protocol_balance)
                    (unknown_assets protocol_balance)) ;;
      let '(known_asset_price, _, unknown) := kp in
      prices <-
        (if premium
         then _get_unknown_asset_price_graph GRAPH_QUERY_LIMIT query_tokenDayDatas
                deserialize_ethereum_address FVal_of_str today_epoch fuel unknown
         else ret (Some ∅)) ;;
      match prices with
      | None => ret None
      | Some unknown_asset_price =>
          updated <- lift (_update_assets_prices_in_address_balances
                             (address_balances protocol_balance)
                             known_asset_price unknown_asset_price) ;;
          ret (Some updated)
      end
  end.

End Balances.

Section History.

Variable _get_trades_graph :
  list ChecksumEthAddress -> Timestamp -> Timestamp -> Result AddressTrades.
Variable _fetch_trades_from_db :
  DBHandler -> list ChecksumEthAddress -> Timestamp -> Timestamp -> AddressTrades.
(** [DBHandler.delete_sushiswap_trades_data] and
    [DBHandler.delete_sushiswap_events_data], methods of the database
    handler. *)
Variable delete_sushiswap_trades_data : DBHandler -> DBHandler.
Variable delete_sushiswap_events_data : DBHandler -> DBHandler.

(** [Sushiswap.get_trades_history]; the lock it holds serializes callers
    and has no part in a single call. *)
Definition get_trades_history (addresses : list ChecksumEthAddress)
    (reset_db_data : bool) (from_timestamp to_timestamp : Timestamp) : M AddressTrades :=
  (if reset_db_data then modify_db delete_sushiswap_trades_data else ret tt) ;;;
  _get_trades _get_trades_graph _fetch_trades_from_db addresses
    from_timestamp to_timestamp false.

(** [Sushiswap.deactivate] *)
Definition deactivate : M unit :=
  modify_db delete_sushiswap_trades_data ;;;
  modify_db delete_sushiswap_events_data.

End History.

(** A [delete_sushiswap_trades_data] that forgets every trades range
    and every swap. *)
Definition drop_trades_data (db : DBHandler) : DBHandler :=
  mkDB (filter (fun kv => negb (String.prefix SUSHISWAP_TRADES_PREFIX (fst kv)))
               (used_query_ranges db))
       (sushiswap_events db) [].

(** No character of the string is a dash. *)
Fixpoint no_dash (s : string) : bool :=
  match s with
  | EmptyString => true
  | String c s' => negb (Ascii.eqb c "-"%char) && no_dash s'
  end.

(** What every balance of [_get_balances_graph] keeps: no address with
    an empty list of pools, two assets in every pool, an oracle for
    every known asset and none for any unknown one. *)
Definition balance_well_formed (has_oracle : EthereumToken -> bool)
    (balance : ProtocolBalance) : Prop :=
  (forall a pools, address_balances balance !! a = Some pools ->
     pools <> [] /\ Forall (fun pool => length (assets pool) = 2%nat) pools)
  /\ Forall (fun t => has_oracle t = true) (known_assets balance)
  /\ Forall (fun t => has_oracle t = false) (unknown_assets balance).

Definition is_GraphQuery (c : Call) : bool :=
  match c with GraphQuery _ => true | _ => false end.

End SushiswapApi.

(** ** More sample data *)

Module ApiSamples.
Import Sushiswap Samples SushiswapApi.

(** Only T0 has a price oracle. *)
Definition sample_has_oracle (t : EthereumToken) : bool := String.eqb (symbol t) "T0".

Definition sample_position (user : string) : RawLiquidityPosition :=
  mkRawLP user "1.5" (mkRawPair "0xpair" "2" "2" "1.5" raw_token0 raw_token1).

Definition three_positions : list RawLiquidityPosition :=
  [sample_position "0xuser"; sample_position "0xother"; sample_position "0xuser"].

(** A remote that holds [three_positions] and serves them by offset and
    limit. *)
Definition positions_remote (request : GraphRequest)
  : string + list RawLiquidityPosition :=
  match request with
  | LiquidityPositionsQuery limit offset _ _ => inr (page_of three_positions limit offset)
  | _ => inr []
  end.

(** A remote whose second position has a user id that is no address. *)
Definition positions_remote_bad (request : GraphRequest)
  : string + list RawLiquidityPosition :=
  inr [sample_position "0xuser"; sample_position ""].

(** Two prices of T1, the later one last, around one of T0. *)
Definition three_prices : list RawTokenDayData :=
  [mkRawTDD "0xt1" "2"; mkRawTDD "0xt0" "0"; mkRawTDD "0xt1" "1.5"].

Definition prices_remote (request : GraphRequest) : string + list RawTokenDayData :=
  match request with
  | TokenDayDatasQuery limit offset _ _ => inr (page_of three_prices limit offset)
  | _ => inr []
  end.

Definition sample_pool : LiquidityPool :=
  mkLiquidityPool "0xpair" [] (2 # 1) (mkBalance (3 # 2) (0 # 1)).

(** A chain helper that finds one pool for "A" and none for anyone
    else. *)
Definition sample_chain_balances (addr : string) (lp_addresses : list string)
    (known unknown : list EthereumToken)
  : Result (list LiquidityPool * list EthereumToken * list EthereumToken) :=
  inr (if String.eqb addr "A" then [sample_pool] else [], known, unknown).

Definition sample_known_price (known unknown : list EthereumToken)
  : Result (AssetToPrice * list EthereumToken * list EthereumToken) :=
  inr (∅, known, unknown).

Definition sample_update_prices (address_balances : AddressToLPBalances)
    (known_asset_price unknown_asset_price : AssetToPrice) : Result AddressToLPBalances :=
  inr address_balances.

End ApiSamples.

(** * Properties *)

(** ** AdEx database tuples *)

(** C9: each of the four staking event types serializes to a row of 13
    columns; the event-type column (index 4) is 'deposit', 'withdraw',
    'withdraw request' and 'claim' respectively, four distinct strings;
    and of the optional columns [bond_id, nonce, slashed_at, unlock_at,
    channel_id] exactly the variant's own are not [None]: Bond has
    bond_id, nonce and slashed_at, Unbond only bond_id, UnbondRequest
    bond_id and unlock_at, ChannelWithdraw only channel_id. *)
Theorem to_db_tuple_shape (str_FVal : Adex.FVal -> string)
    (b : Adex.Bond) (u : Adex.Unbond) (r : Adex.UnbondRequest)
    (c : Adex.ChannelWithdraw) :
  let rb := Adex.Bond_to_db_tuple str_FVal b in
  let ru := Adex.Unbond_to_db_tuple str_FVal u in
  let rr := Adex.UnbondRequest_to_db_tuple str_FVal r in
  let rc := Adex.ChannelWithdraw_to_db_tuple str_FVal c in
  (length rb = 13 /\ length ru = 13 /\ length rr = 13 /\ length rc = 13)%nat
  /\ (rb !! 4%nat = Some (Adex.DBStr "deposit")
      /\ ru !! 4%nat = Some (Adex.DBStr "withdraw")
      /\ rr !! 4%nat = Some (Adex.DBStr "withdraw request")
      /\ rc !! 4%nat = Some (Adex.DBStr "claim"))
  /\ NoDup (Adex.EventType_str <$>
              [Adex.BOND; Adex.UNBOND; Adex.UNBOND_REQUEST; Adex.CHANNEL_WITHDRAW])
  /\ (Adex.optional_columns_None rb = [false; false; false; true; true]
      /\ Adex.optional_columns_None ru = [false; true; true; true; true]
      /\ Adex.optional_columns_None rr = [false; true; true; false; true]
      /\ Adex.optional_columns_None rc = [true; true; true; true; false]).
Proof.
  cbn.
  repeat split.
  apply (bool_decide_unpack _). vm_compute. reflexivity.
Qed.


(** ** Incremental syncs *)

Import Sushiswap.

Lemma for_each_app {A B} (f : B -> A -> M B) (l1 l2 : list A) (b : B) (w : World) :
  for_each f (l1 ++ l2) b w = bind (for_each f l1 b) (for_each f l2) w.
Proof.
  revert b w. induction l1 as [|x l1 IH]; intros b w; simpl.
  - reflexivity.
  - unfold bind. destruct (f b x w) as [[e|b'] w1] eqn:E; [reflexivity|].
    rewrite IH. reflexivity.
Qed.

Lemma entry_name_inj (prefix a b : string) :
  entry_name prefix a = entry_name prefix b -> a = b.
Proof.
  unfold entry_name. intros H.
  apply (inj (String.app prefix)) in H.
  by simplify_eq/=.
Qed.

Lemma classify_addresses_run (prefix : string) (addresses : list ChecksumEthAddress)
    (to_timestamp : Timestamp) (w : World) :
  classify_addresses prefix addresses to_timestamp w
  = (inr (new_addresses_of w prefix addresses,
          existing_addresses_of w prefix addresses,
          min_end_ts_of w prefix addresses to_timestamp), w).
Proof.
  unfold classify_addresses, new_addresses_of, existing_addresses_of, min_end_ts_of.
  assert (G : forall m e n,
    for_each (classify_step prefix) addresses (n, e, m) w =
  (inr
     (n ++ List.filter (is_new w prefix) addresses,
      e ++ List.filter (λ a : ChecksumEthAddress, negb (is_new w prefix a)) addresses,
      foldl Z.min m (stored_ends w prefix addresses)), w)).
  { induction addresses as [|a l IH]; intros m e n; simpl.
    - by rewrite !app_nil_r.
    - unfold bind, classify_step, get_used_query_range, is_new, stored_range,
        db_get_used_query_range, stored_ends. simpl. unfold stored_range at 1.
      destruct (used_query_ranges (database w) !! entry_name prefix a) as [[s en]|] eqn:Hr;
      simpl; rewrite IH; simpl.
      + by rewrite <- !app_assoc.
      + by rewrite <- !app_assoc. }
  apply G.
Qed.

Lemma after_fetch_id (w : World) : after_fetch w (used_query_ranges (database w)) [] = w.
Proof. destruct w as [[r e s] c m]. unfold after_fetch. simpl. by rewrite app_nil_r. Qed.

Lemma after_fetch_after_fetch w r1 l1 r2 l2 :
  after_fetch (after_fetch w r1 l1) r2 l2 = after_fetch w r2 (l1 ++ l2).
Proof. unfold after_fetch. simpl. by rewrite app_assoc. Qed.

Lemma write_ranges_app prefix to d1 d2 r :
  write_ranges prefix to (d1 ++ d2) r = write_ranges prefix to d2 (write_ranges prefix to d1 r).
Proof. unfold write_ranges. apply foldl_app. Qed.

Lemma write_ranges_batch prefix to (p : list ChecksumEthAddress * Timestamp) r :
  write_ranges prefix to (batch_entries p) r
  = foldl (fun r a => <[entry_name prefix a := (snd p, to)]> r) r (fst p).
Proof.
  destruct p as [batch s]. unfold batch_entries, write_ranges. cbn [fst snd].
  revert r. induction batch as [|a batch IH]; intros r; [done|]. simpl. apply IH.
Qed.

Lemma ranges_after_trades_cons to p done r :
  ranges_after_trades to (p :: done) r
  = ranges_after_trades to done (write_ranges SUSHISWAP_TRADES_PREFIX to (batch_entries p) r).
Proof. unfold ranges_after_trades. cbn [flat_map]. apply write_ranges_app. Qed.

Lemma elem_of_take_while {A} (ok : A -> bool) (l : list A) (x : A) :
  x ∈ take_while ok l -> x ∈ l /\ ok x = true.
Proof.
  induction l as [|y l IH]; simpl; [by intros ?%elem_of_nil|].
  destruct (ok y) eqn:E; [|by intros ?%elem_of_nil].
  intros [->|H]%elem_of_cons.
  - split; [left|done].
  - destruct (IH H). split; [by right|done].
Qed.

Lemma write_ranges_cons prefix to q done r :
  write_ranges prefix to (q :: done) r
  = write_ranges prefix to done (<[entry_name prefix (fst q) := (snd q, to)]> r).
Proof. reflexivity. Qed.

Lemma write_ranges_lookup_ne prefix to done r n :
  (forall q, q ∈ done -> entry_name prefix (fst q) <> n) ->
  write_ranges prefix to done r !! n = r !! n.
Proof.
  revert r. induction done as [|q done IH]; intros r H; [done|].
  rewrite write_ranges_cons.
  rewrite IH; [|intros q' Hq'; apply H; by right].
  apply lookup_insert_ne, H. left.
Qed.

Lemma write_ranges_lookup_cases prefix to done r n :
  write_ranges prefix to done r !! n = r !! n
  \/ exists q, q ∈ done /\ n = entry_name prefix (fst q)
               /\ write_ranges prefix to done r !! n = Some (snd q, to).
Proof.
  revert r. induction done as [|q done IH]; intros r; [by left|].
  rewrite write_ranges_cons.
  destruct (IH (<[entry_name prefix (fst q) := (snd q, to)]> r))
    as [Heq|(q' & Hin & Hn & Hq)].
  - rewrite Heq. destruct (decide (entry_name prefix (fst q) = n)) as [<-|Hne].
    + right. exists q. rewrite lookup_insert_eq. split; [left|done].
    + left. by apply lookup_insert_ne.
  - right. exists q'. split; [by right|done].
Qed.

Lemma foldl_min_spec (m : Z) (l : list Z) :
  foldl Z.min m l <= m
  /\ Forall (Z.le (foldl Z.min m l)) l
  /\ (foldl Z.min m l = m \/ foldl Z.min m l ∈ l).
Proof.
  revert m. induction l as [|x l IH]; intros m; simpl.
  - split; [lia|]. split; [constructor|by left].
  - destruct (IH (Z.min m x)) as (H1 & H2 & H3).
    split; [lia|]. split; [constructor; [lia|done]|].
    destruct H3 as [H3|H3]; [|right; by right].
    rewrite H3.
    destruct (Z.min_spec m x) as [[? E]|[? E]]; rewrite E; [by left|right; left].
Qed.

Lemma foldl_min_is_minimum (to m : Z) (l : list Z) :
  is_minimum m l -> foldl Z.min to l = Z.min to m.
Proof.
  intros [Hin Hall].
  destruct (foldl_min_spec to l) as (H1 & H2 & H3).
  rewrite Forall_forall in H2, Hall.
  specialize (H2 m Hin).
  destruct H3 as [H3|H3]; [lia|].
  specialize (Hall _ H3). lia.
Qed.

Lemma stored_ends_elem (w : World) (prefix : string) (addresses : list ChecksumEthAddress)
    (a : ChecksumEthAddress) (s e : Timestamp) :
  a ∈ addresses -> stored_range w prefix a = Some (s, e) ->
  e ∈ stored_ends w prefix addresses.
Proof.
  intros Ha Hr. unfold stored_ends. apply list_elem_of_omap.
  exists a. split; [done|]. by rewrite Hr.
Qed.

Lemma min_end_ts_le_stored (w : World) (prefix : string)
    (addresses : list ChecksumEthAddress) (to : Timestamp)
    (a : ChecksumEthAddress) (s e : Timestamp) :
  a ∈ addresses -> stored_range w prefix a = Some (s, e) ->
  min_end_ts_of w prefix addresses to <= e.
Proof.
  intros Ha Hr. unfold min_end_ts_of.
  destruct (foldl_min_spec to (stored_ends w prefix addresses)) as (_ & H2 & _).
  rewrite Forall_forall in H2. apply H2. by eapply stored_ends_elem.
Qed.

Lemma elem_of_new_addresses (w : World) prefix addresses a :
  a ∈ new_addresses_of w prefix addresses <-> a ∈ addresses /\ is_new w prefix a = true.
Proof. unfold new_addresses_of. rewrite !list_elem_of_In. apply filter_In. Qed.

Lemma elem_of_existing_addresses (w : World) prefix addresses a :
  a ∈ existing_addresses_of w prefix addresses
  <-> a ∈ addresses /\ is_new w prefix a = false.
Proof.
  unfold existing_addresses_of. rewrite !list_elem_of_In, filter_In.
  by rewrite negb_true_iff.
Qed.

Lemma elem_of_plan_entries (w : World) prefix addresses to p :
  p ∈ plan_entries w prefix addresses to <->
  fst p ∈ addresses
  /\ ((is_new w prefix (fst p) = true /\ snd p = 0)
      \/ (is_new w prefix (fst p) = false
          /\ delta_runs w prefix addresses to = true
          /\ snd p = min_end_ts_of w prefix addresses to)).
Proof.
  unfold plan_entries. rewrite elem_of_app. destruct p as [a s]. cbn [fst snd].
  split.
  - intros [H|H].
    + apply list_elem_of_fmap in H as (a' & [= -> ->] & H).
      apply elem_of_new_addresses in H as [? ?]. eauto.
    + destruct (delta_runs w prefix addresses to); [|by apply elem_of_nil in H].
      apply list_elem_of_fmap in H as (a' & [= -> ->] & H).
      apply elem_of_existing_addresses in H as [? ?]. eauto 6.
  - intros [Ha [[Hn ->]|(Hn & Hd & ->)]].
    + left. apply list_elem_of_fmap. exists a. split; [done|].
      by apply elem_of_new_addresses.
    + right. rewrite Hd. apply list_elem_of_fmap. exists a. split; [done|].
      by apply elem_of_existing_addresses.
Qed.

Lemma plan_entries_same_address (w : World) prefix addresses to p q :
  p ∈ plan_entries w prefix addresses to ->
  q ∈ plan_entries w prefix addresses to ->
  fst p = fst q -> p = q.
Proof.
  rewrite !elem_of_plan_entries. destruct p as [a s], q as [b t]. cbn [fst snd].
  intros [_ Hp] [_ Hq] <-. f_equal.
  destruct Hp as [[? ->]|(? & ? & ->)], Hq as [[? ->]|(? & ? & ->)]; congruence.
Qed.

Lemma trades_plan_entries (w : World) addresses to :
  flat_map batch_entries (trades_plan w addresses to)
  = plan_entries w SUSHISWAP_TRADES_PREFIX addresses to.
Proof.
  unfold trades_plan, plan_entries. rewrite flat_map_app.
  destruct (new_addresses_of w SUSHISWAP_TRADES_PREFIX addresses) eqn:En;
    destruct (delta_runs w SUSHISWAP_TRADES_PREFIX addresses to); simpl;
    unfold batch_entries; simpl; by rewrite ?app_nil_r.
Qed.

Lemma later_range_cases (prefix : string) (w : World)
    (addresses : list ChecksumEthAddress) (to : Timestamp) (a : ChecksumEthAddress)
    (s0 e0 : Timestamp) (done : list (ChecksumEthAddress * Timestamp)) :
  a ∈ addresses -> s0 <= e0 -> stored_range w prefix a = Some (s0, e0) ->
  (forall q, q ∈ done -> q ∈ plan_entries w prefix addresses to) ->
  let m := min_end_ts_of w prefix addresses to in
  exists s1 e1,
    write_ranges prefix to done (used_query_ranges (database w)) !! entry_name prefix a
    = Some (s1, e1)
    /\ s1 <= e1
    /\ ((s1 = s0 /\ e1 = e0)
        \/ (s1 = m /\ e1 = to /\ m < to
            /\ is_minimum m (stored_ends w prefix addresses)))
    /\ (addresses = [a] -> s0 <= s1 /\ e0 <= e1).
Proof.
  intros Ha Hse Hr Hdone m.
  destruct (write_ranges_lookup_cases prefix to done (used_query_ranges (database w))
              (entry_name prefix a)) as [Heq|(q & Hq & Hname & Hval)].
  - exists s0, e0. rewrite Heq. split; [exact Hr|]. split; [done|].
    split; [by left|]. intros _. lia.
  - apply entry_name_inj in Hname. subst a.
    apply Hdone, elem_of_plan_entries in Hq as [_ [[Hn _]|(_ & Hd & Hs)]].
    { unfold is_new in Hn. by rewrite Hr in Hn. }
    fold m in Hs. exists m, to. rewrite Hs in Hval.
    unfold delta_runs in Hd. apply andb_true_iff in Hd as [_ Hlt].
    fold m in Hlt. apply Z.ltb_lt in Hlt.
    assert (Hmin : is_minimum m (stored_ends w prefix addresses)).
    { destruct (foldl_min_spec to (stored_ends w prefix addresses)) as (_ & H2 & H3).
      fold (min_end_ts_of w prefix addresses to) in H2, H3. fold m in H2, H3.
      split; [|done]. destruct H3 as [H3|H3]; [lia|done]. }
    split; [exact Hval|]. split; [lia|]. split; [right; done|].
    intros ->. clear Hmin Hval Hs Hdone. subst m.
    unfold min_end_ts_of, stored_ends in *. cbn in Hlt |- *.
    rewrite Hr in Hlt |- *. cbn in Hlt |- *. lia.
Qed.

Lemma plan_entries_shape (prefix : string) (w : World)
    (addresses : list ChecksumEthAddress) (to m : Timestamp) :
  is_minimum m (stored_ends w prefix addresses)
  \/ existing_addresses_of w prefix addresses = [] ->
  delta_runs w prefix addresses to
  = nonempty (existing_addresses_of w prefix addresses) && (m <? to)
  /\ (delta_runs w prefix addresses to = true ->
      min_end_ts_of w prefix addresses to = m).
Proof.
  unfold delta_runs. intros [Hmin|Hnil]; [|by rewrite Hnil].
  unfold min_end_ts_of. rewrite (foldl_min_is_minimum to m _ Hmin).
  destruct (Z.ltb_spec m to), (Z.ltb_spec (Z.min to m) to); try lia.
  split; [done|]. intros _. lia.
Qed.

Lemma event_key_le_spec (e1 e2 : LiquidityPoolEvent) :
  event_key_le e1 e2 = true <-> event_key_le_prop e1 e2.
Proof.
  unfold event_key_le, event_key_le_prop.
  rewrite orb_true_iff, andb_true_iff, Z.ltb_lt, Z.eqb_eq, Z.leb_le. done.
Qed.

Lemma insert_by_perm {A} (le : A -> A -> bool) (x : A) (l : list A) :
  insert_by le x l ≡ₚ x :: l.
Proof.
  induction l as [|y l IH]; simpl; [done|].
  destruct (le x y); [done|]. rewrite IH. apply Permutation_swap.
Qed.

Lemma sort_by_perm {A} (le : A -> A -> bool) (l : list A) : sort_by le l ≡ₚ l.
Proof.
  induction l as [|x l IH]; simpl; [done|].
  rewrite insert_by_perm. by rewrite IH.
Qed.

Section SortBy.
Context {A : Type} (le : A -> A -> bool).
Hypothesis le_total : forall x y, le x y = true \/ le y x = true.
Hypothesis le_trans : forall x y z, le x y = true -> le y z = true -> le x z = true.

Let R (x y : A) : Prop := le x y = true.

Lemma insert_by_sorted (x : A) (l : list A) :
  StronglySorted R l -> StronglySorted R (insert_by le x l).
Proof.
  induction 1 as [|y l Hl IH Hy]; simpl.
  - repeat constructor.
  - destruct (le x y) eqn:E.
    + constructor; [by constructor|]. constructor; [done|].
      eapply Forall_impl; [exact Hy|]. intros z Hz. by eapply le_trans.
    + constructor; [done|].
      assert (Hyx : R y x) by (destruct (le_total x y); [congruence|done]).
      rewrite (insert_by_perm le x l). by constructor.
Qed.

Lemma sort_by_sorted (l : list A) : StronglySorted R (sort_by le l).
Proof.
  induction l as [|x l IH]; simpl; [constructor|]. by apply insert_by_sorted.
Qed.
End SortBy.

Lemma StronglySorted_mono {A} (R1 R2 : A -> A -> Prop) (l : list A) :
  (forall x y, R1 x y -> R2 x y) -> StronglySorted R1 l -> StronglySorted R2 l.
Proof.
  intros HR. induction 1 as [|x l Hl IH Hx]; constructor; [done|].
  eapply Forall_impl; [exact Hx|]. intros y. apply HR.
Qed.

Lemma sort_events_sorted (l : list LiquidityPoolEvent) :
  StronglySorted event_key_le_prop (sort_by event_key_le l).
Proof.
  apply StronglySorted_mono with (R1 := fun e1 e2 => event_key_le e1 e2 = true).
  - intros e1 e2. apply event_key_le_spec.
  - apply sort_by_sorted.
    + intros x y. rewrite !event_key_le_spec. unfold event_key_le_prop. lia.
    + intros x y z. rewrite !event_key_le_spec. unfold event_key_le_prop. lia.
Qed.

Lemma nonempty_spec {A} (l : list A) : nonempty l = true <-> l <> [].
Proof. by destruct l. Qed.

Lemma readback_of_lookup (db : DBHandler) (addresses : list ChecksumEthAddress)
    (from to : Timestamp) (a : ChecksumEthAddress) (evs : list LiquidityPoolEvent) :
  readback_of db addresses from to !! a = Some evs
  <-> a ∈ addresses
      /\ db_get_sushiswap_events db from to a <> []
      /\ evs = sort_by event_key_le (db_get_sushiswap_events db from to a).
Proof.
  unfold readback_of.
  assert (G : forall acc : AddressEvents,
    foldl (fun acc a =>
             if nonempty (db_get_sushiswap_events db from to a)
             then <[a := sort_by event_key_le (db_get_sushiswap_events db from to a)]> acc
             else acc) acc addresses !! a = Some evs
    <-> (a ∈ addresses
         /\ db_get_sushiswap_events db from to a <> []
         /\ evs = sort_by event_key_le (db_get_sushiswap_events db from to a))
        \/ (~ (a ∈ addresses /\ db_get_sushiswap_events db from to a <> [])
            /\ acc !! a = Some evs)).
  { induction addresses as [|x l IH]; intros acc.
    - simpl. split; [intros H; right; split; [|done]; by intros [?%elem_of_nil _]|].
      intros [[?%elem_of_nil _]|[_ ?]]; done.
    - cbn [foldl]. rewrite IH, elem_of_cons.
      destruct (nonempty (db_get_sushiswap_events db from to x)) eqn:En.
      + apply nonempty_spec in En.
        destruct (decide (x = a)) as [->|Hne].
        * rewrite lookup_insert_eq. split.
          -- intros [(? & ? & ?)|[? [= <-]]]; left; eauto.
          -- intros [(? & ? & ->)|[Hn ?]]; [|destruct Hn; eauto].
             destruct (decide (a ∈ l)); [left; eauto|right].
             split; [|done]. by intros [? _].
        * rewrite lookup_insert_ne by done. split.
          -- intros [(? & ? & ?)|[Hn ?]]; [left; eauto|right].
             split; [|done]. intros [[->|?] ?]; [done|]. apply Hn; eauto.
          -- intros [([->|?] & ? & ?)|[Hn ?]]; [done|left; eauto|right].
             split; [|done]. intros [? ?]. apply Hn; eauto.
      + assert (Hx : db_get_sushiswap_events db from to x = []).
        { by destruct (db_get_sushiswap_events db from to x). }
        split.
        * intros [(? & ? & ?)|[Hn ?]]; [left; eauto|right].
          split; [|done]. intros [[->|?] ?]; [done|]. apply Hn; eauto.
        * intros [([->|?] & ? & ?)|[Hn ?]]; [done|left; eauto|right].
          split; [|done]. intros [? ?]. apply Hn; eauto. }
  rewrite G, lookup_empty. split.
  - intros [?|[_ ?]]; done.
  - by left.
Qed.

Lemma events_plan_calls_not_balances (to : Timestamp)
    (plan : list (ChecksumEthAddress * Timestamp)) :
  Forall (fun c => is_GetBalancesCall c = false) (events_plan_calls to plan).
Proof.
  unfold events_plan_calls. apply Forall_forall. intros c Hc.
  apply list_elem_of_In, in_flat_map in Hc as (p & _ & Hc).
  apply list_elem_of_In, list_elem_of_fmap in Hc as (et & -> & _). done.
Qed.

Lemma calculate_events_balances_nonempty (a : ChecksumEthAddress)
    (evs : list LiquidityPoolEvent) (balances : list LiquidityPool) :
  evs <> [] -> _calculate_events_balances a evs balances <> [].
Proof.
  intros Hevs. unfold _calculate_events_balances.
  destruct evs as [|e evs]; [done|].
  assert (Hin : ev_pool_address e ∈ remove_dups (ev_pool_address <$> e :: evs)).
  { apply elem_of_remove_dups. left. }
  intros Hnil. apply fmap_nil_inv in Hnil. rewrite Hnil in Hin.
  by apply elem_of_nil in Hin.
Qed.

Section SyncProps.

Variable _get_events_graph :
  ChecksumEthAddress -> Timestamp -> Timestamp -> EventType ->
  Result (list LiquidityPoolEvent).
Variable _get_trades_graph :
  list ChecksumEthAddress -> Timestamp -> Timestamp -> Result AddressTrades.
Variable _fetch_trades_from_db :
  DBHandler -> list ChecksumEthAddress -> Timestamp -> Timestamp -> AddressTrades.
Variable get_balances : list ChecksumEthAddress -> Result AddressToLPBalances.

Abbreviation ev_ok := (events_fetch_ok _get_events_graph).
Abbreviation fetch1 := (fetch_address_events _get_events_graph).
Abbreviation fetch_planned := (Sushiswap.fetch_planned _get_events_graph).
Abbreviation trades_planned := (Sushiswap.trades_planned _get_trades_graph).

Lemma fetch_address_events_run (s to : Timestamp) (acc : AddressEvents)
    (a : ChecksumEthAddress) (w : World) :
  exists res logged,
    fetch1 s to acc a w
    = (res, after_fetch w
              (if ev_ok to (a, s)
               then <[entry_name SUSHISWAP_EVENTS_PREFIX a := (s, to)]>
                      (used_query_ranges (database w))
               else used_query_ranges (database w))
              logged)
    /\ logged `prefix_of` events_plan_calls to [(a, s)]
    /\ (ev_ok to (a, s) = true ->
        logged = events_plan_calls to [(a, s)] /\ exists acc', res = inr acc')
    /\ (ev_ok to (a, s) = false -> exists e, res = inl e).
Proof.
  destruct w as [[r evs sw] c m].
  unfold fetch_address_events, events_fetch_ok, events_plan_calls, EventType_members.
  cbn [for_each forallb flat_map fmap list_fmap fst snd app].
  unfold bind, fetch_event_type, external, record_call, lift, bind, ret,
    update_used_query_range, modify_db, after_fetch, db_update_used_query_range; simpl.
  destruct (_get_events_graph a s to MINT) as [e1|ev1]; simpl.
  { eexists _, [_]. split; [reflexivity|]. split; [by eexists [_]|].
    split; [done|eauto]. }
  destruct (_get_events_graph a s to BURN) as [e2|ev2]; simpl.
  { eexists _, [_; _]. rewrite <- !app_assoc. split; [reflexivity|].
    split; [by eexists []|]. split; [done|eauto]. }
  eexists _, [_; _]. rewrite <- !app_assoc. split; [reflexivity|].
  split; [by eexists []|]. split; [eauto|done].
Qed.

Lemma for_each_fetch_planned (s to : Timestamp) (l : list ChecksumEthAddress)
    (acc : AddressEvents) (w : World) :
  for_each (fetch1 s to) l acc w
  = for_each (fetch_planned to) ((fun a => (a, s)) <$> l) acc w.
Proof.
  revert acc w. induction l as [|a l IH]; intros acc w; simpl; [done|].
  unfold bind, fetch_planned at 1. simpl.
  destruct (fetch1 s to acc a w) as [[e|acc'] w1]; [done|]. apply IH.
Qed.

Lemma events_loop_run (to : Timestamp) (plan : list (ChecksumEthAddress * Timestamp))
    (acc : AddressEvents) (w : World) :
  exists res logged,
    for_each (fetch_planned to) plan acc w
    = (res, after_fetch w
              (ranges_after_events to (take_while (ev_ok to) plan)
                 (used_query_ranges (database w)))
              logged)
    /\ logged `prefix_of` events_plan_calls to plan
    /\ (forallb (ev_ok to) plan = true ->
        logged = events_plan_calls to plan /\ exists acc', res = inr acc')
    /\ (forallb (ev_ok to) plan = false -> exists e, res = inl e).
Proof.
  revert acc w. induction plan as [|[a s] plan IH]; intros acc w.
  - exists (inr acc), []. simpl. rewrite after_fetch_id.
    split; [done|]. split; [done|]. split; [eauto|done].
  - destruct (fetch_address_events_run s to acc a w)
      as (res1 & logged1 & Hrun & Hpre & Hok & Hfail).
    cbn [for_each take_while forallb]. unfold bind, fetch_planned at 1.
    cbn [fst snd]. rewrite Hrun.
    change (events_plan_calls to ((a, s) :: plan))
      with (events_plan_calls to [(a, s)] ++ events_plan_calls to plan).
    destruct (ev_ok to (a, s)) eqn:Ea.
    + destruct (Hok eq_refl) as [-> [acc' ->]].
      destruct (IH acc' (after_fetch w
                  (<[entry_name SUSHISWAP_EVENTS_PREFIX a := (s, to)]>
                     (used_query_ranges (database w)))
                  (events_plan_calls to [(a, s)])))
        as (res & logged & Hrun' & Hpre' & Hok' & Hfail').
      exists res, (events_plan_calls to [(a, s)] ++ logged).
      rewrite Hrun', after_fetch_after_fetch.
      split; [reflexivity|]. split; [by apply prefix_app|].
      split.
      * intros H. destruct (Hok' H) as [-> ?]. done.
      * done.
    + destruct (Hfail eq_refl) as [e ->].
      exists (inl e), logged1.
      split; [reflexivity|]. split; [by apply prefix_app_r|].
      split; [done|eauto].
Qed.

Lemma events_fetch_stage_plan (addresses : list ChecksumEthAddress) (to : Timestamp)
    (w : World) :
  events_fetch_stage _get_events_graph addresses to w
  = for_each (fetch_planned to) (events_plan w addresses to) ∅ w.
Proof.
  unfold events_fetch_stage, events_plan. unfold bind at 1.
  rewrite classify_addresses_run. unfold delta_runs.
  rewrite for_each_app. unfold bind.
  rewrite <- for_each_fetch_planned.
  assert (E : (if nonempty (new_addresses_of w SUSHISWAP_EVENTS_PREFIX addresses)
               then for_each (fetch1 0 to)
                      (new_addresses_of w SUSHISWAP_EVENTS_PREFIX addresses) ∅
               else ret ∅) w
              = for_each (fetch1 0 to)
                  (new_addresses_of w SUSHISWAP_EVENTS_PREFIX addresses) ∅ w).
  { by destruct (new_addresses_of w SUSHISWAP_EVENTS_PREFIX addresses). }
  rewrite E.
  destruct (for_each (fetch1 0 to) _ ∅ w) as [[e|ae] w1]; [done|].
  destruct (nonempty _ && _).
  - by rewrite for_each_fetch_planned.
  - done.
Qed.


Abbreviation tr_ok := (trades_fetch_ok _get_trades_graph).
Abbreviation fetchb := (fetch_trades_batch _get_trades_graph).

Lemma update_trades_ranges_run (s to : Timestamp) (batch : list ChecksumEthAddress)
    (w : World) :
  update_trades_ranges s to batch w
  = (inr tt, after_fetch w
               (foldl (fun r a => <[entry_name SUSHISWAP_TRADES_PREFIX a := (s, to)]> r)
                      (used_query_ranges (database w)) batch) []).
Proof.
  unfold update_trades_ranges. revert w.
  induction batch as [|a batch IH]; intros w.
  - simpl. by rewrite after_fetch_id.
  - cbn [for_each foldl]. unfold bind, update_trades_range at 1,
      update_used_query_range, modify_db. rewrite IH.
    reflexivity.
Qed.

Lemma fetch_trades_batch_run (to : Timestamp) (p : list ChecksumEthAddress * Timestamp)
    (acc : AddressTrades) (w : World) :
  exists res,
    trades_planned to acc p w
    = (res, after_fetch w
              (ranges_after_trades to (take_while (tr_ok to) [p])
                 (used_query_ranges (database w)))
              (trades_plan_calls to [p]))
    /\ (tr_ok to p = true -> exists acc', res = inr acc')
    /\ (tr_ok to p = false -> exists e, res = inl e).
Proof.
  destruct p as [batch s].
  unfold trades_planned, fetch_trades_batch, trades_fetch_ok, trades_plan_calls.
  cbn [fst snd take_while fmap list_fmap].
  unfold bind at 1. unfold external, bind, record_call, lift.
  destruct (_get_trades_graph batch s to) as [e|bt]; cbn [is_ok].
  - exists (inl e). split; [|split; [done|eauto]].
    f_equal. unfold after_fetch. simpl. by destruct w as [[r ev sw] c m].
  - rewrite update_trades_ranges_run. unfold ret.
    exists (inr (bt ∪ acc)). split; [|split; [eauto|done]].
    f_equal. rewrite ranges_after_trades_cons, write_ranges_batch.
    unfold after_fetch. simpl. by rewrite app_nil_r.
Qed.

Lemma trades_loop_run (to : Timestamp) (plan : list (list ChecksumEthAddress * Timestamp))
    (acc : AddressTrades) (w : World) :
  exists res logged,
    for_each (trades_planned to) plan acc w
    = (res, after_fetch w
              (ranges_after_trades to (take_while (tr_ok to) plan)
                 (used_query_ranges (database w)))
              logged)
    /\ logged `prefix_of` trades_plan_calls to plan
    /\ (forallb (tr_ok to) plan = true ->
        logged = trades_plan_calls to plan /\ exists acc', res = inr acc')
    /\ (forallb (tr_ok to) plan = false -> exists e, res = inl e).
Proof.
  revert acc w. induction plan as [|p plan IH]; intros acc w.
  - exists (inr acc), []. simpl. rewrite after_fetch_id.
    split; [done|]. split; [done|]. split; [eauto|done].
  - destruct (fetch_trades_batch_run to p acc w) as (res1 & Hrun & Hok & Hfail).
    cbn [for_each forallb]. unfold bind. rewrite Hrun.
    change (trades_plan_calls to (p :: plan))
      with (trades_plan_calls to [p] ++ trades_plan_calls to plan).
    cbn [take_while]. destruct (tr_ok to p) eqn:Ea.
    + destruct (Hok eq_refl) as [acc' ->].
      match goal with |- context [for_each _ plan acc' ?w1] =>
        destruct (IH acc' w1) as (res & logged & Hrun' & Hpre' & Hok' & Hfail') end.
      exists res, (trades_plan_calls to [p] ++ logged).
      rewrite Hrun', after_fetch_after_fetch.
      split; [f_equal; f_equal; by rewrite !ranges_after_trades_cons|].
      split; [by apply prefix_app|].
      split.
      * intros H. destruct (Hok' H) as [-> ?]. done.
      * done.
    + destruct (Hfail eq_refl) as [e ->].
      exists (inl e), (trades_plan_calls to [p]).
      split; [reflexivity|]. split; [by apply prefix_app_r|].
      split; [done|eauto].
Qed.

Lemma trades_fetch_stage_plan (addresses : list ChecksumEthAddress) (to : Timestamp)
    (w : World) :
  trades_fetch_stage _get_trades_graph addresses to w
  = for_each (trades_planned to) (trades_plan w addresses to) ∅ w.
Proof.
  unfold trades_fetch_stage, trades_plan. unfold bind at 1.
  rewrite classify_addresses_run. unfold delta_runs.
  rewrite for_each_app. unfold bind.
  destruct (nonempty (new_addresses_of w SUSHISWAP_TRADES_PREFIX addresses)).
  - cbn [for_each]. unfold bind at 1. unfold trades_planned at 1. cbn [fst snd].
    destruct (fetchb 0 to _ ∅ w) as [[e|ae] w1]; [done|].
    unfold ret at 1.
    destruct (nonempty _ && _).
    + cbn [for_each]. unfold bind, trades_planned, ret. cbn [fst snd].
      by destruct (fetchb _ to _ ae w1) as [[e|ae'] w2].
    + done.
  - cbn [for_each]. unfold ret at 1 3.
    destruct (nonempty _ && _).
    + cbn [for_each]. unfold bind, trades_planned, ret. cbn [fst snd].
      by destruct (fetchb _ to _ ∅ w) as [[e|ae'] w2].
    + done.
Qed.


Lemma events_readback_stage_run (addresses : list ChecksumEthAddress)
    (from to : Timestamp) (w : World) :
  events_readback_stage addresses from to w
  = (inr (readback_of (database w) addresses from to), w).
Proof.
  unfold events_readback_stage, readback_of.
  generalize (∅ : AddressEvents) as acc.
  induction addresses as [|a l IH]; intros acc; [done|].
  cbn [for_each foldl]. unfold bind, readback_step at 1, get_sushiswap_events, ret.
  apply IH.
Qed.

Lemma events_sync_run (addresses : list ChecksumEthAddress) (from to : Timestamp)
    (w : World) :
  let plan := events_plan w addresses to in
  exists res logged db',
    _get_events_balances _get_events_graph get_balances addresses from to w
    = (res, mkWorld db' (calls w ++ logged) (msg_errors w))
    /\ used_query_ranges db'
       = ranges_after_events to (take_while (ev_ok to) plan)
           (used_query_ranges (database w))
    /\ amm_swaps db' = amm_swaps (database w)
    /\ (forallb (ev_ok to) plan = false ->
        (exists e, res = inl e)
        /\ sushiswap_events db' = sushiswap_events (database w)
        /\ logged `prefix_of` events_plan_calls to plan)
    /\ (forallb (ev_ok to) plan = true ->
        exists address_events w1,
          events_fetch_stage _get_events_graph addresses to w = (inr address_events, w1)
          /\ sushiswap_events (database w1) = sushiswap_events (database w)
          /\ db' = db_add_sushiswap_events (all_events_of addresses address_events)
                     (database w1)
          /\ logged = events_plan_calls to plan
                      ++ (if from =? 0 then [GetBalancesCall addresses] else [])
          /\ res = res_bind (if from =? 0 then get_balances addresses else inr ∅)
                     (fun address_balances =>
                        inr (map_imap
                               (fun addr events =>
                                  Some (_calculate_events_balances addr events
                                          (default [] (address_balances !! addr))))
                               (readback_of db' addresses from to)))).
Proof.
  intros plan.
  destruct (events_loop_run to plan ∅ w) as (res1 & logged1 & Hrun & Hpre & Hok & Hfail).
  unfold _get_events_balances. unfold bind at 1.
  rewrite events_fetch_stage_plan. fold plan. rewrite Hrun.
  destruct (forallb (ev_ok to) plan) eqn:Eok.
  - destruct (Hok eq_refl) as [-> [ae ->]].
    unfold bind at 1, events_persist_stage, add_sushiswap_events, modify_db.
    unfold bind at 1. rewrite events_readback_stage_run.
    unfold events_reconcile_stage, bind, external, record_call, bind, lift, ret.
    cbn [database calls msg_errors after_fetch].
    destruct (from =? 0) eqn:Ef.
    + destruct (get_balances addresses) as [e|ab]; cbn [res_bind].
      * eexists _, (events_plan_calls to plan ++ [GetBalancesCall addresses]), _.
        split; [rewrite app_assoc; reflexivity|].
        split; [reflexivity|]. split; [reflexivity|]. split; [done|].
        intros _. eexists _, _. split; [reflexivity|].
        split; [reflexivity|]. split; [reflexivity|]. split; reflexivity.
      * eexists _, (events_plan_calls to plan ++ [GetBalancesCall addresses]), _.
        split; [rewrite app_assoc; reflexivity|].
        split; [reflexivity|]. split; [reflexivity|]. split; [done|].
        intros _. eexists _, _. split; [reflexivity|].
        split; [reflexivity|]. split; [reflexivity|]. split; reflexivity.
    + eexists _, (events_plan_calls to plan), _. split; [reflexivity|].
      split; [reflexivity|]. split; [reflexivity|]. split; [done|].
      intros _. eexists _, _. split; [reflexivity|].
      split; [reflexivity|]. split; [reflexivity|].
      split; [by rewrite app_nil_r|reflexivity].
  - destruct (Hfail eq_refl) as [e ->].
    eexists _, _, _. split; [reflexivity|].
    split; [reflexivity|]. split; [reflexivity|].
    split; [|done]. intros _. split; [eauto|]. split; [reflexivity|done].
Qed.


Lemma trades_sync_run (addresses : list ChecksumEthAddress) (from to : Timestamp)
    (w : World) :
  let plan := trades_plan w addresses to in
  exists res logged db',
    _get_trades _get_trades_graph _fetch_trades_from_db addresses from to false w
    = (res, mkWorld db' (calls w ++ logged) (msg_errors w))
    /\ used_query_ranges db'
       = ranges_after_trades to (take_while (tr_ok to) plan)
           (used_query_ranges (database w))
    /\ sushiswap_events db' = sushiswap_events (database w)
    /\ logged `prefix_of` trades_plan_calls to plan
    /\ (forallb (tr_ok to) plan = false ->
        (exists e, res = inl e) /\ amm_swaps db' = amm_swaps (database w))
    /\ (forallb (tr_ok to) plan = true ->
        logged = trades_plan_calls to plan
        /\ (exists trades, res = inr trades)
        /\ exists address_amm_trades w1,
             trades_fetch_stage _get_trades_graph addresses to w
             = (inr address_amm_trades, w1)
             /\ db' = db_add_amm_swaps (all_swaps_of addresses address_amm_trades)
                        (database w1)).
Proof.
  intros plan.
  destruct (trades_loop_run to plan ∅ w) as (res1 & logged1 & Hrun & Hpre & Hok & Hfail).
  unfold _get_trades. unfold bind at 1.
  rewrite trades_fetch_stage_plan. fold plan. rewrite Hrun.
  destruct (forallb (tr_ok to) plan) eqn:Eok.
  - destruct (Hok eq_refl) as [-> [ae ->]].
    unfold bind, trades_persist_stage, add_amm_swaps, modify_db, fetch_trades_from_db.
    cbn [database calls msg_errors after_fetch].
    eexists _, _, _. split; [reflexivity|].
    split; [reflexivity|]. split; [reflexivity|]. split; [done|].
    split; [done|]. intros _. split; [done|]. split; [eauto|].
    eexists _, _. split; reflexivity.
  - destruct (Hfail eq_refl) as [e ->].
    eexists _, _, _. split; [reflexivity|].
    split; [reflexivity|]. split; [reflexivity|]. split; [done|].
    split; [|done]. intros _. split; [eauto|reflexivity].
Qed.

Lemma events_fetch_stage_world (addresses : list ChecksumEthAddress) (to : Timestamp)
    (w : World) :
  exists res logged,
    events_fetch_stage _get_events_graph addresses to w
    = (res, after_fetch w
              (ranges_after_events to (take_while (ev_ok to) (events_plan w addresses to))
                 (used_query_ranges (database w)))
              logged).
Proof.
  rewrite events_fetch_stage_plan.
  destruct (events_loop_run to (events_plan w addresses to) ∅ w)
    as (res & logged & Hrun & _). eauto.
Qed.

Lemma trades_fetch_stage_world (addresses : list ChecksumEthAddress) (to : Timestamp)
    (w : World) :
  exists res logged,
    trades_fetch_stage _get_trades_graph addresses to w
    = (res, after_fetch w
              (ranges_after_trades to (take_while (tr_ok to) (trades_plan w addresses to))
                 (used_query_ranges (database w)))
              logged).
Proof.
  rewrite trades_fetch_stage_plan.
  destruct (trades_loop_run to (trades_plan w addresses to) ∅ w)
    as (res & logged & Hrun & _). eauto.
Qed.

(** C1 (amended): in both syncs the used query range of an address is
    written, ending at [to_timestamp], as soon as the fetch covering the
    address has returned, before anything is written to the event
    store: when the fetch stage is over the stored ranges are the
    initial ones overwritten for exactly the fetches that returned
    before the first one that raised, and the store is as it was; the
    rest of the sync leaves the ranges alone and, if every fetch
    returned, writes the fetched records in one go.  When a fetch
    raises, the sync ends with an exception and the event store is as
    it was, and the range of an address whose fetch raised is as it
    was. *)
Theorem range_written_when_fetch_returns (addresses : list ChecksumEthAddress)
    (from to : Timestamp) (w : World) :
  let plan_e := events_plan w addresses to in
  let run_e := _get_events_balances _get_events_graph get_balances addresses from to w in
  let stage_e := events_fetch_stage _get_events_graph addresses to w in
  let plan_t := trades_plan w addresses to in
  let run_t :=
    _get_trades _get_trades_graph _fetch_trades_from_db addresses from to false w in
  let stage_t := trades_fetch_stage _get_trades_graph addresses to w in
  ((used_query_ranges (database (snd stage_e))
    = ranges_after_events to (take_while (ev_ok to) plan_e)
        (used_query_ranges (database w))
    /\ sushiswap_events (database (snd stage_e)) = sushiswap_events (database w))
   /\ used_query_ranges (database (snd run_e))
      = used_query_ranges (database (snd stage_e))
   /\ (forallb (ev_ok to) plan_e = true ->
       exists address_events,
         fst stage_e = inr address_events
         /\ database (snd run_e)
            = db_add_sushiswap_events (all_events_of addresses address_events)
                (database (snd stage_e)))
   /\ (forallb (ev_ok to) plan_e = false ->
       is_ok (fst run_e) = false
       /\ sushiswap_events (database (snd run_e)) = sushiswap_events (database w))
   /\ (forall p, p ∈ plan_e -> ev_ok to p = false ->
       stored_range (snd run_e) SUSHISWAP_EVENTS_PREFIX (fst p)
       = stored_range w SUSHISWAP_EVENTS_PREFIX (fst p)))
  /\ ((used_query_ranges (database (snd stage_t))
       = ranges_after_trades to (take_while (tr_ok to) plan_t)
           (used_query_ranges (database w))
       /\ amm_swaps (database (snd stage_t)) = amm_swaps (database w))
      /\ used_query_ranges (database (snd run_t))
         = used_query_ranges (database (snd stage_t))
      /\ (forallb (tr_ok to) plan_t = true ->
          exists address_amm_trades,
            fst stage_t = inr address_amm_trades
            /\ database (snd run_t)
               = db_add_amm_swaps (all_swaps_of addresses address_amm_trades)
                   (database (snd stage_t)))
      /\ (forallb (tr_ok to) plan_t = false ->
          is_ok (fst run_t) = false
          /\ amm_swaps (database (snd run_t)) = amm_swaps (database w))
      /\ (forall p a, p ∈ plan_t -> tr_ok to p = false -> a ∈ fst p ->
          stored_range (snd run_t) SUSHISWAP_TRADES_PREFIX a
          = stored_range w SUSHISWAP_TRADES_PREFIX a)).
Proof.
  intros plan_e run_e stage_e plan_t run_t stage_t. split.
  - destruct (events_sync_run addresses from to w)
      as (res & logged & db' & Hrun & Hr & _ & Hfail & Hok).
    destruct (events_fetch_stage_world addresses to w) as (res_s & logged_s & Hstage).
    subst run_e stage_e. rewrite Hrun, Hstage. cbn [fst snd database after_fetch].
    cbn [used_query_ranges sushiswap_events].
    split; [done|]. split; [exact Hr|]. split; [|split].
    + intros H. destruct (Hok H) as (ae & w1 & Hs & _ & Hdb & _).
      rewrite Hstage in Hs. injection Hs as -> <-. eauto.
    + intros H. destruct (Hfail H) as ([e ->] & He & _). done.
    + intros p Hp Hbad. unfold stored_range. cbn [database]. rewrite Hr.
      apply write_ranges_lookup_ne. intros q Hq Hname.
      apply elem_of_take_while in Hq as [Hq Hqok].
      apply entry_name_inj in Hname.
      assert (q = p) as -> by (by eapply plan_entries_same_address).
      congruence.
  - destruct (trades_sync_run addresses from to w)
      as (res & logged & db' & Hrun & Hr & _ & _ & Hfail & Hok).
    destruct (trades_fetch_stage_world addresses to w) as (res_s & logged_s & Hstage).
    subst run_t stage_t. rewrite Hrun, Hstage. cbn [fst snd database after_fetch].
    cbn [used_query_ranges amm_swaps].
    split; [done|]. split; [exact Hr|]. split; [|split].
    + intros H. destruct (Hok H) as (_ & _ & ae & w1 & Hs & Hdb).
      rewrite Hstage in Hs. injection Hs as -> <-. eauto.
    + intros H. destruct (Hfail H) as ([e ->] & He). done.
    + intros p a Hp Hbad Ha. unfold stored_range. cbn [database]. rewrite Hr.
      apply write_ranges_lookup_ne. intros q' Hq' Hname.
      apply entry_name_inj in Hname.
      apply list_elem_of_In, in_flat_map in Hq' as (q & Hq & Hq').
      apply list_elem_of_In, elem_of_take_while in Hq as [Hq Hqok].
      apply list_elem_of_In in Hq'.
      assert (Hq'' : q' ∈ plan_entries w SUSHISWAP_TRADES_PREFIX addresses to).
      { rewrite <- trades_plan_entries. apply list_elem_of_In, in_flat_map.
        exists q. split; by apply list_elem_of_In. }
      assert (Hp' : (a, snd p) ∈ plan_entries w SUSHISWAP_TRADES_PREFIX addresses to).
      { rewrite <- trades_plan_entries. apply list_elem_of_In, in_flat_map.
        exists p. split; [by apply list_elem_of_In|].
        apply list_elem_of_In, list_elem_of_fmap. by exists a. }
      pose proof (plan_entries_same_address _ _ _ _ _ _ Hq'' Hp' Hname) as ->.
      apply list_elem_of_fmap in Hq' as (a' & [= <- Hs] & Ha').
      (* [q] and [p] are batches of the plan that both hold [a] *)
      assert (q = p) as ->; [|congruence].
      subst plan_t. unfold trades_plan in Hp, Hq.
      apply elem_of_app in Hp, Hq.
      assert (Hnew : forall b, b ∈ (if nonempty
                 (new_addresses_of w SUSHISWAP_TRADES_PREFIX addresses)
               then [(new_addresses_of w SUSHISWAP_TRADES_PREFIX addresses, 0)]
               else []) -> a ∈ fst b ->
               b = (new_addresses_of w SUSHISWAP_TRADES_PREFIX addresses, 0)
               /\ is_new w SUSHISWAP_TRADES_PREFIX a = true).
      { intros b Hb Hab. destruct (nonempty _); [|by apply elem_of_nil in Hb].
        apply list_elem_of_singleton in Hb as ->. split; [done|].
        by apply elem_of_new_addresses in Hab as [_ ?]. }
      assert (Hex : forall b, b ∈ (if delta_runs w SUSHISWAP_TRADES_PREFIX addresses to
               then [(existing_addresses_of w SUSHISWAP_TRADES_PREFIX addresses,
                      min_end_ts_of w SUSHISWAP_TRADES_PREFIX addresses to)]
               else []) -> a ∈ fst b ->
               b = (existing_addresses_of w SUSHISWAP_TRADES_PREFIX addresses,
                    min_end_ts_of w SUSHISWAP_TRADES_PREFIX addresses to)
               /\ is_new w SUSHISWAP_TRADES_PREFIX a = false).
      { intros b Hb Hab. destruct (delta_runs _ _ _ _); [|by apply elem_of_nil in Hb].
        apply list_elem_of_singleton in Hb as ->. split; [done|].
        by apply elem_of_existing_addresses in Hab as [_ ?]. }
      destruct Hp as [Hp|Hp], Hq as [Hq|Hq].
      * destruct (Hnew _ Hp Ha) as [-> _], (Hnew _ Hq Ha') as [-> _]. done.
      * destruct (Hnew _ Hp Ha) as [_ ?], (Hex _ Hq Ha') as [_ ?]. congruence.
      * destruct (Hex _ Hp Ha) as [_ ?], (Hnew _ Hq Ha') as [_ ?]. congruence.
      * destruct (Hex _ Hp Ha) as [-> _], (Hex _ Hq Ha') as [-> _]. done.
Qed.


(** C2 (amended): for an address with a stored range [(s0, e0)],
    [s0 <= e0], a later sync either leaves the stored range as it is or
    overwrites it with [(m, to_timestamp)], where [m], the minimum
    stored end over the addresses of the call that have a range, is
    below [to_timestamp]; so start <= end is preserved, but the start
    is not kept.  When the address is synced alone neither the start
    nor the end moves backward. *)
Theorem stored_range_after_later_sync (addresses : list ChecksumEthAddress)
    (from to : Timestamp) (w : World) (a : ChecksumEthAddress) (s0 e0 : Timestamp) :
  a ∈ addresses -> s0 <= e0 ->
  let run_e := _get_events_balances _get_events_graph get_balances addresses from to w in
  let run_t :=
    _get_trades _get_trades_graph _fetch_trades_from_db addresses from to false w in
  (stored_range w SUSHISWAP_EVENTS_PREFIX a = Some (s0, e0) ->
   let m := min_end_ts_of w SUSHISWAP_EVENTS_PREFIX addresses to in
   exists s1 e1,
     stored_range (snd run_e) SUSHISWAP_EVENTS_PREFIX a = Some (s1, e1)
     /\ s1 <= e1
     /\ ((s1 = s0 /\ e1 = e0)
         \/ (s1 = m /\ e1 = to /\ m < to
             /\ is_minimum m (stored_ends w SUSHISWAP_EVENTS_PREFIX addresses)))
     /\ (addresses = [a] -> s0 <= s1 /\ e0 <= e1))
  /\ (stored_range w SUSHISWAP_TRADES_PREFIX a = Some (s0, e0) ->
      let m := min_end_ts_of w SUSHISWAP_TRADES_PREFIX addresses to in
      exists s1 e1,
        stored_range (snd run_t) SUSHISWAP_TRADES_PREFIX a = Some (s1, e1)
        /\ s1 <= e1
        /\ ((s1 = s0 /\ e1 = e0)
            \/ (s1 = m /\ e1 = to /\ m < to
                /\ is_minimum m (stored_ends w SUSHISWAP_TRADES_PREFIX addresses)))
        /\ (addresses = [a] -> s0 <= s1 /\ e0 <= e1)).
Proof.
  intros Ha Hse run_e run_t. split; intros Hr m.
  - destruct (events_sync_run addresses from to w)
      as (res & logged & db' & Hrun & Hrg & _).
    subst run_e. rewrite Hrun. unfold stored_range at 1. cbn [snd database].
    rewrite Hrg. apply later_range_cases; [done..|].
    intros q Hq. by apply elem_of_take_while in Hq as [? _].
  - destruct (trades_sync_run addresses from to w)
      as (res & logged & db' & Hrun & Hrg & _).
    subst run_t. rewrite Hrun. unfold stored_range at 1. cbn [snd database].
    rewrite Hrg. apply later_range_cases; [done..|].
    intros q Hq. rewrite <- trades_plan_entries.
    apply list_elem_of_In, in_flat_map in Hq as (p & Hp & Hq).
    apply list_elem_of_In, elem_of_take_while in Hp as [Hp _].
    apply list_elem_of_In, in_flat_map. exists p. split; [by apply list_elem_of_In|done].
Qed.

(** C3: in both syncs the fetches are made in the order of the plan and
    nothing else is requested: each address without a stored range is
    fetched over [0, to_timestamp]; the addresses with a stored range
    share one window [m, to_timestamp], [m] being the minimum stored
    end among them (one request per address and event type for events,
    one request for the whole batch for trades), and this delta fetch
    is left out altogether when [to_timestamp] is not greater than [m].
    The requests sent are a prefix of the planned ones, all of them
    when no fetch raises. *)
Theorem sync_fetch_windows (addresses : list ChecksumEthAddress)
    (to : Timestamp) (w : World) :
  let new_e := new_addresses_of w SUSHISWAP_EVENTS_PREFIX addresses in
  let old_e := existing_addresses_of w SUSHISWAP_EVENTS_PREFIX addresses in
  let new_t := new_addresses_of w SUSHISWAP_TRADES_PREFIX addresses in
  let old_t := existing_addresses_of w SUSHISWAP_TRADES_PREFIX addresses in
  let plan_e := events_plan w addresses to in
  let plan_t := trades_plan w addresses to in
  (forall m,
     is_minimum m (stored_ends w SUSHISWAP_EVENTS_PREFIX addresses) \/ old_e = [] ->
     plan_e = ((fun a => (a, 0)) <$> new_e)
              ++ (if nonempty old_e && (m <? to)
                  then (fun a => (a, m)) <$> old_e else []))
  /\ (forall m,
        is_minimum m (stored_ends w SUSHISWAP_TRADES_PREFIX addresses) \/ old_t = [] ->
        plan_t = (if nonempty new_t then [(new_t, 0)] else [])
                 ++ (if nonempty old_t && (m <? to) then [(old_t, m)] else []))
  /\ (exists logged,
        calls (snd (events_fetch_stage _get_events_graph addresses to w))
        = calls w ++ logged
        /\ logged `prefix_of` events_plan_calls to plan_e
        /\ (forallb (ev_ok to) plan_e = true -> logged = events_plan_calls to plan_e))
  /\ (exists logged,
        calls (snd (trades_fetch_stage _get_trades_graph addresses to w))
        = calls w ++ logged
        /\ logged `prefix_of` trades_plan_calls to plan_t
        /\ (forallb (tr_ok to) plan_t = true -> logged = trades_plan_calls to plan_t)).
Proof.
  intros new_e old_e new_t old_t plan_e plan_t.
  split; [|split; [|split]].
  - intros m Hm. subst plan_e new_e old_e. unfold events_plan.
    destruct (plan_entries_shape SUSHISWAP_EVENTS_PREFIX w addresses to m Hm) as [Hd Hmin].
    rewrite <- Hd. destruct (delta_runs _ _ _ _); [|done]. by rewrite Hmin.
  - intros m Hm. subst plan_t new_t old_t. unfold trades_plan.
    destruct (plan_entries_shape SUSHISWAP_TRADES_PREFIX w addresses to m Hm) as [Hd Hmin].
    rewrite <- Hd. destruct (delta_runs _ _ _ _); [|done]. by rewrite Hmin.
  - rewrite events_fetch_stage_plan.
    destruct (events_loop_run to plan_e ∅ w) as (res & logged & Hrun & Hpre & Hok & _).
    fold plan_e. rewrite Hrun. exists logged. split; [done|]. split; [done|].
    intros H. by destruct (Hok H).
  - rewrite trades_fetch_stage_plan.
    destruct (trades_loop_run to plan_t ∅ w) as (res & logged & Hrun & Hpre & Hok & _).
    fold plan_t. rewrite Hrun. exists logged. split; [done|]. split; [done|].
    intros H. by destruct (Hok H).
Qed.


(** C7: [get_balances], the live balance snapshot, is requested only
    when [from_timestamp == 0]: for any other [from_timestamp] no such
    request is among the calls of the sync and the profit/loss of every
    address is computed from its events and the empty snapshot, whose
    live balance term is zero for every pool; for [from_timestamp == 0]
    the request is the last call once all fetches have returned, and
    the computation uses the balances it answered. *)
Theorem balances_snapshot_only_for_full_history (addresses : list ChecksumEthAddress)
    (from to : Timestamp) (w : World) :
  let run := _get_events_balances _get_events_graph get_balances addresses from to w in
  let plan := events_plan w addresses to in
  exists logged,
    calls (snd run) = calls w ++ logged
    /\ (from <> 0 ->
        Forall (fun c => is_GetBalancesCall c = false) logged
        /\ forall result, fst run = inr result ->
             result = map_imap
                        (fun addr events =>
                           Some (_calculate_events_balances addr events []))
                        (readback_of (database (snd run)) addresses from to))
    /\ (from = 0 ->
        (forallb (ev_ok to) plan = true ->
         last logged = Some (GetBalancesCall addresses))
        /\ forall result, fst run = inr result ->
             exists address_balances,
               get_balances addresses = inr address_balances
               /\ result = map_imap
                             (fun addr events =>
                                Some (_calculate_events_balances addr events
                                        (default [] (address_balances !! addr))))
                             (readback_of (database (snd run)) addresses from to))
    /\ (forall pool, snapshot_term [] pool = ZERO_BALANCE)
    /\ (forall addr events,
          _calculate_events_balances addr events []
          = (fun pool =>
               mkProfitLoss pool
                 (mkBalance (Qplus ZERO (events_net ev_amount pool events))
                            (Qplus ZERO (events_net ev_usd_value pool events))))
            <$> remove_dups (ev_pool_address <$> events)).
Proof.
  intros run plan.
  destruct (events_sync_run addresses from to w)
    as (res & logged & db' & Hrun & _ & _ & Hfail & Hok).
  subst run plan. rewrite Hrun. cbn [fst snd calls database].
  exists logged. split; [done|].
  destruct (forallb (ev_ok to) (events_plan w addresses to)) eqn:Eok.
  - destruct (Hok eq_refl) as (ae & w1 & _ & _ & _ & -> & ->).
    split; [|split; [|done]].
    + intros Hf. apply Z.eqb_neq in Hf. rewrite Hf. rewrite app_nil_r. cbn [res_bind].
      split; [apply events_plan_calls_not_balances|].
      intros result [= <-]. apply map_imap_ext. intros a.
      destruct (readback_of _ addresses from to !! a); [cbn|done].
      by rewrite lookup_empty.
    + intros ->. cbn [Z.eqb]. split; [intros _; apply last_snoc|].
      intros result Hres. destruct (get_balances addresses) as [e|ab]; [done|].
      exists ab. split; [done|]. by injection Hres as <-.
  - destruct (Hfail eq_refl) as ([e ->] & _ & Hpre).
    split; [|split; [|done]].
    + intros _. split; [|done].
      destruct Hpre as [k Hk].
      pose proof (events_plan_calls_not_balances to (events_plan w addresses to)) as Hall.
      rewrite Hk in Hall. by apply Forall_app in Hall as [? _].
    + intros _. split; [intros [=]|]. intros ? [=].
Qed.

(** C8: the events read back from the store for an address and a window
    are kept sorted ascending by the pair (timestamp, log_index): the
    list the read-back keeps for an address is a rearrangement of what
    the store returned for it, ordered by that key; it is a function of
    the stored events alone, and it is the list the profit/loss of the
    address is computed from. *)
Theorem readback_sorted_by_timestamp_log_index (addresses : list ChecksumEthAddress)
    (from to : Timestamp) (w : World) :
  exists db_address_events,
    events_readback_stage addresses from to w = (inr db_address_events, w)
    /\ db_address_events = readback_of (database w) addresses from to
    /\ (forall a evs,
          db_address_events !! a = Some evs ->
          StronglySorted event_key_le_prop evs
          /\ evs ≡ₚ db_get_sushiswap_events (database w) from to a)
    /\ (forall result w',
          _get_events_balances _get_events_graph get_balances addresses from to w
          = (inr result, w') ->
          forall a r, result !! a = Some r ->
            exists evs balances,
              r = _calculate_events_balances a evs balances
              /\ StronglySorted event_key_le_prop evs
              /\ evs ≡ₚ db_get_sushiswap_events (database w') from to a).
Proof.
  exists (readback_of (database w) addresses from to).
  split; [apply events_readback_stage_run|]. split; [done|].
  assert (H : forall db a evs,
    readback_of db addresses from to !! a = Some evs ->
    StronglySorted event_key_le_prop evs /\ evs ≡ₚ db_get_sushiswap_events db from to a).
  { intros db a evs (_ & _ & ->)%readback_of_lookup.
    split; [apply sort_events_sorted|apply sort_by_perm]. }
  split; [apply H|].
  intros result w' Hrun a r Hr.
  destruct (events_sync_run addresses from to w)
    as (res & logged & db' & Hrun' & _ & _ & Hfail & Hok).
  rewrite Hrun in Hrun'. injection Hrun' as <- ->.
  destruct (forallb (ev_ok to) (events_plan w addresses to)) eqn:Eok;
    [|by destruct (Hfail eq_refl) as ([e [=]] & _)].
  destruct (Hok eq_refl) as (ae & w1 & _ & _ & _ & _ & Hres).
  destruct (if from =? 0 then get_balances addresses else inr ∅) as [e|ab];
    [done|]. cbn [res_bind] in Hres. injection Hres as ->.
  rewrite map_lookup_imap in Hr.
  destruct (readback_of db' addresses from to !! a) as [evs|] eqn:Ev; [|done].
  cbn in Hr. injection Hr as <-.
  exists evs, (default [] (ab !! a)). split; [done|]. cbn [database]. by apply H.
Qed.

(** C10: when [_get_events_balances] returns, its result has an entry
    for an address exactly when the address was asked for and the store
    holds at least one of its events inside the window; no address is
    mapped to an empty profit/loss list. *)
Theorem result_only_for_addresses_with_events (addresses : list ChecksumEthAddress)
    (from to : Timestamp) (w w' : World) (result : AddressEventsBalances) :
  _get_events_balances _get_events_graph get_balances addresses from to w
  = (inr result, w') ->
  forall a,
    (is_Some (result !! a)
     <-> a ∈ addresses /\ db_get_sushiswap_events (database w') from to a <> [])
    /\ result !! a <> Some [].
Proof.
  intros Hrun a.
  destruct (events_sync_run addresses from to w)
    as (res & logged & db' & Hrun' & _ & _ & Hfail & Hok).
  rewrite Hrun in Hrun'. injection Hrun' as <- ->.
  destruct (forallb (ev_ok to) (events_plan w addresses to)) eqn:Eok;
    [|by destruct (Hfail eq_refl) as ([e [=]] & _)].
  destruct (Hok eq_refl) as (ae & w1 & _ & _ & _ & _ & Hres).
  destruct (if from =? 0 then get_balances addresses else inr ∅) as [e|ab];
    [done|]. cbn [res_bind] in Hres. injection Hres as ->.
  rewrite map_lookup_imap. cbn [database].
  destruct (readback_of db' addresses from to !! a) as [evs|] eqn:Ev; cbn.
  - apply readback_of_lookup in Ev as (Ha & Hne & ->).
    split; [split; [done|eauto]|].
    intros [= Hnil]. revert Hnil. apply calculate_events_balances_nonempty.
    intros Hs. apply Hne. apply Permutation_nil_r. rewrite <- Hs.
    symmetry. apply sort_by_perm.
  - split; [|done]. split; [by intros [? ?]|].
    intros [Ha Hne]. exfalso.
    assert (Hs : readback_of db' addresses from to !! a
                 = Some (sort_by event_key_le (db_get_sushiswap_events db' from to a))).
    { by apply readback_of_lookup. }
    congruence.
Qed.

End SyncProps.

(** ** Paginated subgraph queries *)

Lemma after_queries_nil (w : World) : after_queries w [] [] = w.
Proof. destruct w as [db c m]. unfold after_queries. simpl. by rewrite !app_nil_r. Qed.

Lemma after_queries_compose (w : World) r1 m1 r2 m2 :
  after_queries (after_queries w r1 m1) r2 m2 = after_queries w (r1 ++ r2) (m1 ++ m2).
Proof. unfold after_queries. simpl. by rewrite fmap_app, !app_assoc. Qed.

Lemma res_fold_app {A B} (f : B -> A -> Result B) (l1 l2 : list A) (b : B) :
  res_fold f (l1 ++ l2) b = res_bind (res_fold f l1 b) (res_fold f l2).
Proof.
  revert b. induction l1 as [|x l1 IH]; intros b; simpl; [done|].
  destruct (f b x) as [e|b']; simpl; [done|]. apply IH.
Qed.

Lemma res_fold_concat {A B} (f : B -> A -> Result B) (ps : list (list A)) (b : B) :
  res_fold (fun acc page => res_fold f page acc) ps b = res_fold f (concat ps) b.
Proof.
  revert b. induction ps as [|p ps IH]; intros b; simpl; [done|].
  rewrite res_fold_app. destruct (res_fold f p b) as [e|b']; simpl; [done|]. apply IH.
Qed.

Lemma res_fold_pure_concat {A B} (g : B -> A -> B) (ps : list (list A)) (b : B) :
  res_fold (fun acc page => inr (foldl g acc page)) ps b = inr (foldl g b (concat ps)).
Proof.
  revert b. induction ps as [|p ps IH]; intros b; simpl; [done|].
  rewrite foldl_app. apply IH.
Qed.

Section Pages.

Context {A : Type} (rs : list A) (L : Z).
Hypothesis L_pos : 0 < L.

Lemma to_nat_offset (i : nat) : Z.to_nat (Z.of_nat i * L) = (i * Z.to_nat L)%nat.
Proof. rewrite Z2Nat.inj_mul by lia. by rewrite Nat2Z.id. Qed.

Lemma page_of_length (i : nat) :
  length (page_of rs L (Z.of_nat i * L))
  = Nat.min (Z.to_nat L) (length rs - i * Z.to_nat L).
Proof. unfold page_of. by rewrite length_take, length_drop, to_nat_offset. Qed.

Lemma full_page (i : nat) :
  (i < length rs / Z.to_nat L)%nat ->
  Z.of_nat (length (page_of rs L (Z.of_nat i * L))) = L.
Proof.
  intros Hi. rewrite page_of_length.
  assert (Hn : (Z.to_nat L <> 0)%nat) by lia.
  pose proof (Nat.Div0.mul_div_le (length rs) (Z.to_nat L)) as Hle.
  assert ((S i * Z.to_nat L <= Z.to_nat L * (length rs / Z.to_nat L))%nat).
  { rewrite (Nat.mul_comm (Z.to_nat L)). apply Nat.mul_le_mono_r. lia. }
  cbn [Nat.mul] in *. lia.
Qed.

Lemma short_page :
  Z.of_nat (length (page_of rs L (Z.of_nat (length rs / Z.to_nat L) * L))) < L.
Proof.
  rewrite page_of_length.
  assert (Hn : (Z.to_nat L <> 0)%nat) by lia.
  pose proof (Nat.mul_succ_div_gt (length rs) (Z.to_nat L) Hn) as Hgt.
  pose proof (Nat.Div0.mul_div_le (length rs) (Z.to_nat L)) as Hle.
  rewrite (Nat.mul_comm (length rs / Z.to_nat L)).
  rewrite Nat.mul_succ_r in Hgt. lia.
Qed.

Lemma concat_full_pages (k : nat) :
  concat ((fun i => page_of rs L (Z.of_nat i * L)) <$> seq 0 k)
  = take (k * Z.to_nat L) rs.
Proof.
  induction k as [|k IH]; [done|].
  rewrite seq_S, fmap_app, concat_app, IH. cbn [fmap list_fmap concat Nat.add].
  rewrite app_nil_r. unfold page_of. rewrite to_nat_offset, take_take_drop.
  f_equal. lia.
Qed.

Lemma pages_of_split :
  pages_of rs L
  = ((fun i => page_of rs L (Z.of_nat i * L)) <$> seq 0 (length rs / Z.to_nat L))
    ++ [page_of rs L (Z.of_nat (length rs / Z.to_nat L) * L)].
Proof.
  unfold pages_of, page_offsets. rewrite <- list_fmap_compose, seq_S, fmap_app. done.
Qed.

Lemma concat_pages_of : concat (pages_of rs L) = rs.
Proof.
  rewrite pages_of_split, concat_app, concat_full_pages.
  cbn [concat]. rewrite app_nil_r. unfold page_of.
  rewrite to_nat_offset.
  rewrite (take_ge (drop _ rs)).
  - apply take_drop.
  - pose proof short_page as Hs. rewrite page_of_length in Hs.
    rewrite length_drop. lia.
Qed.

End Pages.

Lemma request_count (N : nat) (L : Z) :
  0 < L ->
  let count := Z.of_nat (S (N / Z.to_nat L)) in
  (Z.of_nat N mod L <> 0 -> count = ceil_div (Z.of_nat N) L)
  /\ (Z.of_nat N mod L = 0 -> count = ceil_div (Z.of_nat N) L + 1).
Proof.
  intros HL count. subst count. unfold ceil_div.
  rewrite Nat2Z.inj_succ, Nat2Z.inj_div, Z2Nat.id by lia.
  pose proof (Z.div_mod (Z.of_nat N) L ltac:(lia)) as Hdm.
  pose proof (Z.mod_pos_bound (Z.of_nat N) L HL) as Hb.
  split; intros Hm.
  - apply Z.div_unique with (r := Z.of_nat N mod L - 1); lia.
  - assert (E : Z.of_nat N / L = (Z.of_nat N + L - 1) / L)
      by (apply Z.div_unique with (r := L - 1); lia).
    lia.
Qed.

Section PaginateProps.

Context {A Acc : Type}.
Variable request : Z -> GraphRequest.
Variable oracle : GraphRequest -> string + list A.
Variable strict : bool.
Variable process : Acc -> list A -> Result Acc.
Variable L : Z.

Abbreviation pag := (paginate request oracle strict process L).

Lemma shift_requests (off : Z) (n : nat) :
  (fun i => request (off + L + Z.of_nat i * L)) <$> seq 0 n
  = (fun i => request (off + Z.of_nat i * L)) <$> seq 1 n.
Proof.
  rewrite <- fmap_S_seq, <- list_fmap_compose.
  apply list_fmap_ext. intros i x _. cbn. f_equal. lia.
Qed.

(** After [length ps] full pages the loop stands at the next offset with
    the pages processed. *)
Lemma paginate_full_pages (ps : list (list A)) (off : Z) (acc acc' : Acc)
    (fuel : nat) (w : World) :
  Forall (fun p => Z.of_nat (length p) = L) ps ->
  (forall i p, ps !! i = Some p -> oracle (request (off + Z.of_nat i * L)) = inr p) ->
  res_fold process ps acc = inr acc' ->
  pag (length ps + fuel) off acc w
  = pag fuel (off + Z.of_nat (length ps) * L) acc'
      (after_queries w
         ((fun i => request (off + Z.of_nat i * L)) <$> seq 0 (length ps)) []).
Proof.
  revert off acc w.
  induction ps as [|p ps IH]; intros off acc w Hfull Hq Hproc.
  - simpl in *. injection Hproc as ->.
    by rewrite after_queries_nil, Z.add_0_r.
  - apply Forall_cons in Hfull as [Hp Hfull].
    cbn [length Nat.add paginate].
    pose proof (Hq 0%nat p eq_refl) as H0. cbn in H0. rewrite Z.add_0_r in H0.
    rewrite H0. cbn [res_fold] in Hproc.
    destruct (process acc p) as [e|acc1]; [done|]. cbn [res_bind] in Hproc.
    rewrite Hp, Z.ltb_irrefl.
    rewrite (IH (off + L) acc1); [|done| |done].
    + f_equal; [lia|]. rewrite shift_requests.
      unfold after_queries. cbn [database calls msg_errors seq fmap list_fmap].
      rewrite Z.add_0_r, !app_nil_r, <- app_assoc. reflexivity.
    + intros i q Hi. specialize (Hq (S i) q Hi).
      rewrite <- Hq. do 2 f_equal. lia.
Qed.

(** A short page ends the loop. *)
Lemma paginate_short_page (off : Z) (acc acc' : Acc) (page : list A)
    (fuel : nat) (w : World) :
  oracle (request off) = inr page ->
  Z.of_nat (length page) < L ->
  process acc page = inr acc' ->
  pag (S fuel) off acc w = (inr (Some acc'), after_queries w [request off] []).
Proof.
  intros Hq Hlen Hproc. cbn [paginate]. rewrite Hq, Hproc.
  apply Z.ltb_lt in Hlen. rewrite Hlen.
  unfold after_queries. cbn. by rewrite app_nil_r.
Qed.

(** A [RemoteError] ends the loop: raised again, or by [break]. *)
Lemma paginate_remote_error (off : Z) (acc : Acc) (msg : string)
    (fuel : nat) (w : World) :
  oracle (request off) = inl msg ->
  pag (S fuel) off acc w
  = (if strict then inl (RemoteError msg) else inr (Some acc),
     after_queries w [request off] [msg]).
Proof.
  intros Hq. cbn [paginate]. rewrite Hq. unfold after_queries. cbn.
  by destruct strict.
Qed.


(** A remote that holds the records [rs] and serves them by offset and
    limit is read to the end: one request per page, the short page
    included. *)
Lemma paginate_list_remote (rs : list A) (acc acc' : Acc) (fuel : nat) (w : World) :
  0 < L ->
  (forall offset, oracle (request offset) = inr (page_of rs L offset)) ->
  res_fold process (pages_of rs L) acc = inr acc' ->
  (length rs / Z.to_nat L < fuel)%nat ->
  pag fuel 0 acc w
  = (inr (Some acc'),
     after_queries w (request <$> page_offsets L (S (length rs / Z.to_nat L))) []).
Proof.
  intros HL Hq Hproc Hfuel.
  set (k := (length rs / Z.to_nat L)%nat) in *.
  rewrite (pages_of_split rs L) in Hproc. fold k in Hproc.
  rewrite res_fold_app in Hproc.
  destruct (res_fold process _ acc) as [e|acc1] eqn:Hfull; [done|].
  cbn [res_bind res_fold] in Hproc.
  destruct (process acc1 _) as [e|acc2] eqn:Hlast; [done|].
  cbn in Hproc. injection Hproc as ->.
  replace fuel with (length ((fun i => page_of rs L (Z.of_nat i * L)) <$> seq 0 k)
                     + S (fuel - S k))%nat
    by (rewrite length_fmap, length_seq; lia).
  rewrite (paginate_full_pages _ 0 acc acc1); [| |..].
  - rewrite length_fmap, length_seq. cbn [Z.add].
    rewrite (paginate_short_page _ acc1 acc' _ _ _ (Hq _)); [| |done].
    + rewrite after_queries_compose. do 2 f_equal.
      unfold page_offsets. rewrite seq_S, !fmap_app, <- list_fmap_compose. done.
    + by apply short_page.
  - apply Forall_forall. intros p Hp.
    apply list_elem_of_fmap in Hp as (i & -> & Hi).
    apply elem_of_seq in Hi. apply full_page; [done|]. fold k. lia.
  - intros i p Hi. rewrite list_lookup_fmap in Hi.
    destruct (seq 0 k !! i) as [j|] eqn:Hj; [|done].
    apply lookup_seq in Hj as [-> _]. cbn in Hi. injection Hi as <-.
    cbn [Z.add]. apply Hq.
  - done.
Qed.

(** [k] full pages, then a [RemoteError]. *)
Lemma paginate_error_after (ps : list (list A)) (acc acc' : Acc) (msg : string)
    (fuel : nat) (w : World) :
  Forall (fun p => Z.of_nat (length p) = L) ps ->
  (forall i p, ps !! i = Some p -> oracle (request (Z.of_nat i * L)) = inr p) ->
  oracle (request (Z.of_nat (length ps) * L)) = inl msg ->
  res_fold process ps acc = inr acc' ->
  (length ps < fuel)%nat ->
  pag fuel 0 acc w
  = (if strict then inl (RemoteError msg) else inr (Some acc'),
     after_queries w (request <$> page_offsets L (S (length ps))) [msg]).
Proof.
  intros Hfull Hq Herr Hproc Hfuel.
  replace fuel with (length ps + S (fuel - S (length ps)))%nat by lia.
  rewrite (paginate_full_pages ps 0 acc acc'); [|done|done|done].
  cbn [Z.add]. rewrite (paginate_remote_error _ _ msg); [|done].
  rewrite after_queries_compose. do 2 f_equal.
  unfold page_offsets. rewrite seq_S, !fmap_app, <- list_fmap_compose. done.
Qed.

End PaginateProps.



Lemma merge_legs_swaps (legs : list (AMMSwap * TradeType)) (t : AMMTrade) (s : AMMSwap) :
  t ∈ merge_legs legs -> s ∈ swaps t -> s ∈ (fst <$> legs).
Proof.
  revert t. induction legs as [|[s0 d0] legs IH]; intros t Ht Hs; cbn in *.
  { by apply elem_of_nil in Ht. }
  destruct (merge_legs legs) as [|t0 ts] eqn:Em.
  - apply list_elem_of_singleton in Ht as ->.
    destruct d0; cbn in Hs; apply list_elem_of_singleton in Hs as ->; left.
  - destruct (same_pool_and_direction s0 d0 t0).
    + apply elem_of_cons in Ht as [->|Ht].
      * cbn in Hs. apply elem_of_cons in Hs as [->|Hs]; [left|right].
        apply (IH t0); [left|done].
      * right. apply (IH t); [by right|done].
    + apply elem_of_cons in Ht as [->|Ht].
      * destruct d0; cbn in Hs; apply list_elem_of_singleton in Hs as ->; left.
      * right. by apply (IH t).
Qed.

Lemma tx_swaps_to_trades_directed (tx_swaps : list AMMSwap) (t : AMMTrade) (s : AMMSwap) :
  t ∈ _tx_swaps_to_trades tx_swaps -> s ∈ swaps t ->
  s ∈ tx_swaps /\ leg_direction s <> None.
Proof.
  unfold _tx_swaps_to_trades. intros Ht Hs.
  pose proof (merge_legs_swaps _ _ _ Ht Hs) as Hin.
  apply list_elem_of_fmap in Hin as ([s' d] & -> & Hin). cbn.
  apply list_elem_of_omap in Hin as (s0 & Hs0 & Hc).
  unfold classify_leg in Hc. destruct (leg_direction s0) as [d0|] eqn:Ed; [|done].
  injection Hc as -> ->. split; [|congruence].
  by rewrite (sort_by_perm _ tx_swaps) in Hs0.
Qed.


Section GraphProps.

Variable GRAPH_QUERY_LIMIT : Z.
Variable query_liquidityPositions : GraphRequest -> string + list RawLiquidityPosition.
Variable query_swaps : GraphRequest -> string + list RawSwapEntry.
Variable query_tokenDayDatas : GraphRequest -> string + list RawTokenDayData.
Variable deserialize_ethereum_address : string -> option ChecksumEthAddress.
Variable FVal_of_str : string -> option FVal.
Variable get_or_create_ethereum_token :
  string -> ChecksumEthAddress -> string -> Z -> EthereumToken.
Variable has_oracle : EthereumToken -> bool.
Variable today_epoch : Z.

Abbreviation L := GRAPH_QUERY_LIMIT.
Abbreviation balances_request := (Sushiswap.balances_request GRAPH_QUERY_LIMIT).
Abbreviation swaps_request := (Sushiswap.swaps_request GRAPH_QUERY_LIMIT).
Abbreviation prices_request := (Sushiswap.prices_request GRAPH_QUERY_LIMIT today_epoch).
Abbreviation process_lp :=
  (process_liquidity_position deserialize_ethereum_address FVal_of_str
     get_or_create_ethereum_token has_oracle).
Abbreviation process_entry :=
  (process_swap_entry deserialize_ethereum_address FVal_of_str
     get_or_create_ethereum_token).
Abbreviation process_tdd :=
  (process_token_day_data deserialize_ethereum_address FVal_of_str).

Lemma balances_loop_paginate (fuel : nat) (addresses_lower : list string) (offset : Z)
    (acc : ProtocolBalance) (w : World) :
  _get_balances_graph_loop L query_liquidityPositions deserialize_ethereum_address
    FVal_of_str get_or_create_ethereum_token has_oracle fuel addresses_lower offset acc w
  = paginate (balances_request addresses_lower) query_liquidityPositions true
      (fun acc page => res_fold process_lp page acc) L fuel offset acc w.
Proof.
  revert offset acc w. induction fuel as [|fuel IH]; intros offset acc w; [done|].
  cbn [_get_balances_graph_loop paginate].
  unfold bind at 1. unfold try_except, graph_query, external, bind, record_call, lift.
  unfold balances_request at 2.
  destruct (query_liquidityPositions _) as [msg|page].
  - reflexivity.
  - unfold bind. destruct (res_fold _ page acc) as [e|acc']; [done|].
    destruct (_ <? _); [done|]. apply IH.
Qed.

Lemma trades_loop_paginate (fuel : nat) (addr : string) (start_ts end_ts : Timestamp)
    (offset : Z) (trades : list AMMTrade) (w : World) :
  _get_trades_graph_for_address_loop L query_swaps deserialize_ethereum_address
    FVal_of_str get_or_create_ethereum_token fuel addr start_ts end_ts offset trades w
  = paginate (swaps_request addr start_ts end_ts) query_swaps false
      (fun trades page => inr (foldl (process_entry addr) trades page))
      L fuel offset trades w.
Proof.
  revert offset trades w. induction fuel as [|fuel IH]; intros offset trades w; [done|].
  cbn [_get_trades_graph_for_address_loop paginate].
  unfold bind at 1. unfold try_except, graph_query, external, bind, record_call, lift.
  unfold swaps_request at 2.
  destruct (query_swaps _) as [msg|page].
  - reflexivity.
  - unfold ret. destruct (_ <? _); [done|]. apply IH.
Qed.

Lemma prices_loop_paginate (fuel : nat) (token_ids : list string) (offset : Z)
    (acc : AssetToPrice) (w : World) :
  _get_unknown_asset_price_graph_loop L query_tokenDayDatas deserialize_ethereum_address
    FVal_of_str today_epoch fuel token_ids offset acc w
  = paginate (prices_request token_ids) query_tokenDayDatas true
      (fun acc page => res_fold process_tdd page acc) L fuel offset acc w.
Proof.
  revert offset acc w. induction fuel as [|fuel IH]; intros offset acc w; [done|].
  cbn [_get_unknown_asset_price_graph_loop paginate].
  unfold bind at 1. unfold try_except, graph_query, external, bind, record_call, lift.
  unfold prices_request at 2.
  destruct (query_tokenDayDatas _) as [msg|page].
  - reflexivity.
  - unfold bind. destruct (res_fold _ page acc) as [e|acc']; [done|].
    destruct (_ <? _); [done|]. apply IH.
Qed.


Abbreviation balances_graph :=
  (_get_balances_graph L query_liquidityPositions deserialize_ethereum_address
     FVal_of_str get_or_create_ethereum_token has_oracle).
Abbreviation trades_graph_for_address :=
  (_get_trades_graph_for_address L query_swaps deserialize_ethereum_address
     FVal_of_str get_or_create_ethereum_token).
Abbreviation prices_graph :=
  (_get_unknown_asset_price_graph L query_tokenDayDatas deserialize_ethereum_address
     FVal_of_str today_epoch).
Abbreviation swap_of := (swap_of_raw deserialize_ethereum_address FVal_of_str
                           get_or_create_ethereum_token).

(** C4: with a positive page size [L], each of the three pagination
    loops, run against a remote that holds [N] records and serves them
    by offset and limit, asks for the pages at offsets 0, L, 2L, ... and
    stops after the first short page: [N / L + 1] requests, which is
    [ceil(N/L)], or [ceil(N/L) + 1] when [L] divides [N]; the pages
    received are the records, each once and in order, and the result is
    what processing the [N] records in one pass gives. *)
Theorem pagination_reads_every_page :
  0 < L ->
  (forall addresses (rs : list RawLiquidityPosition) acc fuel w,
      (forall offset,
          query_liquidityPositions (balances_request (lower <$> addresses) offset)
          = inr (page_of rs L offset)) ->
      res_fold process_lp rs (mkProtocolBalance ∅ [] []) = inr acc ->
      (length rs / Z.to_nat L < fuel)%nat ->
      balances_graph fuel addresses w
      = (inr (Some acc),
         after_queries w
           (balances_request (lower <$> addresses)
              <$> page_offsets L (S (length rs / Z.to_nat L))) []))
  /\ (forall addr start_ts end_ts (rs : list RawSwapEntry) fuel w,
        (forall offset,
            query_swaps (swaps_request addr start_ts end_ts offset)
            = inr (page_of rs L offset)) ->
        (length rs / Z.to_nat L < fuel)%nat ->
        trades_graph_for_address fuel addr start_ts end_ts w
        = (inr (Some (foldl (process_entry addr) [] rs)),
           after_queries w
             (swaps_request addr start_ts end_ts
                <$> page_offsets L (S (length rs / Z.to_nat L))) []))
  /\ (forall unknown_assets (rs : list RawTokenDayData) acc fuel w,
        let token_ids := (fun a => lower (ethereum_address a)) <$> unknown_assets in
        (forall offset,
            query_tokenDayDatas (prices_request token_ids offset)
            = inr (page_of rs L offset)) ->
        res_fold process_tdd rs ∅ = inr acc ->
        (length rs / Z.to_nat L < fuel)%nat ->
        prices_graph fuel unknown_assets w
        = (inr (Some acc),
           after_queries w
             (prices_request token_ids
                <$> page_offsets L (S (length rs / Z.to_nat L))) []))
  /\ (forall N : nat,
        let count := Z.of_nat (length (page_offsets L (S (N / Z.to_nat L)))) in
        (Z.of_nat N mod L <> 0 -> count = ceil_div (Z.of_nat N) L)
        /\ (Z.of_nat N mod L = 0 -> count = ceil_div (Z.of_nat N) L + 1))
  /\ (forall (n i : nat), (i < n)%nat -> page_offsets L n !! i = Some (Z.of_nat i * L))
  /\ (forall (A : Type) (rs : list A), concat (pages_of rs L) = rs).
Proof.
  intros HL. split; [|split; [|split; [|split; [|split]]]].
  - intros addresses rs acc fuel w Hq Hproc Hfuel.
    unfold _get_balances_graph. rewrite balances_loop_paginate.
    apply paginate_list_remote; [done|done| |done].
    by rewrite res_fold_concat, concat_pages_of.
  - intros addr start_ts end_ts rs fuel w Hq Hfuel.
    unfold _get_trades_graph_for_address. rewrite trades_loop_paginate.
    apply paginate_list_remote; [done|done| |done].
    by rewrite res_fold_pure_concat, concat_pages_of.
  - intros unknown_assets rs acc fuel w token_ids Hq Hproc Hfuel.
    unfold _get_unknown_asset_price_graph. rewrite prices_loop_paginate.
    apply paginate_list_remote; [done|done| |done].
    by rewrite res_fold_concat, concat_pages_of.
  - intros N. unfold page_offsets. rewrite length_fmap, length_seq.
    by apply request_count.
  - intros n i Hi. unfold page_offsets. rewrite list_lookup_fmap.
    rewrite lookup_seq_lt by done. done.
  - intros A rs. by apply concat_pages_of.
Qed.

(** C5: when the remote answers [k] full pages and then raises a
    [RemoteError], the balance query and the price query raise that
    error, so that nothing of the pages read so far is returned, while
    the trade query returns the trades of the [k] pages it read; all
    three hand the message to the message aggregator. *)
Theorem remote_error_raised_or_prefix_kept (msg : string) :
  (forall addresses (ps : list (list RawLiquidityPosition)) acc fuel w,
      Forall (fun p => Z.of_nat (length p) = L) ps ->
      (forall i p, ps !! i = Some p ->
         query_liquidityPositions
           (balances_request (lower <$> addresses) (Z.of_nat i * L)) = inr p) ->
      query_liquidityPositions
        (balances_request (lower <$> addresses) (Z.of_nat (length ps) * L)) = inl msg ->
      res_fold process_lp (concat ps) (mkProtocolBalance ∅ [] []) = inr acc ->
      (length ps < fuel)%nat ->
      balances_graph fuel addresses w
      = (inl (RemoteError msg),
         after_queries w
           (balances_request (lower <$> addresses) <$> page_offsets L (S (length ps)))
           [msg]))
  /\ (forall unknown_assets (ps : list (list RawTokenDayData)) acc fuel w,
        let token_ids := (fun a => lower (ethereum_address a)) <$> unknown_assets in
        Forall (fun p => Z.of_nat (length p) = L) ps ->
        (forall i p, ps !! i = Some p ->
           query_tokenDayDatas (prices_request token_ids (Z.of_nat i * L)) = inr p) ->
        query_tokenDayDatas (prices_request token_ids (Z.of_nat (length ps) * L))
        = inl msg ->
        res_fold process_tdd (concat ps) ∅ = inr acc ->
        (length ps < fuel)%nat ->
        prices_graph fuel unknown_assets w
        = (inl (RemoteError msg),
           after_queries w
             (prices_request token_ids <$> page_offsets L (S (length ps))) [msg]))
  /\ (forall addr start_ts end_ts (ps : list (list RawSwapEntry)) fuel w,
        Forall (fun p => Z.of_nat (length p) = L) ps ->
        (forall i p, ps !! i = Some p ->
           query_swaps (swaps_request addr start_ts end_ts (Z.of_nat i * L)) = inr p) ->
        query_swaps (swaps_request addr start_ts end_ts (Z.of_nat (length ps) * L))
        = inl msg ->
        (length ps < fuel)%nat ->
        trades_graph_for_address fuel addr start_ts end_ts w
        = (inr (Some (foldl (process_entry addr) [] (concat ps))),
           after_queries w
             (swaps_request addr start_ts end_ts <$> page_offsets L (S (length ps)))
             [msg])).
Proof.
  split; [|split].
  - intros addresses ps acc fuel w Hfull Hq Herr Hproc Hfuel.
    unfold _get_balances_graph. rewrite balances_loop_paginate.
    rewrite (paginate_error_after _ _ _ _ _ ps _ acc msg); try done.
    by rewrite res_fold_concat.
  - intros unknown_assets ps acc fuel w token_ids Hfull Hq Herr Hproc Hfuel.
    unfold _get_unknown_asset_price_graph. rewrite prices_loop_paginate.
    rewrite (paginate_error_after _ _ _ _ _ ps _ acc msg); try done.
    by rewrite res_fold_concat.
  - intros addr start_ts end_ts ps fuel w Hfull Hq Herr Hfuel.
    unfold _get_trades_graph_for_address. rewrite trades_loop_paginate.
    rewrite (paginate_error_after _ _ _ _ _ ps _
               (foldl (process_entry addr) [] (concat ps)) msg); try done.
    by rewrite res_fold_pure_concat.
Qed.


End GraphProps.

(** ** The properties on the sample data *)

Import Samples.

(** C1, counterexample: "A" and "B" are new and the subgraph fails for
    "B".  The sync ends with the error and the event store is still
    empty, the event fetched for "A" was never written, yet the range
    of "A" already ends at [to_timestamp = 1000]. *)
Lemma range_advanced_though_nothing_written :
  let run := _get_events_balances graph_down_for_B no_balances ["A"; "B"] 0 1000
               empty_world in
  graph_down_for_B "A" 0 1000 MINT = inr [event_A]
  /\ fst run = inl (RemoteError "subgraph timeout")
  /\ sushiswap_events (database (snd run)) = []
  /\ stored_range (snd run) SUSHISWAP_EVENTS_PREFIX "A" = Some (0, 1000).
Proof. vm_compute. repeat split. Qed.

(** C2, counterexample: a later sync of "A" alone replaces the stored
    start 0 by the old end 1000; and a later sync of "A" and "B"
    together with [to_timestamp = 2000] moves the stored end of "B" back
    from 3000 to 2000. *)
Lemma later_sync_rewrites_start_and_end :
  let alone := _get_events_balances no_events no_balances ["A"] 0 2000 world_A_synced in
  let both := _get_events_balances no_events no_balances ["A"; "B"] 0 2000
                world_AB_synced in
  (stored_range world_A_synced SUSHISWAP_EVENTS_PREFIX "A" = Some (0, 1000)
   /\ stored_range (snd alone) SUSHISWAP_EVENTS_PREFIX "A" = Some (1000, 2000))
  /\ (stored_range world_AB_synced SUSHISWAP_EVENTS_PREFIX "B" = Some (0, 3000)
      /\ stored_range (snd both) SUSHISWAP_EVENTS_PREFIX "B" = Some (1000, 2000)).
Proof. vm_compute. repeat split. Qed.

(** C1, instance: "A" and "B" new, the subgraph down for "B". *)
Lemma range_written_when_fetch_returns_witness :
  let run := _get_events_balances graph_down_for_B no_balances ["A"; "B"] 0 1000
               empty_world in
  forallb (events_fetch_ok graph_down_for_B 1000)
          (events_plan empty_world ["A"; "B"] 1000) = false
  /\ is_ok (fst run) = false
  /\ sushiswap_events (database (snd run)) = sushiswap_events (database empty_world)
  /\ stored_range (snd run) SUSHISWAP_EVENTS_PREFIX "B"
     = stored_range empty_world SUSHISWAP_EVENTS_PREFIX "B".
Proof.
  intros run.
  destruct (range_written_when_fetch_returns graph_down_for_B no_trades no_db_trades
              no_balances ["A"; "B"] 0 1000 empty_world)
    as [(_ & _ & _ & Hfail & Hkeep) _].
  assert (Hbad : forallb (events_fetch_ok graph_down_for_B 1000)
                   (events_plan empty_world ["A"; "B"] 1000) = false) by reflexivity.
  split; [exact Hbad|].
  destruct (Hfail Hbad) as [H1 H2]. split; [exact H1|]. split; [exact H2|].
  apply (Hkeep ("B", 0)); [|reflexivity].
  apply list_elem_of_further, list_elem_of_here.
Defined.

(** C2, instance: "A", synced to 1000, is synced alone up to 2000. *)
Lemma stored_range_after_later_sync_witness :
  "A" ∈ ["A"] /\ 0 <= 1000
  /\ exists s1 e1,
       stored_range
         (snd (_get_events_balances no_events no_balances ["A"] 0 2000 world_A_synced))
         SUSHISWAP_EVENTS_PREFIX "A" = Some (s1, e1)
       /\ s1 <= e1 /\ 0 <= s1 /\ 1000 <= e1.
Proof.
  assert (Hin : "A" ∈ ["A"]) by apply list_elem_of_here.
  assert (Hle : 0 <= 1000) by lia.
  split; [exact Hin|]. split; [exact Hle|].
  destruct (stored_range_after_later_sync no_events no_trades no_db_trades no_balances
              ["A"] 0 2000 world_A_synced "A" 0 1000 Hin Hle) as [He _].
  destruct (He eq_refl) as (s1 & e1 & Hr & Hse & _ & Halone).
  exists s1, e1. split; [exact Hr|]. split; [exact Hse|]. exact (Halone eq_refl).
Defined.

(** C3, instance: "C" is new, "A" and "B" have ranges ending at 1000
    and 3000, and the sync goes up to 2000. *)
Lemma sync_fetch_windows_witness :
  is_minimum 1000 (stored_ends world_AB_synced SUSHISWAP_EVENTS_PREFIX ["A"; "B"; "C"])
  /\ events_plan world_AB_synced ["A"; "B"; "C"] 2000
     = [("C", 0); ("A", 1000); ("B", 1000)]
  /\ events_plan world_AB_synced ["A"; "B"; "C"] 1000 = [("C", 0)].
Proof.
  assert (Hmin : is_minimum 1000
            (stored_ends world_AB_synced SUSHISWAP_EVENTS_PREFIX ["A"; "B"; "C"])).
  { split; [apply list_elem_of_here|]. repeat constructor; discriminate. }
  split; [exact Hmin|]. split.
  - destruct (sync_fetch_windows no_events no_trades ["A"; "B"; "C"] 2000 world_AB_synced)
      as (He & _).
    rewrite (He 1000 (or_introl Hmin)). reflexivity.
  - destruct (sync_fetch_windows no_events no_trades ["A"; "B"; "C"] 1000 world_AB_synced)
      as (He & _).
    rewrite (He 1000 (or_introl Hmin)). reflexivity.
Defined.

(** C7, instance: a windowed query, [from_timestamp = 5]. *)
Lemma balances_snapshot_only_for_full_history_witness :
  5 <> 0
  /\ exists logged,
       calls (snd (_get_events_balances no_events no_balances ["A"] 5 2000 world_A_synced))
       = calls world_A_synced ++ logged
       /\ Forall (fun c => is_GetBalancesCall c = false) logged.
Proof.
  assert (Hne : 5 <> 0) by discriminate.
  split; [exact Hne|].
  destruct (balances_snapshot_only_for_full_history no_events no_balances
              ["A"] 5 2000 world_A_synced) as (logged & Hc & Hwin & _).
  exists logged. split; [exact Hc|]. exact (proj1 (Hwin Hne)).
Defined.

(** C8, instance: the three stored events of "A" read back in order. *)
Lemma readback_sorted_by_timestamp_log_index_witness :
  exists evs,
    readback_of (database world_A_synced) ["A"] 0 2000 !! "A" = Some evs
    /\ evs = [event_A_same_time; event_A; event_A_later]
    /\ StronglySorted event_key_le_prop evs.
Proof.
  destruct (readback_sorted_by_timestamp_log_index no_events no_balances
              ["A"] 0 2000 world_A_synced) as (m & _ & -> & Hs & _).
  exists [event_A_same_time; event_A; event_A_later].
  assert (Hl : readback_of (database world_A_synced) ["A"] 0 2000 !! "A"
               = Some [event_A_same_time; event_A; event_A_later]) by reflexivity.
  split; [exact Hl|]. split; [reflexivity|]. exact (proj1 (Hs _ _ Hl)).
Defined.

(** C10, instance: "A" has stored events in the window, "B" has none. *)
Lemma result_only_for_addresses_with_events_witness :
  let run := _get_events_balances no_events no_balances ["A"; "B"] 0 2000
               world_A_synced in
  exists result,
    run = (inr result, snd run)
    /\ is_Some (result !! "A")
    /\ result !! "B" = None.
Proof.
  intros run.
  set (result := match fst run with inr r => r | inl _ => ∅ end).
  assert (Hrun : run = (inr result, snd run)) by (vm_compute; reflexivity).
  exists result. split; [exact Hrun|].
  pose proof (result_only_for_addresses_with_events no_events no_balances
                ["A"; "B"] 0 2000 world_A_synced (snd run) result Hrun) as H.
  split.
  - apply (proj1 (H "A")). split; [apply list_elem_of_here|]. discriminate.
  - destruct (result !! "B") eqn:E; [|reflexivity].
    exfalso. assert (Hs : is_Some (result !! "B")) by (rewrite E; eauto).
    apply (proj1 (H "B")) in Hs as [_ Hne]. by apply Hne.
Defined.

(** C4, instance: five records, pages of two: three requests, at
    offsets 0, 2 and 4. *)
Lemma pagination_reads_every_page_witness :
  0 < 2
  /\ _get_trades_graph_for_address 2 swaps_remote sample_deserialize sample_FVal_of_str
       sample_token 3 "A" 0 100 empty_world
     = (inr (Some (foldl (process_swap_entry sample_deserialize sample_FVal_of_str
                            sample_token "A") [] five_entries)),
        after_queries empty_world
          (swaps_request 2 "A" 0 100 <$> [0; 2; 4]) []).
Proof.
  assert (HL : 0 < 2) by lia.
  split; [exact HL|].
  destruct (pagination_reads_every_page 2 (fun _ => inr []) swaps_remote (fun _ => inr [])
              sample_deserialize sample_FVal_of_str sample_token (fun _ => true) 0 HL)
    as (_ & Ht & _).
  apply (Ht "A" 0 100 five_entries 3%nat empty_world).
  - intros offset. reflexivity.
  - vm_compute. lia.
Defined.

(** C5, instance: one full page, then a [RemoteError]; and a balance
    query whose first request fails. *)
Lemma remote_error_raised_or_prefix_kept_witness :
  _get_trades_graph_for_address 2 swaps_remote_failing sample_deserialize
    sample_FVal_of_str sample_token 5 "A" 0 100 empty_world
  = (inr (Some (foldl (process_swap_entry sample_deserialize sample_FVal_of_str
                         sample_token "A") [] (take 2 five_entries))),
     after_queries empty_world (swaps_request 2 "A" 0 100 <$> [0; 2])
       ["subgraph timeout"])
  /\ _get_balances_graph 2 positions_remote_failing sample_deserialize sample_FVal_of_str
       sample_token (fun _ => true) 5 ["A"] empty_world
     = (inl (RemoteError "subgraph timeout"),
        after_queries empty_world (balances_request 2 ["a"] <$> [0]) ["subgraph timeout"]).
Proof.
  destruct (remote_error_raised_or_prefix_kept 2 positions_remote_failing
              swaps_remote_failing (fun _ => inr []) sample_deserialize sample_FVal_of_str
              sample_token (fun _ => true) 0 "subgraph timeout") as (Hb & _ & Ht).
  split.
  - apply (Ht "A" 0 100 [take 2 five_entries] 5%nat empty_world).
    + repeat constructor.
    + intros [|[|i]] p Hp; [|discriminate Hp..]. injection Hp as <-. reflexivity.
    + reflexivity.
    + vm_compute. lia.
  - apply (Hb ["A"] [] (mkProtocolBalance ∅ [] []) 5%nat empty_world).
    + constructor.
    + intros i p Hp. discriminate Hp.
    + reflexivity.
    + reflexivity.
    + vm_compute. lia.
Defined.


(** ** AdEx API dictionaries *)

Section AdexSerializeProps.
Import Adex AdexSerialize.

Variable Balance_serialize : Adex.Balance -> PyValue.
Variable str_FVal : Adex.FVal -> string.
Variable to_percentage : Adex.FVal -> string.

Abbreviation serialize_event := (StakingEvent_serialize Balance_serialize).
Abbreviation row_of_event := (StakingEvent_to_db_tuple str_FVal).

(** X1: the API dictionary and the database row of a staking event
    agree: the entries tx_hash, identity_address, timestamp, event_type
    and pool_id of the dictionary are the columns 0, 2, 3, 4 and 5 of
    the row, and a bond_id entry, when the dictionary has one, is
    column 8. *)
Theorem serialize_agrees_with_db_tuple (event : StakingEvent) :
  let d := serialize_event event in
  let row := row_of_event event in
  dict_get d "tx_hash" = PyValue_of_DBValue <$> row !! 0%nat
  /\ dict_get d "identity_address" = PyValue_of_DBValue <$> row !! 2%nat
  /\ dict_get d "timestamp" = PyValue_of_DBValue <$> row !! 3%nat
  /\ dict_get d "event_type" = PyValue_of_DBValue <$> row !! 4%nat
  /\ dict_get d "pool_id" = PyValue_of_DBValue <$> row !! 5%nat
  /\ (forall v, dict_get d "bond_id" = Some v ->
        PyValue_of_DBValue <$> row !! 8%nat = Some v).
Proof.
  destruct event; cbn; repeat split; try done; intros v [= <-]; done.
Qed.

(** X2: with a printer of amounts that tells any two amounts apart, the
    database row determines the event: two staking events, of the same
    class or not, that give the same row are the same event. *)
Theorem db_tuple_determines_event (e1 e2 : StakingEvent) :
  (forall x y, str_FVal x = str_FVal y -> x = y) ->
  row_of_event e1 = row_of_event e2 -> e1 = e2.
Proof.
  intros Hinj.
  destruct e1 as [[] | [] | [] | []], e2 as [[] | [] | [] | []]; cbn;
    intros H; try discriminate H.
  all: injection H; intros; simplify_eq.
  all: repeat match goal with
         | H : str_FVal _ = str_FVal _ |- _ => apply Hinj in H
         | b : Adex.Balance |- _ => destruct b
         end; cbn in *; by simplify_eq.
Qed.

(** X3: the pool_name entry of an event's dictionary is "Tom" for the
    Tom pool and [None] for every other pool id, never a missing key;
    and the dictionary has no entry for the staker's address, which
    only the database row keeps. *)
Theorem serialize_pool_name_and_address (event : StakingEvent) :
  let d := serialize_event event in
  dict_get d "pool_name"
  = Some (if decide (event_pool_id event = TOM_POOL_ID) then PStr "Tom" else PNone)
  /\ dict_get d "address" = None
  /\ row_of_event event !! 1%nat = Some (DBStr (event_address event)).
Proof.
  assert (Hname : forall pool_id,
            pool_name_of pool_id
            = if decide (pool_id = TOM_POOL_ID) then PStr "Tom" else PNone).
  { intros pool_id. unfold pool_name_of, POOL_ID_POOL_NAME.
    destruct (decide (pool_id = TOM_POOL_ID)) as [->|Hne].
    - by rewrite lookup_singleton_eq.
    - by rewrite lookup_singleton_ne. }
  destruct event; cbn; rewrite Hname; (split; [done|split; done]).
Qed.

(** X4: no dictionary writes a key twice, so no entry hides another;
    an event's dictionary lacks the bond_id key exactly when column 8
    of its row is [None]; and the dictionary of a staking balance does
    not show the unclaimed ADX balance: balances that differ only there
    serialize alike. *)
Theorem serialized_keys_distinct :
  (forall event, NoDup (dict_keys (serialize_event event)))
  /\ (forall balance,
        NoDup (dict_keys (ADXStakingBalance_serialize Balance_serialize balance)))
  /\ (forall detail,
        NoDup (dict_keys (ADXStakingDetail_serialize Balance_serialize str_FVal
                            to_percentage detail)))
  /\ (forall event,
        dict_get (serialize_event event) "bond_id" = None
        <-> row_of_event event !! 8%nat = Some DBNone)
  /\ (forall balance unclaimed,
        ADXStakingBalance_serialize Balance_serialize
          (mkADXStakingBalance (sb_pool_id balance) (sb_pool_name balance)
             (sb_adx_balance balance) unclaimed (sb_dai_balance balance)
             (sb_contract_address balance))
        = ADXStakingBalance_serialize Balance_serialize balance).
Proof.
  split; [|split; [|split; [|split]]].
  - intros []; apply (bool_decide_unpack _); vm_compute; reflexivity.
  - intros balance. apply (bool_decide_unpack _). vm_compute. reflexivity.
  - intros detail. apply (bool_decide_unpack _). vm_compute. reflexivity.
  - intros []; cbn; split; intros H; done.
  - intros balance unclaimed. reflexivity.
Qed.

End AdexSerializeProps.

(** ** More on the incremental syncs *)

Import Sushiswap Coverage.

Lemma events_name_not_trades_name (a b : string) :
  entry_name SUSHISWAP_EVENTS_PREFIX a <> entry_name SUSHISWAP_TRADES_PREFIX b.
Proof. unfold entry_name. cbn. discriminate. Qed.

Lemma db_eta (db : DBHandler) :
  mkDB (used_query_ranges db) (sushiswap_events db) (amm_swaps db) = db.
Proof. by destruct db. Qed.

Lemma write_ranges_lookup_written prefix to done r q :
  q ∈ done ->
  exists s, write_ranges prefix to done r !! entry_name prefix (fst q) = Some (s, to).
Proof.
  revert r. induction done as [|p done IH]; intros r Hq.
  { by apply elem_of_nil in Hq. }
  rewrite write_ranges_cons.
  destruct (decide (q ∈ done)) as [Hin|Hnin]; [by apply IH|].
  apply elem_of_cons in Hq as [->|?]; [|done].
  destruct (write_ranges_lookup_cases prefix to done
              (<[entry_name prefix (fst p) := (snd p, to)]> r)
              (entry_name prefix (fst p))) as [Heq|(q' & _ & _ & Hq')].
  - rewrite Heq, lookup_insert_eq. eauto.
  - eauto.
Qed.

Lemma covered_plan_empty (w : World) (prefix : string) (addresses : list string) (to : Z) :
  covered w prefix addresses to ->
  new_addresses_of w prefix addresses = []
  /\ delta_runs w prefix addresses to = false.
Proof.
  intros Hc. split.
  - apply elem_of_nil_inv. intros a Ha.
    apply elem_of_new_addresses in Ha as [Ha Hn].
    destruct (Hc a Ha) as (s & e & Hr & _). unfold is_new in Hn. by rewrite Hr in Hn.
  - unfold delta_runs. apply andb_false_iff. right. apply Z.ltb_ge.
    unfold min_end_ts_of.
    destruct (foldl_min_spec to (stored_ends w prefix addresses)) as (_ & _ & H3).
    set (m := foldl Z.min to (stored_ends w prefix addresses)) in *.
    destruct H3 as [H3|Hin]; [lia|].
    unfold stored_ends in Hin. apply list_elem_of_omap in Hin as (a & Ha & Hs).
    destruct (Hc a Ha) as (s & e & Hr & Hle). rewrite Hr in Hs. cbn in Hs.
    injection Hs as Hs. lia.
Qed.

Lemma take_while_all {A} (ok : A -> bool) (l : list A) :
  forallb ok l = true -> take_while ok l = l.
Proof.
  induction l as [|x l IH]; simpl; [done|].
  intros [-> H]%andb_true_iff. by rewrite IH.
Qed.

Lemma covered_after_plan (w : World) (prefix : string) (addresses : list string) (to : Z) :
  forall a, a ∈ addresses ->
    exists s e,
      write_ranges prefix to (plan_entries w prefix addresses to)
        (used_query_ranges (database w)) !! entry_name prefix a = Some (s, e)
      /\ to <= e.
Proof.
  intros a Ha.
  destruct (is_new w prefix a) eqn:En.
  - destruct (write_ranges_lookup_written prefix to (plan_entries w prefix addresses to)
                (used_query_ranges (database w)) (a, 0)) as [s Hs].
    { apply elem_of_plan_entries. cbn. eauto. }
    exists s, to. split; [exact Hs|lia].
  - destruct (delta_runs w prefix addresses to) eqn:Ed.
    + destruct (write_ranges_lookup_written prefix to (plan_entries w prefix addresses to)
                  (used_query_ranges (database w))
                  (a, min_end_ts_of w prefix addresses to)) as [s Hs].
      { apply elem_of_plan_entries. cbn. eauto 6. }
      exists s, to. split; [exact Hs|lia].
    + unfold is_new in En.
      destruct (stored_range w prefix a) as [[s0 e0]|] eqn:Hr; [|done].
      exists s0, e0. split.
      * rewrite write_ranges_lookup_ne; [exact Hr|].
        intros q Hq Hname. apply entry_name_inj in Hname.
        apply elem_of_plan_entries in Hq as [_ [[Hn _]|(_ & Hd & _)]]; [|congruence].
        rewrite Hname in Hn. unfold is_new in Hn. by rewrite Hr in Hn.
      * pose proof (min_end_ts_le_stored w prefix addresses to a s0 e0 Ha Hr) as Hm.
        unfold delta_runs in Ed. apply andb_false_iff in Ed as [Ed|Ed].
        -- assert (Hex : a ∈ existing_addresses_of w prefix addresses).
           { apply elem_of_existing_addresses. split; [done|].
             unfold is_new. by rewrite Hr. }
           destruct (existing_addresses_of w prefix addresses); [|done].
           by apply elem_of_nil in Hex.
        -- apply Z.ltb_ge in Ed. lia.
Qed.

Lemma covered_mono (w : World) prefix addresses (to to' : Z) :
  to' <= to -> covered w prefix addresses to -> covered w prefix addresses to'.
Proof.
  intros Hle Hc a Ha. destruct (Hc a Ha) as (s & e & Hr & He).
  exists s, e. split; [done|lia].
Qed.

Lemma filter_has_key_empty {A} (addresses : list string) :
  List.filter (has_key (∅ : gmap string A)) addresses = [].
Proof.
  induction addresses as [|a l IH]; [done|]. cbn. unfold has_key at 1.
  by rewrite lookup_empty.
Qed.

Section SyncMoreProps.

Variable _get_events_graph :
  ChecksumEthAddress -> Timestamp -> Timestamp -> EventType ->
  Result (list LiquidityPoolEvent).
Variable _get_trades_graph :
  list ChecksumEthAddress -> Timestamp -> Timestamp -> Result AddressTrades.
Variable _fetch_trades_from_db :
  DBHandler -> list ChecksumEthAddress -> Timestamp -> Timestamp -> AddressTrades.
Variable get_balances : list ChecksumEthAddress -> Result AddressToLPBalances.

Abbreviation events_sync := (_get_events_balances _get_events_graph get_balances).
Abbreviation trades_sync := (_get_trades _get_trades_graph _fetch_trades_from_db).

(** X5: a sync only writes what is its own: the events sync leaves the
    swap store, every trades range and the range of every address it
    was not asked for as they were, and the trades sync leaves the
    event store, every events range and the range of every address it
    was not asked for as they were, whether the sync returns or
    raises. *)
Theorem sync_keeps_foreign_state (addresses : list ChecksumEthAddress)
    (from to : Timestamp) (w : World) :
  let after_e := snd (events_sync addresses from to w) in
  let after_t := snd (trades_sync addresses from to false w) in
  ((forall name, (forall a, a ∈ addresses -> name <> entry_name SUSHISWAP_EVENTS_PREFIX a) ->
      used_query_ranges (database after_e) !! name
      = used_query_ranges (database w) !! name)
   /\ (forall b, stored_range after_e SUSHISWAP_TRADES_PREFIX b
                 = stored_range w SUSHISWAP_TRADES_PREFIX b)
   /\ amm_swaps (database after_e) = amm_swaps (database w))
  /\ ((forall name, (forall a, a ∈ addresses -> name <> entry_name SUSHISWAP_TRADES_PREFIX a) ->
         used_query_ranges (database after_t) !! name
         = used_query_ranges (database w) !! name)
      /\ (forall b, stored_range after_t SUSHISWAP_EVENTS_PREFIX b
                    = stored_range w SUSHISWAP_EVENTS_PREFIX b)
      /\ sushiswap_events (database after_t) = sushiswap_events (database w)).
Proof.
  intros after_e after_t. split.
  - destruct (events_sync_run _get_events_graph get_balances addresses from to w)
      as (res & logged & db' & Hrun & Hr & Hsw & _).
    subst after_e. rewrite Hrun. cbn [snd database].
    assert (Hother : forall name,
              (forall a, a ∈ addresses -> name <> entry_name SUSHISWAP_EVENTS_PREFIX a) ->
              used_query_ranges db' !! name = used_query_ranges (database w) !! name).
    { intros name Hname. rewrite Hr. apply write_ranges_lookup_ne.
      intros q Hq Heq. apply elem_of_take_while in Hq as [Hq _].
      apply elem_of_plan_entries in Hq as [Hq _]. by apply (Hname _ Hq). }
    split; [exact Hother|]. split; [|exact Hsw].
    intros b. unfold stored_range. cbn [database]. apply Hother.
    intros a _ Heq. symmetry in Heq. by apply events_name_not_trades_name in Heq.
  - destruct (trades_sync_run _get_trades_graph _fetch_trades_from_db addresses from to w)
      as (res & logged & db' & Hrun & Hr & Hev & _).
    subst after_t. rewrite Hrun. cbn [snd database].
    assert (Hother : forall name,
              (forall a, a ∈ addresses -> name <> entry_name SUSHISWAP_TRADES_PREFIX a) ->
              used_query_ranges db' !! name = used_query_ranges (database w) !! name).
    { intros name Hname. rewrite Hr. apply write_ranges_lookup_ne.
      intros q Hq Heq.
      apply list_elem_of_In, in_flat_map in Hq as (p & Hp & Hq).
      apply list_elem_of_In, elem_of_take_while in Hp as [Hp _].
      assert (Hq' : q ∈ plan_entries w SUSHISWAP_TRADES_PREFIX addresses to).
      { rewrite <- trades_plan_entries. apply list_elem_of_In, in_flat_map.
        exists p. split; [by apply list_elem_of_In|done]. }
      apply elem_of_plan_entries in Hq' as [Hq' _]. by apply (Hname _ Hq'). }
    split; [exact Hother|]. split; [|exact Hev].
    intros b. unfold stored_range. cbn [database]. apply Hother.
    intros a _ Heq. by apply events_name_not_trades_name in Heq.
Qed.

(** X6: a sync that returns leaves every address it was asked for
    covered up to [to_timestamp]: each has a stored range ending at
    [to_timestamp] or later.  So a second sync of the same addresses
    up to the same or an earlier time has nothing to fetch. *)
Theorem sync_covers_its_addresses (addresses : list ChecksumEthAddress)
    (from to to' : Timestamp) (w : World) :
  to' <= to ->
  (forall result w1,
      events_sync addresses from to w = (inr result, w1) ->
      covered w1 SUSHISWAP_EVENTS_PREFIX addresses to
      /\ events_plan w1 addresses to' = [])
  /\ (forall trades w1,
        trades_sync addresses from to false w = (inr trades, w1) ->
        covered w1 SUSHISWAP_TRADES_PREFIX addresses to
        /\ trades_plan w1 addresses to' = []).
Proof.
  intros Hle. split.
  - intros result w1 Hrun.
    destruct (events_sync_run _get_events_graph get_balances addresses from to w)
      as (res & logged & db' & Hrun' & Hr & _ & Hfail & _).
    rewrite Hrun in Hrun'. injection Hrun' as <- ->.
    destruct (forallb (events_fetch_ok _get_events_graph to) (events_plan w addresses to))
      eqn:Eok; [|by destruct (Hfail eq_refl) as ([e [=]] & _)].
    rewrite take_while_all in Hr by done.
    assert (Hc : covered (mkWorld db' (calls w ++ logged) (msg_errors w))
                   SUSHISWAP_EVENTS_PREFIX addresses to).
    { intros a Ha. unfold stored_range. cbn [database]. rewrite Hr.
      by apply covered_after_plan. }
    split; [exact Hc|].
    destruct (covered_plan_empty _ _ _ _ (covered_mono _ _ _ _ _ Hle Hc)) as [Hn Hd].
    unfold events_plan. by rewrite Hn, Hd.
  - intros trades w1 Hrun.
    destruct (trades_sync_run _get_trades_graph _fetch_trades_from_db addresses from to w)
      as (res & logged & db' & Hrun' & Hr & _ & _ & Hfail & _).
    rewrite Hrun in Hrun'. injection Hrun' as <- ->.
    destruct (forallb (trades_fetch_ok _get_trades_graph to) (trades_plan w addresses to))
      eqn:Eok; [|by destruct (Hfail eq_refl) as ([e [=]] & _)].
    rewrite take_while_all in Hr by done.
    unfold ranges_after_trades in Hr. rewrite trades_plan_entries in Hr.
    assert (Hc : covered (mkWorld db' (calls w ++ logged) (msg_errors w))
                   SUSHISWAP_TRADES_PREFIX addresses to).
    { intros a Ha. unfold stored_range. cbn [database]. rewrite Hr.
      by apply covered_after_plan. }
    split; [exact Hc|].
    destruct (covered_plan_empty _ _ _ _ (covered_mono _ _ _ _ _ Hle Hc)) as [Hn Hd].
    unfold trades_plan. by rewrite Hn, Hd.
Qed.

(** X7: when every address asked for is already covered up to
    [to_timestamp] (in particular for an empty list of addresses), the
    trades sync sends no request, changes nothing and is the cache-only
    read; the events sync is the read-back and reconciliation on the
    unchanged world. *)
Theorem covered_sync_is_cache_read (addresses : list ChecksumEthAddress)
    (from to : Timestamp) (w : World) :
  (covered w SUSHISWAP_TRADES_PREFIX addresses to ->
   trades_sync addresses from to false w = trades_sync addresses from to true w)
  /\ (covered w SUSHISWAP_EVENTS_PREFIX addresses to ->
      events_sync addresses from to w
      = bind (events_readback_stage addresses from to)
             (events_reconcile_stage get_balances addresses from) w).
Proof.
  split; intros Hc.
  - destruct (covered_plan_empty _ _ _ _ Hc) as [Hn Hd].
    unfold _get_trades. unfold bind at 1. rewrite trades_fetch_stage_plan.
    unfold trades_plan. rewrite Hn, Hd. cbn [nonempty app for_each]. unfold ret at 1.
    unfold bind, trades_persist_stage, add_amm_swaps, modify_db, fetch_trades_from_db.
    rewrite filter_has_key_empty. cbn [flat_map foldl database].
    unfold db_add_amm_swaps. cbn [foldl]. rewrite db_eta. by destruct w.
  - destruct (covered_plan_empty _ _ _ _ Hc) as [Hn Hd].
    unfold _get_events_balances. unfold bind at 1. rewrite events_fetch_stage_plan.
    unfold events_plan. rewrite Hn, Hd. cbn [fmap list_fmap app for_each]. unfold ret at 1.
    unfold bind at 1. unfold events_persist_stage, add_sushiswap_events, modify_db.
    rewrite filter_has_key_empty. cbn [flat_map].
    unfold db_add_sushiswap_events. cbn [foldl]. rewrite db_eta. by destruct w.
Qed.

End SyncMoreProps.

(** ** More on the paginated queries *)

Section PaginateMoreProps.

Context {A Acc : Type}.
Variable request : Z -> GraphRequest.
Variable oracle : GraphRequest -> string + list A.
Variable strict : bool.
Variable process : Acc -> list A -> Result Acc.
Variable L : Z.

Abbreviation pag' := (paginate request oracle strict process L).



(** What processing raises on a page leaves the loop at once. *)
Lemma paginate_processing_error (fuel : nat) (off : Z) (acc : Acc) (w : World)
    (page : list A) (e : Exception) :
  oracle (request off) = inr page ->
  process acc page = inl e ->
  pag' (S fuel) off acc w = (inl e, after_queries w [request off] []).
Proof.
  intros Hq Hp. cbn [paginate]. rewrite Hq, Hp.
  unfold after_queries. cbn. by rewrite app_nil_r.
Qed.

(** What every page keeps, the result has. *)
Lemma paginate_invariant (P : Acc -> Prop) (fuel : nat) (off : Z) (acc acc' : Acc)
    (w : World) :
  P acc ->
  (forall acc page acc', P acc -> process acc page = inr acc' -> P acc') ->
  fst (pag' fuel off acc w) = inr (Some acc') -> P acc'.
Proof.
  intros HP Hstep. revert off acc w HP.
  induction fuel as [|fuel IH]; intros off acc w HP; [done|].
  cbn [paginate]. destruct (oracle (request off)) as [msg|page].
  { destruct strict; cbn; [done|]. by intros [= <-]. }
  destruct (process acc page) as [e|acc1] eqn:Hp; [done|].
  destruct (_ <? _).
  - cbn. intros [= <-]. by eapply Hstep.
  - apply IH. by eapply Hstep.
Qed.

End PaginateMoreProps.

(** Two loops that send the same requests to the same remote and whose
    processing cannot fail leave the same world. *)
Lemma paginate_same_world {A Acc1 Acc2 : Type} (request : Z -> GraphRequest)
    (oracle : GraphRequest -> string + list A) (strict : bool)
    (g1 : Acc1 -> list A -> Acc1) (g2 : Acc2 -> list A -> Acc2) (L : Z)
    (fuel : nat) (off : Z) (acc1 : Acc1) (acc2 : Acc2) (w : World) :
  snd (paginate request oracle strict (fun a p => inr (g1 a p)) L fuel off acc1 w)
  = snd (paginate request oracle strict (fun a p => inr (g2 a p)) L fuel off acc2 w).
Proof.
  revert off acc1 acc2 w. induction fuel as [|fuel IH]; intros off acc1 acc2 w; [done|].
  cbn [paginate]. destruct (oracle (request off)) as [msg|page].
  { by destruct strict. }
  destruct (_ <? _); [done|]. apply IH.
Qed.

Lemma set_add_Forall {A} (P : A -> Prop) (eqb : A -> A -> bool) (s : list A) (x : A) :
  Forall P s -> P x -> Forall P (set_add eqb s x).
Proof.
  intros Hs Hx. unfold set_add. destruct (existsb _ s); [done|].
  apply Forall_app. by split; [|constructor].
Qed.

Lemma ascii_lower_idemp (c : ascii) : ascii_lower (ascii_lower c) = ascii_lower c.
Proof. by destruct c as [[] [] [] [] [] [] [] []]. Qed.

Lemma lower_idemp (s : string) : lower (lower s) = lower s.
Proof. induction s as [|c s IH]; [done|]. cbn. by rewrite ascii_lower_idemp, IH. Qed.

Lemma lower_length (s : string) : String.length (lower s) = String.length s.
Proof. induction s as [|c s IH]; [done|]. cbn. by rewrite IH. Qed.

Lemma before_dash_no_dash (s : string) :
  SushiswapApi.no_dash s = true -> before_dash s = s.
Proof.
  induction s as [|c s IH]; [done|]. intros H.
  cbn [SushiswapApi.no_dash] in H. apply andb_true_iff in H as [Hc Hs].
  apply negb_true_iff in Hc. cbn [before_dash]. rewrite Hc. by rewrite IH.
Qed.

Lemma before_dash_split (h rest : string) :
  SushiswapApi.no_dash h = true -> before_dash (h +:+ "-" +:+ rest) = h.
Proof.
  induction h as [|c h IH]; [done|]. intros H.
  cbn [SushiswapApi.no_dash] in H. apply andb_true_iff in H as [Hc Hs].
  apply negb_true_iff in Hc.
  change (String c h +:+ "-" +:+ rest) with (String c (h +:+ "-" +:+ rest)).
  cbn [before_dash]. rewrite Hc. f_equal. by apply IH.
Qed.

Lemma before_dash_has_no_dash (s : string) : SushiswapApi.no_dash (before_dash s) = true.
Proof.
  induction s as [|c s IH]; [done|]. cbn [before_dash].
  destruct (Ascii.eqb c "-") eqn:E; [done|]. cbn [SushiswapApi.no_dash]. by rewrite E, IH.
Qed.

Section GraphMoreProps.
Import SushiswapApi.

Variable GRAPH_QUERY_LIMIT : Z.
Variable query_liquidityPositions : GraphRequest -> string + list RawLiquidityPosition.
Variable query_swaps : GraphRequest -> string + list RawSwapEntry.
Variable query_tokenDayDatas : GraphRequest -> string + list RawTokenDayData.
Variable deserialize_ethereum_address : string -> option ChecksumEthAddress.
Variable FVal_of_str : string -> option FVal.
Variable get_or_create_ethereum_token :
  string -> ChecksumEthAddress -> string -> Z -> EthereumToken.
Variable has_oracle : EthereumToken -> bool.
Variable today_epoch : Z.

Abbreviation L := GRAPH_QUERY_LIMIT.
Abbreviation balances_request := (Sushiswap.balances_request GRAPH_QUERY_LIMIT).
Abbreviation swaps_request := (Sushiswap.swaps_request GRAPH_QUERY_LIMIT).
Abbreviation prices_request := (Sushiswap.prices_request GRAPH_QUERY_LIMIT today_epoch).
Abbreviation process_lp :=
  (process_liquidity_position deserialize_ethereum_address FVal_of_str
     get_or_create_ethereum_token has_oracle).
Abbreviation process_entry :=
  (process_swap_entry deserialize_ethereum_address FVal_of_str
     get_or_create_ethereum_token).
Abbreviation process_tdd :=
  (process_token_day_data deserialize_ethereum_address FVal_of_str).
Abbreviation balances_graph :=
  (_get_balances_graph L query_liquidityPositions deserialize_ethereum_address
     FVal_of_str get_or_create_ethereum_token has_oracle).
Abbreviation trades_graph_for_address :=
  (_get_trades_graph_for_address L query_swaps deserialize_ethereum_address
     FVal_of_str get_or_create_ethereum_token).
Abbreviation prices_graph :=
  (_get_unknown_asset_price_graph L query_tokenDayDatas deserialize_ethereum_address
     FVal_of_str today_epoch).
Abbreviation swap_of := (swap_of_raw deserialize_ethereum_address FVal_of_str
                           get_or_create_ethereum_token).



Lemma res_fold_invariant {A B} (P : B -> Prop) (f : B -> A -> Result B)
    (l : list A) (b b' : B) :
  P b -> (forall b x b', P b -> f b x = inr b' -> P b') ->
  res_fold f l b = inr b' -> P b'.
Proof.
  intros Hb Hstep. revert b Hb. induction l as [|x l IH]; intros b Hb H; cbn in H.
  - by injection H as <-.
  - destruct (f b x) as [e|b1] eqn:E; [done|]. cbn in H. eapply IH; [|done]. eauto.
Qed.

Lemma lp_token_invariant (lp_total_supply user_lp_balance : FVal)
    (known unknown known' unknown' : list EthereumToken)
    (pool_assets pool_assets' : list LiquidityPoolAsset) (tok : RawToken * string) :
  Forall (fun t => has_oracle t = true) known ->
  Forall (fun t => has_oracle t = false) unknown ->
  lp_token deserialize_ethereum_address FVal_of_str get_or_create_ethereum_token
    has_oracle lp_total_supply user_lp_balance (known, unknown, pool_assets) tok
  = inr (known', unknown', pool_assets') ->
  Forall (fun t => has_oracle t = true) known'
  /\ Forall (fun t => has_oracle t = false) unknown'
  /\ length pool_assets' = S (length pool_assets).
Proof.
  intros Hk Hu H. unfold lp_token in H. destruct tok as [token amount].
  destruct (deserialize_ethereum_address _) as [a|]; [|done].
  destruct (FVal_ctor _ _) as [e|v]; [done|]. cbn [res_bind] in H.
  destruct (FVal_eqb _ _); [done|].
  injection H as <- <- <-.
  destruct (has_oracle (get_or_create_ethereum_token _ _ _ _)) eqn:Eo.
  - split; [by apply set_add_Forall|]. split; [done|]. rewrite length_app. cbn. lia.
  - split; [done|]. split; [by apply set_add_Forall|]. rewrite length_app. cbn. lia.
Qed.

Lemma process_lp_invariant (acc acc' : ProtocolBalance) (lp : RawLiquidityPosition) :
  balance_well_formed has_oracle acc ->
  process_lp acc lp = inr acc' ->
  balance_well_formed has_oracle acc'.
Proof.
  intros (Hpools & Hk & Hu) H. unfold process_liquidity_position in H.
  destruct (FVal_ctor _ (pair_totalSupply _)) as [e|supply]; [done|]. cbn [res_bind] in H.
  destruct (FVal_ctor _ (lp_liquidityTokenBalance _)) as [e|bal]; [done|].
  cbn [res_bind] in H.
  destruct (deserialize_ethereum_address (lp_user_id lp)) as [user|]; [|done].
  destruct (deserialize_ethereum_address (pair_id _)) as [pool|]; [|done].
  cbn [res_fold res_bind] in H.
  destruct (lp_token _ _ _ _ _ _ _ (pair_token0 _, _)) as [e|[[k1 u1] a1]] eqn:E0; [done|].
  cbn [res_bind] in H.
  destruct (lp_token _ _ _ _ _ _ _ (pair_token1 _, _)) as [e|[[k2 u2] a2]] eqn:E1; [done|].
  cbn [res_bind] in H. injection H as <-.
  destruct (lp_token_invariant _ _ _ _ _ _ _ _ _ Hk Hu E0) as (Hk1 & Hu1 & Hl1).
  destruct (lp_token_invariant _ _ _ _ _ _ _ _ _ Hk1 Hu1 E1) as (Hk2 & Hu2 & Hl2).
  split; [|done]. cbn [address_balances]. intros a pools Ha. unfold dd_extend in Ha.
  destruct (decide (a = user)) as [->|Hne].
  - rewrite lookup_insert_eq in Ha. injection Ha as <-.
    split; [by destruct (default _ _)|].
    apply Forall_app. split.
    + destruct (address_balances acc !! user) as [old|] eqn:Eold; cbn; [|constructor].
      by apply (Hpools user).
    + constructor; [|constructor]. cbn. rewrite Hl2, Hl1. done.
  - rewrite lookup_insert_ne in Ha by done. by apply (Hpools a).
Qed.

(** X11: every balance the balance query returns is well formed,
    whatever the remote sent: no address is mapped to an empty list of
    pools, every pool has exactly two assets (one per token of the
    pair), every known asset has a price oracle and no unknown asset
    has one, so the two sets share no asset. *)
Theorem balances_result_well_formed (fuel : nat) (addresses : list ChecksumEthAddress)
    (w : World) (balance : ProtocolBalance) :
  fst (balances_graph fuel addresses w) = inr (Some balance) ->
  balance_well_formed has_oracle balance
  /\ (forall t, t ∈ known_assets balance -> t ∉ unknown_assets balance).
Proof.
  intros H. unfold _get_balances_graph in H. rewrite balances_loop_paginate in H.
  assert (Hwf : balance_well_formed has_oracle balance).
  { eapply (paginate_invariant _ _ _ _ _ (balance_well_formed has_oracle)); [| |exact H].
    - split; [|by split; constructor]. intros a pools Ha. cbn [address_balances] in Ha. by rewrite lookup_empty in Ha.
    - intros acc page acc' Hacc Hfold.
      eapply res_fold_invariant; [exact Hacc| |exact Hfold].
      intros b x b'. apply process_lp_invariant. }
  split; [done|]. destruct Hwf as (_ & Hk & Hu). intros t Htk Htu.
  rewrite Forall_forall in Hk, Hu.
  specialize (Hk t Htk). specialize (Hu t Htu). congruence.
Qed.

(** X10: an address of the first page that does not deserialize makes
    the balance query and the price query raise a RemoteError after that
    one request, and, unlike a failure of the remote itself, nothing is
    handed to the message aggregator. *)
Theorem malformed_address_raises_remote_error (fuel : nat) (w : World) :
  (forall addresses l1 lp l2 acc,
      query_liquidityPositions (balances_request (lower <$> addresses) 0)
      = inr (l1 ++ lp :: l2) ->
      res_fold process_lp l1 (mkProtocolBalance ∅ [] []) = inr acc ->
      FVal_of_str (pair_totalSupply (lp_pair lp)) <> None ->
      FVal_of_str (lp_liquidityTokenBalance lp) <> None ->
      deserialize_ethereum_address (lp_user_id lp) = None
      \/ deserialize_ethereum_address (pair_id (lp_pair lp)) = None ->
      exists msg,
        balances_graph (S fuel) addresses w
        = (inl (RemoteError msg),
           after_queries w [balances_request (lower <$> addresses) 0] []))
  /\ (forall unknown_assets l1 tdd l2 acc,
        let token_ids := (fun a => lower (ethereum_address a)) <$> unknown_assets in
        query_tokenDayDatas (prices_request token_ids 0) = inr (l1 ++ tdd :: l2) ->
        res_fold process_tdd l1 ∅ = inr acc ->
        deserialize_ethereum_address (tdd_token_id tdd) = None ->
        exists msg,
          prices_graph (S fuel) unknown_assets w
          = (inl (RemoteError msg), after_queries w [prices_request token_ids 0] [])).
Proof.
  split.
  - intros addresses l1 lp l2 acc Hq Hl1 Hs Hb Hbad.
    unfold _get_balances_graph. rewrite balances_loop_paginate.
    assert (exists msg, process_lp acc lp = inl (RemoteError msg)) as [msg Hmsg].
    { unfold process_liquidity_position, FVal_ctor.
      destruct (FVal_of_str (pair_totalSupply _)); [|done].
      destruct (FVal_of_str (lp_liquidityTokenBalance _)); [|done]. cbn [res_bind].
      destruct Hbad as [-> | Hbad].
      - eauto.
      - rewrite Hbad. destruct (deserialize_ethereum_address (lp_user_id lp)); eauto. }
    exists msg. eapply paginate_processing_error; [exact Hq|].
    rewrite res_fold_app, Hl1. cbn [res_bind res_fold]. by rewrite Hmsg.
  - intros unknown_assets l1 tdd l2 acc token_ids Hq Hl1 Hbad.
    unfold _get_unknown_asset_price_graph. rewrite prices_loop_paginate.
    eexists. eapply paginate_processing_error; [exact Hq|].
    rewrite res_fold_app, Hl1. cbn [res_bind res_fold].
    unfold process_token_day_data at 1. rewrite Hbad. reflexivity.
Qed.

Lemma foldl_invariant {A B} (P : B -> Prop) (f : B -> A -> B) (l : list A) (b : B) :
  P b -> (forall b x, P b -> P (f b x)) -> P (foldl f b l).
Proof.
  intros Hb Hstep. revert b Hb. induction l as [|x l IH]; intros b Hb; cbn; [done|].
  apply IH. by apply Hstep.
Qed.

Lemma swap_of_raw_fields (addr : ChecksumEthAddress) (raw : RawSwap) (s : AMMSwap) :
  swap_of addr raw = Some s ->
  address s = addr /\ location s = SUSHISWAP /\ tx_hash s = before_dash (swap_id raw)
  /\ log_index s = swap_logIndex raw /\ timestamp s = swap_timestamp raw.
Proof.
  unfold swap_of_raw. intros H.
  destruct (deserialize_ethereum_address (tok_id (swap_token0 raw))); [|done].
  destruct (deserialize_ethereum_address (tok_id (swap_token1 raw))); [|done].
  destruct (deserialize_ethereum_address (swap_sender raw)); [|done].
  destruct (deserialize_ethereum_address (swap_to raw)); [|done].
  destruct (FVal_of_str (swap_amount0In raw)); [|done].
  destruct (FVal_of_str (swap_amount1In raw)); [|done].
  destruct (FVal_of_str (swap_amount0Out raw)); [|done].
  destruct (FVal_of_str (swap_amount1Out raw)); [|done].
  by injection H as <-.
Qed.

(** X13: every swap of every trade the trade query returns for an
    address carries that address and the SUSHISWAP location, has a
    transaction hash without a dash (the part of the subgraph id before
    the first one) and is a leg with a direction, whatever the remote
    sent.  The grouping of the swaps of a transaction into trades is the
    one modelled from the spec. *)
Theorem returned_swaps_belong_to_address (fuel : nat) (addr : ChecksumEthAddress)
    (start_ts end_ts : Timestamp) (w : World) (trades : list AMMTrade) :
  fst (trades_graph_for_address fuel addr start_ts end_ts w) = inr (Some trades) ->
  forall t s, t ∈ trades -> s ∈ swaps t ->
    address s = addr /\ location s = SUSHISWAP /\ no_dash (tx_hash s) = true
    /\ leg_direction s <> None
    /\ exists raw, swap_of addr raw = Some s /\ tx_hash s = before_dash (swap_id raw).
Proof.
  intros H. unfold _get_trades_graph_for_address in H. rewrite trades_loop_paginate in H.
  set (P := fun trades : list AMMTrade =>
              forall t s, t ∈ trades -> s ∈ swaps t ->
                address s = addr /\ location s = SUSHISWAP /\ no_dash (tx_hash s) = true
                /\ leg_direction s <> None
                /\ exists raw, swap_of addr raw = Some s
                               /\ tx_hash s = before_dash (swap_id raw)).
  change (P trades).
  eapply (paginate_invariant _ _ _ _ _ P); [| |exact H].
  - intros t s Ht. by apply elem_of_nil in Ht.
  - intros acc page acc' Hacc Hproc. injection Hproc as <-.
    apply foldl_invariant; [done|].
    intros b entry Hb. unfold process_swap_entry.
    destruct (_ =? _)%nat; [done|].
    intros t s Ht Hs. apply elem_of_app in Ht as [Ht|Ht]; [by apply (Hb t)|].
    destruct (tx_swaps_to_trades_directed _ _ _ Ht Hs) as [Hin Hdir].
    apply list_elem_of_omap in Hin as (raw & _ & Hraw).
    destruct (swap_of_raw_fields _ _ _ Hraw) as (Ha & Hl & Hh & _).
    split; [done|]. split; [done|].
    split; [rewrite Hh; apply before_dash_has_no_dash|].
    split; [done|]. by exists raw.
Qed.

Lemma fold_tdd_last (rs : list RawTokenDayData) (acc0 : AssetToPrice) :
  Forall (fun t => is_Some (deserialize_ethereum_address (tdd_token_id t))
                   /\ is_Some (FVal_of_str (tdd_priceUSD t))) rs ->
  exists acc,
    res_fold process_tdd rs acc0 = inr acc
    /\ forall a,
         acc !! a
         = match list.last (filter (fun t => deserialize_ethereum_address (tdd_token_id t)
                                          = Some a) rs) with
           | Some t => FVal_of_str (tdd_priceUSD t)
           | None => acc0 !! a
           end.
Proof.
  revert acc0. induction rs as [|t rs IH]; intros acc0 Hwf.
  { exists acc0. by split. }
  apply list.Forall_cons in Hwf as [[[ta Hta] [p Hp]] Hwf].
  destruct (IH (<[ta := p]> acc0) Hwf) as (acc & Hacc & Hlook).
  exists acc. split.
  - cbn [res_fold]. unfold process_token_day_data at 1, FVal_ctor.
    rewrite Hta, Hp. cbn [res_bind]. exact Hacc.
  - intros a. rewrite Hlook, filter_cons.
    destruct (decide (deserialize_ethereum_address (tdd_token_id t) = Some a)) as [Ha|Hna].
    + rewrite last_cons.
      destruct (list.last (filter _ rs)) as [t'|]; [done|].
      assert (ta = a) as -> by congruence. by rewrite lookup_insert_eq.
    + destruct (list.last (filter _ rs)) as [t'|]; [done|].
      rewrite lookup_insert_ne; [done|]. congruence.
Qed.

(** X12: when every record of the remote's list has an address that
    deserializes and a price that parses, the price query returns, and
    the price it gives an asset is the one of the last record of that
    asset in the list; an asset without a record gets no price. *)
Theorem price_of_last_record (fuel : nat) (unknown_assets : list EthereumToken)
    (rs : list RawTokenDayData) (w : World) :
  let token_ids := (fun a => lower (ethereum_address a)) <$> unknown_assets in
  0 < L ->
  (forall offset,
      query_tokenDayDatas (prices_request token_ids offset) = inr (page_of rs L offset)) ->
  (length rs / Z.to_nat L < fuel)%nat ->
  Forall (fun t => is_Some (deserialize_ethereum_address (tdd_token_id t))
                   /\ is_Some (FVal_of_str (tdd_priceUSD t))) rs ->
  exists prices,
    fst (prices_graph fuel unknown_assets w) = inr (Some prices)
    /\ forall a,
         prices !! a
         = list.last (filter (fun t => deserialize_ethereum_address (tdd_token_id t) = Some a) rs)
           ≫= (fun t => FVal_of_str (tdd_priceUSD t)).
Proof.
  intros token_ids HL Hq Hfuel Hwf.
  destruct (fold_tdd_last rs ∅ Hwf) as (prices & Hfold & Hlook).
  exists prices. split.
  - unfold _get_unknown_asset_price_graph. rewrite prices_loop_paginate.
    erewrite paginate_list_remote; [reflexivity|done|exact Hq| |done].
    by rewrite res_fold_concat, concat_pages_of.
  - intros a. rewrite Hlook. destruct (list.last _); [done|]. by rewrite lookup_empty.
Qed.

(** X14: the three queries compare addresses without regard to letter
    case: the balance query and the price query run the same on
    addresses and on their lower-cased forms, and the trade query sends
    the same requests and messages for an address and for its
    lower-cased form. *)
Theorem queries_ignore_letter_case (fuel : nat) (w : World) :
  (forall addresses,
      balances_graph fuel (lower <$> addresses) w = balances_graph fuel addresses w)
  /\ (forall unknown_assets,
        prices_graph fuel
          ((fun t => mkToken (lower (ethereum_address t)) (symbol t) (name t) (decimals t))
             <$> unknown_assets) w
        = prices_graph fuel unknown_assets w)
  /\ (forall addr start_ts end_ts,
        snd (trades_graph_for_address fuel (lower addr) start_ts end_ts w)
        = snd (trades_graph_for_address fuel addr start_ts end_ts w)).
Proof.
  split; [|split].
  - intros addresses. unfold _get_balances_graph. f_equal.
    rewrite <- list_fmap_compose. apply list_fmap_ext. intros i a _. apply lower_idemp.
  - intros unknown_assets. unfold _get_unknown_asset_price_graph. f_equal.
    rewrite <- list_fmap_compose. apply list_fmap_ext. intros i t _. apply lower_idemp.
  - intros addr start_ts end_ts. unfold _get_trades_graph_for_address.
    rewrite !trades_loop_paginate. unfold Sushiswap.swaps_request.
    rewrite lower_idemp. apply paginate_same_world.
Qed.

End GraphMoreProps.

Lemma filter_all {A} (f : A -> bool) (l : list A) :
  (forall x, f x = true) -> List.filter f l = l.
Proof. intros H. induction l as [|x l IH]; [done|]. cbn. by rewrite H, IH. Qed.

Lemma filter_none {A} (f : A -> bool) (l : list A) :
  (forall x, f x = false) -> List.filter f l = [].
Proof. intros H. induction l as [|x l IH]; [done|]. cbn. by rewrite H. Qed.

Section HistoryProps.
Import SushiswapApi.

Variable _get_trades_graph :
  list ChecksumEthAddress -> Timestamp -> Timestamp -> Result AddressTrades.
Variable _fetch_trades_from_db :
  DBHandler -> list ChecksumEthAddress -> Timestamp -> Timestamp -> AddressTrades.
Variable delete_sushiswap_trades_data : DBHandler -> DBHandler.

Abbreviation trades_history :=
  (get_trades_history _get_trades_graph _fetch_trades_from_db
     delete_sushiswap_trades_data).

(** X17: when [delete_sushiswap_trades_data] leaves no trades range,
    [get_trades_history] with [reset_db_data] fetches the whole history
    again whatever ranges were stored: it makes exactly one request, for
    all the addresses and the window from 0 to [to_timestamp]; it
    returns exactly when that request does, and then every address has
    the stored range (0, to_timestamp); when the request raises, the
    database is left as the deletion made it. *)
Theorem reset_fetches_full_history (addresses : list ChecksumEthAddress)
    (from to : Timestamp) (w : World) :
  (forall db a,
      used_query_ranges (delete_sushiswap_trades_data db)
        !! entry_name SUSHISWAP_TRADES_PREFIX a = None) ->
  addresses <> [] ->
  exists res db',
    trades_history addresses true from to w
    = (res, mkWorld db' (calls w ++ [TradesGraphCall addresses 0 to]) (msg_errors w))
    /\ is_ok res = is_ok (_get_trades_graph addresses 0 to)
    /\ (is_ok res = true ->
        forall a, a ∈ addresses ->
          used_query_ranges db' !! entry_name SUSHISWAP_TRADES_PREFIX a = Some (0, to))
    /\ (is_ok res = false -> db' = delete_sushiswap_trades_data (database w)).
Proof.
  intros Hdel Hne.
  set (w0 := mkWorld (delete_sushiswap_trades_data (database w)) (calls w) (msg_errors w)).
  assert (Hnew : forall a, is_new w0 SUSHISWAP_TRADES_PREFIX a = true).
  { intros a. unfold is_new, stored_range. cbn [database w0]. by rewrite Hdel. }
  assert (Hplan : trades_plan w0 addresses to = [(addresses, 0)]).
  { unfold trades_plan, delta_runs, new_addresses_of, existing_addresses_of.
    rewrite (filter_all _ _ Hnew).
    rewrite (filter_none (fun a => negb (is_new w0 SUSHISWAP_TRADES_PREFIX a)));
      [|by intros a; rewrite Hnew].
    by destruct addresses. }
  unfold get_trades_history. unfold bind at 1. unfold modify_db. fold w0.
  unfold _get_trades. unfold bind at 1.
  rewrite trades_fetch_stage_plan, Hplan. cbn [for_each]. unfold bind at 1.
  destruct (fetch_trades_batch_run _get_trades_graph to (addresses, 0) ∅ w0)
    as (res1 & Hrun & Hok & Hfail).
  rewrite Hrun. unfold trades_fetch_ok in *. cbn [fst snd take_while] in *.
  destruct (_get_trades_graph addresses 0 to) as [e|bt] eqn:Eg; cbn [is_ok] in *.
  - destruct (Hfail eq_refl) as [e' ->].
    eexists _, _. split; [reflexivity|]. split; [done|]. split; [done|].
    intros _. cbn [ranges_after_trades flat_map write_ranges foldl]. cbn.
    apply db_eta.
  - destruct (Hok eq_refl) as [acc' ->].
    unfold ret at 1. unfold bind, trades_persist_stage, add_amm_swaps, modify_db,
      fetch_trades_from_db.
    eexists _, _. split; [reflexivity|]. split; [done|]. split; [|done].
    intros _ a Ha. cbn [database after_fetch db_add_amm_swaps used_query_ranges].
    unfold ranges_after_trades. cbn [flat_map]. rewrite app_nil_r.
    set (done := batch_entries (addresses, 0)).
    assert (Hin : (a, 0) ∈ done).
    { unfold done, batch_entries. cbn [fst snd]. apply list_elem_of_fmap. by exists a. }
    destruct (write_ranges_lookup_written SUSHISWAP_TRADES_PREFIX to done
                (used_query_ranges (database w0)) (a, 0) Hin) as [s Hs].
    destruct (write_ranges_lookup_cases SUSHISWAP_TRADES_PREFIX to done
                (used_query_ranges (database w0))
                (entry_name SUSHISWAP_TRADES_PREFIX a)) as [Heq|(q & Hq & _ & Hl)].
    + cbn [fst] in Hs. rewrite Heq in Hs. cbn [database w0] in Hs.
      by rewrite Hdel in Hs.
    + rewrite Hl. unfold done, batch_entries in Hq. cbn [fst snd] in Hq.
      apply list_elem_of_fmap in Hq as (a' & -> & _). done.
Qed.

End HistoryProps.

Lemma for_each_cons_run {A B} (f : B -> A -> M B) (x : A) (l : list A) (b : B) (w : World) :
  for_each f (x :: l) b w
  = match f b x w with
    | (inl e, w') => (inl e, w')
    | (inr b', w') => for_each f l b' w'
    end.
Proof. reflexivity. Qed.

Section BalancesProps.
Import SushiswapApi.

Variable GRAPH_QUERY_LIMIT : Z.
Variable query_liquidityPositions : GraphRequest -> string + list RawLiquidityPosition.
Variable query_tokenDayDatas : GraphRequest -> string + list RawTokenDayData.
Variable deserialize_ethereum_address : string -> option ChecksumEthAddress.
Variable FVal_of_str : string -> option FVal.
Variable get_or_create_ethereum_token :
  string -> ChecksumEthAddress -> string -> Z -> EthereumToken.
Variable has_oracle : EthereumToken -> bool.
Variable today_epoch : Z.
Variable premium : bool.
Variable lp_addresses : list ChecksumEthAddress.
Variable uniswap_lp_token_balances :
  ChecksumEthAddress -> list ChecksumEthAddress ->
  list EthereumToken -> list EthereumToken ->
  Result (list LiquidityPool * list EthereumToken * list EthereumToken).
Variable _get_known_asset_price :
  list EthereumToken -> list EthereumToken ->
  Result (AssetToPrice * list EthereumToken * list EthereumToken).
Variable _update_assets_prices_in_address_balances :
  AddressToLPBalances -> AssetToPrice -> AssetToPrice -> Result AddressToLPBalances.

Abbreviation balances_chain :=
  (get_balances_chain lp_addresses uniswap_lp_token_balances).
Abbreviation chain_step' := (chain_step lp_addresses uniswap_lp_token_balances).
Abbreviation balances :=
  (get_balances GRAPH_QUERY_LIMIT query_liquidityPositions query_tokenDayDatas
     deserialize_ethereum_address FVal_of_str get_or_create_ethereum_token has_oracle
     today_epoch premium lp_addresses uniswap_lp_token_balances
     _get_known_asset_price _update_assets_prices_in_address_balances).
Abbreviation balances_graph' :=
  (_get_balances_graph GRAPH_QUERY_LIMIT query_liquidityPositions
     deserialize_ethereum_address FVal_of_str get_or_create_ethereum_token has_oracle).
Abbreviation prices_graph' :=
  (_get_unknown_asset_price_graph GRAPH_QUERY_LIMIT query_tokenDayDatas
     deserialize_ethereum_address FVal_of_str today_epoch).

Lemma chain_step_run (acc : ProtocolBalance) (addr : ChecksumEthAddress) (w : World) :
  chain_step' acc addr w
  = (match uniswap_lp_token_balances addr lp_addresses
             (known_assets acc) (unknown_assets acc) with
     | inl e => inl e
     | inr (pool_balances, known, unknown) =>
         inr (mkProtocolBalance
                (if negb (length pool_balances =? 0)%nat
                 then <[addr := pool_balances]> (address_balances acc)
                 else address_balances acc)
                known unknown)
     end, w).
Proof.
  unfold chain_step, bind, lift, ret.
  by destruct (uniswap_lp_token_balances _ _ _ _) as [e|[[pb k] u]].
Qed.

Lemma chain_loop_run (l : list ChecksumEthAddress) (acc : ProtocolBalance) (w : World) :
  snd (for_each chain_step' l acc w) = w
  /\ forall balance,
       fst (for_each chain_step' l acc w) = inr balance ->
       forall a pools,
         address_balances balance !! a = Some pools ->
         address_balances acc !! a = Some pools
         \/ (a ∈ l /\ pools <> []
             /\ exists known unknown known' unknown',
                  uniswap_lp_token_balances a lp_addresses known unknown
                  = inr (pools, known', unknown')).
Proof.
  revert acc. induction l as [|x l IH]; intros acc.
  { split; [done|]. intros balance H a pools Ha. injection H as <-. by left. }
  rewrite for_each_cons_run, chain_step_run.
  destruct (uniswap_lp_token_balances x lp_addresses _ _)
    as [e|[[pool_balances known] unknown]] eqn:Eh.
  { split; [done|]. done. }
  match goal with |- context [for_each _ l ?acc1 w] =>
    destruct (IH acc1) as [Hw Hres]; set (acc' := acc1) in * end.
  split; [done|].
  intros balance H a pools Ha.
  destruct (Hres balance H a pools Ha) as [Hacc|(Hin & Hne & Hex)].
  - cbn [address_balances acc'] in Hacc.
    destruct pool_balances as [|pool rest]; cbn in Hacc; [by left|].
    destruct (decide (a = x)) as [->|Hax].
    + rewrite lookup_insert_eq in Hacc. injection Hacc as <-.
      right. split; [left|]. split; [done|]. eauto.
    + rewrite lookup_insert_ne in Hacc by done. by left.
  - right. split; [by right|]. by split.
Qed.

(** X15: [get_balances_chain] maps only requested addresses, never to an
    empty list of pools, and each list is one the chain helper returned
    for that address. *)
Theorem chain_balances_only_nonempty (addresses : list ChecksumEthAddress) (w : World)
    (balance : ProtocolBalance) :
  fst (balances_chain addresses w) = inr balance ->
  forall a pools,
    address_balances balance !! a = Some pools ->
    a ∈ addresses /\ pools <> []
    /\ exists known unknown known' unknown',
         uniswap_lp_token_balances a lp_addresses known unknown
         = inr (pools, known', unknown').
Proof.
  intros H a pools Ha. unfold get_balances_chain in H.
  destruct (chain_loop_run addresses (mkProtocolBalance ∅ [] []) w) as [_ Hres].
  destruct (Hres balance H a pools Ha) as [Hempty|?]; [|done].
  cbn [address_balances] in Hempty. by rewrite lookup_empty in Hempty.
Qed.

(** X16: [get_balances] asks the subgraph only for premium users.
    Without premium no request is sent and no message reported (the
    helpers of other modules being functions of their arguments), and it
    never stops for lack of fuel.  With premium the balance query comes
    first: if it raises, [get_balances] raises the same exception and
    nothing else is requested; if it returns, the only further requests
    are those of the price query for the unknown assets
    [_get_known_asset_price] leaves, whose exception, if any, is
    raised. *)
Theorem get_balances_queries_only_for_premium (fuel : nat)
    (addresses : list ChecksumEthAddress) (w : World) :
  (premium = false ->
   snd (balances fuel addresses w) = w /\ fst (balances fuel addresses w) <> inr None)
  /\ (premium = true ->
      (forall e, fst (balances_graph' fuel addresses w) = inl e ->
         balances fuel addresses w = (inl e, snd (balances_graph' fuel addresses w)))
      /\ (forall balance w1 known_price known unknown,
            balances_graph' fuel addresses w = (inr (Some balance), w1) ->
            _get_known_asset_price (known_assets balance) (unknown_assets balance)
            = inr (known_price, known, unknown) ->
            snd (balances fuel addresses w) = snd (prices_graph' fuel unknown w1)
            /\ forall e, fst (prices_graph' fuel unknown w1) = inl e ->
                 fst (balances fuel addresses w) = inl e)).
Proof.
  split.
  - intros Hp.
    assert (exists r, balances fuel addresses w = (r, w) /\ r <> inr None) as (r & -> & Hr).
    { unfold get_balances. rewrite Hp. unfold bind, lift, ret.
      destruct (chain_loop_run addresses (mkProtocolBalance ∅ [] []) w) as [Hw _].
      unfold get_balances_chain.
      destruct (for_each _ addresses _ w) as [[e|b] w'] eqn:Er; cbn [snd] in Hw; subst w'.
      { by eexists. }
      destruct (_get_known_asset_price _ _) as [e|[[kp k] u]]; [by eexists|].
      destruct (_update_assets_prices_in_address_balances _ _ _); by eexists. }
    by split.
  - intros Hp. split.
    + intros e He. unfold get_balances. rewrite Hp. unfold bind at 1.
      destruct (balances_graph' fuel addresses w) as [[e'|b] w'] eqn:Er; [|done].
      cbn in He. by injection He as ->.
    + intros balance w1 known_price known unknown Hb Hk.
      assert (balances fuel addresses w
              = match prices_graph' fuel unknown w1 with
                | (inl e, w2) => (inl e, w2)
                | (inr None, w2) => (inr None, w2)
                | (inr (Some prices), w2) =>
                    (match _update_assets_prices_in_address_balances
                             (address_balances balance) known_price prices with
                     | inl e => inl e
                     | inr updated => inr (Some updated)
                     end, w2)
                end) as ->.
      { unfold get_balances. rewrite Hp. unfold bind at 1. rewrite Hb.
        unfold bind at 1. unfold lift at 1. rewrite Hk. unfold bind at 1.
        destruct (prices_graph' fuel unknown w1) as [[e|[prices|]] w2]; [done| |done].
        unfold bind, lift, ret.
        by destruct (_update_assets_prices_in_address_balances _ _ _). }
      destruct (prices_graph' fuel unknown w1) as [[e|[prices|]] w2]; cbn [fst snd].
      * split; [done|]. by intros e' [= ->].
      * by split.
      * by split.
Qed.

End BalancesProps.

(** ** The further properties on the sample data *)

Import AdexSerialize Coverage SushiswapApi ApiSamples.

(** X1, instance: the bond_id entry of a bond is column 8 of its row. *)
Lemma serialize_agrees_with_db_tuple_witness :
  dict_get (StakingEvent_serialize sample_Balance_serialize (EvBond sample_bond)) "bond_id"
  = Some (PStr "0xbond")
  /\ PyValue_of_DBValue <$> StakingEvent_to_db_tuple print_FVal (EvBond sample_bond) !! 8%nat
     = Some (PStr "0xbond").
Proof.
  split; [reflexivity|].
  destruct (serialize_agrees_with_db_tuple sample_Balance_serialize print_FVal
              (EvBond sample_bond)) as (_ & _ & _ & _ & _ & H).
  apply H. reflexivity.
Defined.

(** X5, instance: an events sync of "A" leaves the trades range of "A"
    alone. *)
Lemma sync_keeps_foreign_state_witness :
  (forall a, a ∈ ["A"] -> "sushiswap_trades_A" <> entry_name SUSHISWAP_EVENTS_PREFIX a)
  /\ used_query_ranges
       (database (snd (_get_events_balances no_events no_balances ["A"] 0 2000
                         world_A_synced))) !! "sushiswap_trades_A"
     = Some (0, 1000).
Proof.
  assert (H : forall a, a ∈ ["A"] ->
                "sushiswap_trades_A" <> entry_name SUSHISWAP_EVENTS_PREFIX a).
  { intros a Ha. apply list_elem_of_singleton in Ha as ->. discriminate. }
  split; [exact H|].
  destruct (sync_keeps_foreign_state no_events no_trades no_db_trades no_balances
              ["A"] 0 2000 world_A_synced) as [(Hname & _) _].
  rewrite (Hname "sushiswap_trades_A" H). reflexivity.
Defined.

(** X6, instance: after "A" and "B" were synced up to 2000, a sync up to
    1500 has nothing to fetch. *)
Lemma sync_covers_its_addresses_witness :
  1500 <= 2000
  /\ exists result w1,
       _get_events_balances no_events no_balances ["A"; "B"] 0 2000 empty_world
       = (inr result, w1)
       /\ events_plan w1 ["A"; "B"] 1500 = [].
Proof.
  assert (Hle : 1500 <= 2000) by lia.
  split; [exact Hle|].
  destruct (sync_covers_its_addresses no_events no_trades no_db_trades no_balances
              ["A"; "B"] 0 2000 1500 empty_world Hle) as [He _].
  eexists _, _. split; [vm_compute; reflexivity|].
  eapply He. vm_compute. reflexivity.
Defined.

(** X7, instance: "A" is covered up to 1000, so a trades sync up to 1000
    is the cache-only read. *)
Lemma covered_sync_is_cache_read_witness :
  covered world_A_synced SUSHISWAP_TRADES_PREFIX ["A"] 1000
  /\ _get_trades no_trades no_db_trades ["A"] 0 1000 false world_A_synced
     = _get_trades no_trades no_db_trades ["A"] 0 1000 true world_A_synced.
Proof.
  assert (Hc : covered world_A_synced SUSHISWAP_TRADES_PREFIX ["A"] 1000).
  { intros a Ha. apply list_elem_of_singleton in Ha as ->.
    exists 0, 1000. split; [reflexivity|lia]. }
  split; [exact Hc|].
  exact (proj1 (covered_sync_is_cache_read no_events no_trades no_db_trades no_balances
                  ["A"] 0 1000 world_A_synced) Hc).
Defined.

Lemma print_FVal_inj (x y : Adex.FVal) :
  AdexSerialize.print_FVal x = AdexSerialize.print_FVal y -> x = y.
Proof.
  unfold AdexSerialize.print_FVal. intros H.
  apply (inj pretty.pretty), (inj encode) in H.
  destruct x, y. cbn in H. by simplify_eq.
Qed.

(** X2, instance: a bond and its own row. *)
Lemma db_tuple_determines_event_witness :
  (forall x y, AdexSerialize.print_FVal x = AdexSerialize.print_FVal y -> x = y)
  /\ AdexSerialize.StakingEvent_to_db_tuple AdexSerialize.print_FVal
       (AdexSerialize.EvBond AdexSerialize.sample_bond)
     = AdexSerialize.StakingEvent_to_db_tuple AdexSerialize.print_FVal
         (AdexSerialize.EvBond AdexSerialize.sample_bond)
  /\ AdexSerialize.EvBond AdexSerialize.sample_bond
     = AdexSerialize.EvBond AdexSerialize.sample_bond.
Proof.
  split; [exact print_FVal_inj|]. split; [reflexivity|].
  exact (db_tuple_determines_event AdexSerialize.print_FVal _ _ print_FVal_inj eq_refl).
Defined.

Lemma prefix_app_true (p x : string) : String.prefix p (p +:+ x) = true.
Proof.
  induction p as [|c p IH]; [by destruct x|].
  change (String c p +:+ x) with (String c (p +:+ x)). cbn [String.prefix].
  by destruct (ascii_dec c c).
Qed.

Lemma drop_trades_data_clears (db : DBHandler) (a : ChecksumEthAddress) :
  used_query_ranges (drop_trades_data db) !! entry_name SUSHISWAP_TRADES_PREFIX a = None.
Proof.
  unfold drop_trades_data. cbn [used_query_ranges].
  apply map_lookup_filter_None. right. intros x _. cbn [fst].
  unfold entry_name. rewrite prefix_app_true. by intros [].
Qed.

(** X10, instance: the second position of the page has no user
    address. *)
Lemma malformed_address_raises_remote_error_witness :
  exists msg,
    _get_balances_graph 5 positions_remote_bad sample_deserialize sample_FVal_of_str
      sample_token sample_has_oracle 1 ["0xUSER"] empty_world
    = (inl (RemoteError msg),
       after_queries empty_world [balances_request 5 [lower "0xUSER"] 0] []).
Proof.
  refine (proj1 (malformed_address_raises_remote_error 5 positions_remote_bad
                   (fun _ => inr []) sample_deserialize sample_FVal_of_str sample_token
                   sample_has_oracle 0 0 empty_world)
            ["0xUSER"] [sample_position "0xuser"] (sample_position "") [] _ _ _ _ _ _).
  - reflexivity.
  - vm_compute. reflexivity.
  - discriminate.
  - discriminate.
  - left. reflexivity.
Defined.

(** X11, instance: three positions read in pages of two. *)
Lemma balances_result_well_formed_witness :
  exists balance,
    fst (_get_balances_graph 2 positions_remote sample_deserialize sample_FVal_of_str
           sample_token sample_has_oracle 3 ["0xuser"; "0xother"] empty_world)
    = inr (Some balance)
    /\ balance_well_formed sample_has_oracle balance.
Proof.
  destruct (fst (_get_balances_graph 2 positions_remote sample_deserialize
                   sample_FVal_of_str sample_token sample_has_oracle 3
                   ["0xuser"; "0xother"] empty_world)) as [e|[balance|]] eqn:E.
  - vm_compute in E. discriminate E.
  - exists balance. split; [reflexivity|].
    exact (proj1 (balances_result_well_formed 2 positions_remote sample_deserialize
                    sample_FVal_of_str sample_token sample_has_oracle 3
                    ["0xuser"; "0xother"] empty_world balance E)).
  - vm_compute in E. discriminate E.
Defined.

(** X12, instance: of the two prices of T1 the later one is kept. *)
Lemma price_of_last_record_witness :
  0 < 2
  /\ exists prices,
       fst (_get_unknown_asset_price_graph 2 prices_remote sample_deserialize
              sample_FVal_of_str 0 3 [sample_token "T1" "0xT1" "Token1" 18] empty_world)
       = inr (Some prices)
       /\ prices !! "0xt1" = Some (3 # 2)
       /\ prices !! "0xt2" = None.
Proof.
  split; [reflexivity|].
  destruct (price_of_last_record 2 prices_remote sample_deserialize sample_FVal_of_str 0 3
              [sample_token "T1" "0xT1" "Token1" 18] three_prices empty_world)
    as (prices & Hrun & Hlook).
  - reflexivity.
  - intros offset. reflexivity.
  - vm_compute. lia.
  - repeat constructor; by eexists.
  - exists prices. split; [exact Hrun|]. rewrite !Hlook. split; reflexivity.
Defined.

(** X13, instance: the swaps of the trades returned for "A". *)
Lemma returned_swaps_belong_to_address_witness :
  exists trades,
    fst (_get_trades_graph_for_address 2 swaps_remote sample_deserialize
           sample_FVal_of_str sample_token 4 "A" 0 1000 empty_world)
    = inr (Some trades)
    /\ trades <> []
    /\ forall t s, t ∈ trades -> s ∈ swaps t ->
         address s = "A" /\ no_dash (tx_hash s) = true.
Proof.
  destruct (fst (_get_trades_graph_for_address 2 swaps_remote sample_deserialize
                   sample_FVal_of_str sample_token 4 "A" 0 1000 empty_world))
    as [e|[trades|]] eqn:E.
  - vm_compute in E. discriminate E.
  - exists trades. split; [reflexivity|]. split.
    + intros ->. vm_compute in E. discriminate E.
    + intros t s Ht Hs.
      destruct (returned_swaps_belong_to_address 2 swaps_remote sample_deserialize
                  sample_FVal_of_str sample_token 4 "A" 0 1000 empty_world trades E
                  t s Ht Hs) as (Ha & _ & Hd & _).
      by split.
  - vm_compute in E. discriminate E.
Defined.

(** X15, instance: the chain helper finds a pool for "A" and none for
    "B". *)
Lemma chain_balances_only_nonempty_witness :
  exists balance,
    fst (get_balances_chain [] sample_chain_balances ["A"; "B"] empty_world) = inr balance
    /\ address_balances balance !! "B" = None
    /\ forall a pools, address_balances balance !! a = Some pools ->
         a ∈ ["A"; "B"] /\ pools <> [].
Proof.
  destruct (fst (get_balances_chain [] sample_chain_balances ["A"; "B"] empty_world))
    as [e|balance] eqn:E.
  - vm_compute in E. discriminate E.
  - exists balance. split; [reflexivity|]. split.
    + vm_compute in E. injection E as <-. reflexivity.
    + intros a pools Ha.
      destruct (chain_balances_only_nonempty [] sample_chain_balances ["A"; "B"]
                  empty_world balance E a pools Ha) as (Hin & Hne & _).
      by split.
Defined.

(** X16, instance: without premium nothing is asked of the subgraph. *)
Lemma get_balances_queries_only_for_premium_witness :
  false = false
  /\ snd (get_balances 2 positions_remote prices_remote sample_deserialize
            sample_FVal_of_str sample_token sample_has_oracle 0 false []
            sample_chain_balances sample_known_price sample_update_prices
            3 ["A"; "B"] empty_world)
     = empty_world.
Proof.
  split; [reflexivity|].
  exact (proj1 (proj1 (get_balances_queries_only_for_premium 2 positions_remote
                         prices_remote sample_deserialize sample_FVal_of_str sample_token
                         sample_has_oracle 0 false [] sample_chain_balances
                         sample_known_price sample_update_prices 3 ["A"; "B"]
                         empty_world) eq_refl)).
Defined.

(** X17, instance: "A" is synced up to 1000, and a reset asks for its
    whole history up to 500 all the same. *)
Lemma reset_fetches_full_history_witness :
  ["A"] <> []
  /\ calls (snd (get_trades_history no_trades no_db_trades drop_trades_data
                   ["A"] true 0 500 world_A_synced)) = [TradesGraphCall ["A"] 0 500]
  /\ stored_range (snd (get_trades_history no_trades no_db_trades drop_trades_data
                          ["A"] true 0 500 world_A_synced))
       SUSHISWAP_TRADES_PREFIX "A" = Some (0, 500).
Proof.
  assert (Hne : ["A"] <> []) by discriminate.
  split; [exact Hne|].
  destruct (reset_fetches_full_history no_trades no_db_trades drop_trades_data
              ["A"] 0 500 world_A_synced drop_trades_data_clears Hne)
    as (res & db' & Hrun & Hok & Hr & _).
  rewrite Hrun. cbn [snd calls]. split; [reflexivity|].
  unfold stored_range. cbn [database]. apply Hr; [by rewrite Hok|left].
Defined.
